(** * WFAP credit negotiation front end: request interpretation, ranking and
      negotiation

    A shallow embedding of the logic of the four React components:

    - [Chatbot.js]: [parseLoanRequestFallback], [parseLoanRequestWithOllama]
      and [handleSubmit] with its submission gate;
    - [App.js]: the "best offers" chain [filter / sort / slice / map], the
      handlers [handleLoanRequest] and [fetchOffers], and the notification
      banner of [showNotification];
    - [OffersGrid.js]: [handleNegotiate] and the [negotiating] flag;
    - [PreviousOffers.js]: [fetchOffers] and the numbering of the cards.

    Conventions of the embedding.

    - A string is a [list ascii]: the code units of the text, restricted to
      those below 256.  On that range [\s] and [trim] see the seven white
      space characters 9-13, 32 and 160, [\d] sees [0-9], [.] sees everything
      but line feed and carriage return, and the [i] flag identifies exactly
      the two cases of an ASCII letter (the patterns of the program contain
      ASCII letters only).
    - A number is binary64.  A finite one is written as the rational it is
      ([Q]); [NaN] and the infinities are values of their own.  Where the
      program computes a number ([parseFloat], [parseInt], the subtraction
      of line 11 of [OffersGrid.js], the product under [toFixed]) the result
      is rounded to the nearest binary64, ties to even ([Binary64]).  The
      comparator of the ranking only looks at the sign of a difference,
      which rounding preserves on finite numbers.
    - A value whose type the program does not fix (the argument of the
      extractor, the fields of an interpreted request, the reply of the
      language model) is a [value].
    - [throw] / [try .. catch] is the error monad [result]; asynchronous
      calls are functions of the reply the environment gives. *)

From Stdlib Require Import Ascii String Bool Arith ZArith QArith Qabs Lia Lqa List.
From Stdlib Require Import Permutation Sorted PrimFloat SpecFloat FloatOps.
From Stdlib Require Uint63.
Import ListNotations.

Set Implicit Arguments.
#[local] Set Warnings "-register-all,-inexact-float".

Local Open Scope nat_scope.
Local Open Scope list_scope.

(** ** Strings *)

Definition str := list ascii.

(** String literals of the program text. *)
Definition lit (s : string) : str := list_ascii_of_string s.

Definition code (a : ascii) : nat := nat_of_ascii a.

Definition is_digit (a : ascii) : bool := (48 <=? code a) && (code a <=? 57).

(** [\s] (and the characters [trim] removes). *)
Definition is_space (a : ascii) : bool :=
  ((9 <=? code a) && (code a <=? 13)) || (code a =? 32) || (code a =? 160).

(** [.] without the [s] flag: anything but a line terminator. *)
Definition is_dot (a : ascii) : bool :=
  negb ((code a =? 10) || (code a =? 13)).

Definition is_lower (a : ascii) : bool := (97 <=? code a) && (code a <=? 122).

(** Canonicalisation of the [i] flag on ASCII letters. *)
Definition upcase (a : ascii) : ascii :=
  if is_lower a then ascii_of_nat (code a - 32) else a.

Fixpoint str_eqb (s t : str) : bool :=
  match s, t with
  | [], [] => true
  | a :: s', b :: t' => Ascii.eqb a b && str_eqb s' t'
  | _, _ => false
  end.

Fixpoint drop_spaces (s : str) : str :=
  match s with
  | a :: s' => if is_space a then drop_spaces s' else s
  | [] => []
  end.

(** [String.prototype.trim]. *)
Definition trim (s : str) : str :=
  rev (drop_spaces (rev (drop_spaces s))).

(** ** Regular expressions

    The fragment of the ECMAScript pattern language the program uses, with
    the backtracking semantics of the language: alternatives left to right,
    greedy quantifiers, an iteration of [*] that consumes nothing is
    rejected, the leftmost start position wins.  No capturing parenthesis
    of the program stands under a quantifier, so a capture is written
    once. *)

Module RegExp.

Inductive regex : Type :=
| Eps : regex
| Chr : ascii -> regex                 (* a literal character *)
| Class : (ascii -> bool) -> regex     (* [\d], [\s], [.] *)
| Bol : regex                          (* [^] *)
| Seq : regex -> regex -> regex
| Alt : regex -> regex -> regex        (* [r1|r2] *)
| Star : regex -> regex                (* [r*], greedy *)
| Group : nat -> regex -> regex.       (* the i-th capturing parenthesis *)

Definition Plus (r : regex) : regex := Seq r (Star r).
Definition Opt (r : regex) : regex := Alt r Eps.

Fixpoint Rep (n : nat) (r : regex) : regex :=
  match n with
  | 0 => Eps
  | S n' => Seq r (Rep n' r)
  end.

Fixpoint Word (s : str) : regex :=
  match s with
  | [] => Eps
  | a :: s' => Seq (Chr a) (Word s')
  end.

Definition W (s : string) : regex := Word (lit s).

Fixpoint OneOf (rs : list regex) : regex :=
  match rs with
  | [] => Eps
  | [r] => r
  | r :: rs' => Alt r (OneOf rs')
  end.

Definition digit : regex := Class is_digit.
Definition space : regex := Class is_space.
Definition dot : regex := Class is_dot.

(** A pattern literal [/source/] or [/source/i]. *)
Record pattern : Type := Pattern { source : regex; ignoreCase : bool }.

Definition captures := list (nat * str).

Fixpoint capture (i : nat) (c : captures) : option str :=
  match c with
  | [] => None
  | (j, s) :: c' => if i =? j then Some s else capture i c'
  end.

Definition same_char (icase : bool) (a x : ascii) : bool :=
  if icase then Ascii.eqb (upcase a) (upcase x) else Ascii.eqb a x.

Section Matcher.

Variable icase : bool.
(** Length of the whole input: [^] holds where that much is left. *)
Variable whole : nat.
Variable R : Type.

Definition cont : Type := str -> captures -> option R.

(** The iterations of [r*], longest first.  [body] matches [r] once; an
    iteration has to consume something, so the length of the input bounds
    the number of iterations and [fuel] never runs out before that. *)
Fixpoint star_loop (body : str -> captures -> cont -> option R) (k : cont)
         (fuel : nat) (s : str) (c : captures) : option R :=
  match fuel with
  | 0 => k s c
  | S fuel' =>
      match body s c
              (fun s1 c1 =>
                 if length s1 <? length s then star_loop body k fuel' s1 c1
                 else None) with
      | Some x => Some x
      | None => k s c
      end
  end.

Fixpoint run (r : regex) (s : str) (c : captures) (k : cont) : option R :=
  match r with
  | Eps => k s c
  | Chr a =>
      match s with
      | x :: s' => if same_char icase a x then k s' c else None
      | [] => None
      end
  | Class p =>
      match s with
      | x :: s' => if p x then k s' c else None
      | [] => None
      end
  | Bol => if length s =? whole then k s c else None
  | Seq r1 r2 => run r1 s c (fun s1 c1 => run r2 s1 c1 k)
  | Alt r1 r2 =>
      match run r1 s c k with
      | Some x => Some x
      | None => run r2 s c k
      end
  | Star r1 => star_loop (run r1) k (length s) s c
  | Group i r1 =>
      run r1 s c
        (fun s1 c1 => k s1 ((i, firstn (length s - length s1) s) :: c1))
  end.

End Matcher.

(** The result of [RegExp.prototype.exec]: where the match starts, the
    matched text ([m[0]]) and the captures ([m[i]]). *)
Record match_result : Type :=
  Match { index : nat; matched : str; groups : captures }.

Fixpoint search (p : pattern) (whole : nat) (pos : nat) (s : str)
  : option match_result :=
  match run (ignoreCase p) whole (source p) s []
          (fun s1 c1 => Some (s1, c1)) with
  | Some (s1, c1) =>
      Some (Match pos (firstn (length s - length s1) s) c1)
  | None =>
      match s with
      | [] => None
      | _ :: s' => search p whole (S pos) s'
      end
  end.

(** [text.match(p)] for a pattern without the [g] flag. *)
Definition exec (p : pattern) (text : str) : option match_result :=
  search p (length text) 0 text.

(** [text.replace(p, '')] for a pattern without the [g] flag: the first
    match is cut out. *)
Definition remove_first (p : pattern) (text : str) : str :=
  match exec p text with
  | None => text
  | Some m => firstn (index m) text ++ skipn (index m + length (matched m)) text
  end.

End RegExp.

Import RegExp.

(** ** Binary64

    The numbers of the language.  A decimal numeral, a difference or a
    product has an exact value, and the program gets the binary64 nearest
    to it: 53 significant bits, exponents from -1074 on, a tie goes to the
    even significand, and what rounds to [2^1024] or more is [Infinity]. *)

Module Binary64.

(** The integer nearest to [n / d], the even one on a tie ([0 <= n],
    [0 < d]). *)
Definition round_even (n d : Z) : Z :=
  let f := (n / d)%Z in
  match (2 * (n mod d) ?= d)%Z with
  | Lt => f
  | Gt => (f + 1)%Z
  | Eq => if Z.even f then f else (f + 1)%Z
  end.

(** [n / d / 2^e] as a quotient of two integers. *)
Definition scaled_num (n : Z) (e : Z) : Z := (n * 2 ^ Z.max 0 (- e))%Z.
Definition scaled_den (d : positive) (e : Z) : Z :=
  (Zpos d * 2 ^ Z.max 0 e)%Z.

(** The exponent [e] of the last bit kept of [n / d]:
    [2^52 <= n / d / 2^e < 2^53], and [-1074] for the numbers too small
    for that. *)
Definition exponent (n : Z) (d : positive) : Z :=
  let e := (Z.log2 n - Z.log2 (Zpos d) - 52)%Z in
  let e := if (scaled_num n e <? 2 ^ 52 * scaled_den d e)%Z
           then (e - 1)%Z else e in
  Z.max (-1074) e.

(** The binary64 nearest to [n / d] for [0 <= n]: [m * 2^e] for the
    significand [m] and the exponent [e]; [None] is [Infinity]. *)
Definition nearest (n : Z) (d : positive) : option Q :=
  if (n <=? 0)%Z then Some 0%Q
  else
    let e := exponent n d in
    let m := round_even (scaled_num n e) (scaled_den d e) in
    if (2 ^ 1024 * 2 ^ Z.max 0 (- e) <=? m * 2 ^ Z.max 0 e)%Z then None
    else Some (Qred (m * 2 ^ Z.max 0 e # Z.to_pos (2 ^ Z.max 0 (- e)))).

(** The same for a rational of either sign. *)
Definition round (q : Q) : option Q :=
  if Qle_bool 0 q then nearest (Qnum q) (Qden q)
  else option_map Qopp (nearest (- Qnum q) (Qden q)).

(** The result of an operation on finite numbers whose exact value is
    [q], where the result is finite: the difference of a binary64 and 0.005
    always is.  (Beyond the range, where it does not apply, the exact value
    is kept.) *)
Definition to64 (q : Q) : Q :=
  match round q with
  | Some x => x
  | None => q
  end.

(** The rational a finite machine float is. *)
Definition Q_of_float (f : float) : option Q :=
  match Prim2SF f with
  | S754_zero _ => Some 0%Q
  | S754_finite s m e =>
      let q := if (0 <=? e)%Z then inject_Z (Zpos m * 2 ^ e)
               else (Zpos m # Z.to_pos (2 ^ (- e))) in
      Some (Qred (if s then - q else q))
  | _ => None
  end.

(** The machine float [n / d] of two integers below [2^63]: both are
    converted exactly when they are below [2^53], and the division of the
    machine is correctly rounded. *)
Definition float_of_ratio (n d : Z) : float :=
  PrimFloat.div (PrimFloat.of_uint63 (Uint63.of_Z n))
    (PrimFloat.of_uint63 (Uint63.of_Z d)).

(** The same number, written the same way. *)
Definition same_number (a b : option Q) : bool :=
  match a, b with
  | Some x, Some y => Qeq_bool x y && Pos.eqb (Qden x) (Qden y)
  | None, None => true
  | _, _ => false
  end.

Definition upto (n : nat) : list Z := map Z.of_nat (seq 0 n).

Arguments to64 : simpl never.
Arguments nearest : simpl never.

End Binary64.

(** ** Values and exceptions *)

(** The values a JSON reply or an extracted field can hold.  A finite
    number is [VNum]; [NaN], [Infinity] and [-Infinity] are the numbers
    that are not rationals. *)
Inductive value : Type :=
| VUndefined : value
| VNull : value
| VBool : bool -> value
| VNum : Q -> value
| VNaN : value
| VInfinity : value
| VNegInfinity : value
| VStr : str -> value
| VArr : list value -> value
| VObj : list (str * value) -> value.

(** [ToBoolean]. *)
Definition truthy (v : value) : bool :=
  match v with
  | VUndefined | VNull | VNaN => false
  | VBool b => b
  | VNum q => negb (Qeq_bool q 0)
  | VStr s => negb (str_eqb s [])
  | VInfinity | VNegInfinity | VArr _ | VObj _ => true
  end.

(** [a || b]. *)
Definition js_or (a b : value) : value := if truthy a then a else b.

(** [typeof v === 'string']. *)
Definition is_string (v : value) : bool :=
  match v with VStr _ => true | _ => false end.

Definition as_str (v : value) : str :=
  match v with VStr s => s | _ => [] end.

Inductive result (A : Type) : Type :=
| Ok : A -> result A
| Throw : str -> result A.

Arguments Ok {A} _.
Arguments Throw {A} _.

Definition bind {A B : Type} (x : result A) (f : A -> result B) : result B :=
  match x with
  | Ok a => f a
  | Throw e => Throw e
  end.

(** [try { body } catch (e) { handler e }]. *)
Definition try_catch {A : Type} (body : result A) (handler : str -> result A)
  : result A :=
  match body with
  | Ok a => Ok a
  | Throw e => handler e
  end.

Notation "x <- e1 ;; e2" := (bind e1 (fun x => e2))
  (at level 61, e1 at next level, right associativity).

(** ** Numerals *)

Definition digit_val (a : ascii) : Z := Z.of_nat (code a - 48).

Fixpoint digits_val (acc : Z) (s : str) : Z :=
  match s with
  | [] => acc
  | a :: s' => digits_val (10 * acc + digit_val a) s'
  end.

Fixpoint take_while (p : ascii -> bool) (s : str) : str :=
  match s with
  | a :: s' => if p a then a :: take_while p s' else []
  | [] => []
  end.

Fixpoint drop_while (p : ascii -> bool) (s : str) : str :=
  match s with
  | a :: s' => if p a then drop_while p s' else s
  | [] => []
  end.

(** The number a decimal numeral of value [n / d] is read as: the nearest
    binary64, or [Infinity].  (The language leaves the digits behind the
    twentieth to the engine; the engines round the numeral as it is
    written.) *)
Definition number_value (n : Z) (d : positive) : value :=
  match Binary64.nearest n d with
  | Some q => VNum q
  | None => VInfinity
  end.

(** [parseInt(s)] on the strings the program passes: a run of decimal
    digits (the first capture of the duration pattern).  Anything that does
    not start with a digit gives [NaN]. *)
Definition parseInt (s : str) : value :=
  match take_while is_digit s with
  | [] => VNaN
  | ds => number_value (digits_val 0 ds) 1
  end.

(** [parseFloat(s)] on the strings the program passes: digits with an
    optional fraction (the first capture of the amount pattern, commas
    removed). *)
Definition parseFloat (s : str) : value :=
  match take_while is_digit s with
  | [] => VNaN
  | ds =>
      match drop_while is_digit s with
      | "."%char :: rest =>
          let fs := take_while is_digit rest in
          number_value (digits_val (digits_val 0 ds) fs)
            (Z.to_pos (10 ^ Z.of_nat (length fs)))
      | _ => number_value (digits_val 0 ds) 1
      end
  end.

(** Decimal digits of a natural number. *)
Fixpoint digits_of (fuel : nat) (n : Z) (acc : str) : str :=
  match fuel with
  | 0 => acc
  | S fuel' =>
      let acc' := ascii_of_nat (48 + Z.to_nat (n mod 10)) :: acc in
      if (n / 10 =? 0)%Z then acc' else digits_of fuel' (n / 10)%Z acc'
  end.

Definition show_Z (n : Z) : str := digits_of (S (Z.to_nat (Z.log2 n))) n [].

(** ** Chatbot.js *)

Module Chatbot.

(** The object both interpreters return. *)
Record LoanData : Type := mkLoanData {
  amount : value;
  duration : value;
  purpose : value;
  expected_income : value
}.

(** [\d+(?:,\d{3})*(?:\.\d{2})?] *)
Definition money : regex :=
  Seq (Plus digit)
    (Seq (Star (Seq (Chr ",") (Rep 3 digit)))
       (Opt (Seq (Chr ".") (Rep 2 digit)))).

(** [(?:income|revenue|earnings?|profit|expected)\s*(?:of|is|will be|about)?\s*\$?]
    followed by [tail]. *)
Definition income_lead (tail : regex) : regex :=
  Seq (OneOf [W "income"; W "revenue"; Seq (W "earning") (Opt (Chr "s"));
              W "profit"; W "expected"])
    (Seq (Star space)
       (Seq (Opt (OneOf [W "of"; W "is"; W "will be"; W "about"]))
          (Seq (Star space) (Seq (Opt (Chr "$")) tail)))).

(** [/\$?(\d+(?:,\d{3})*(?:\.\d{2})?)/] (line 91). *)
Definition amountPattern : pattern :=
  Pattern (Seq (Opt (Chr "$")) (Group 1 money)) false.

(** [/(\d+)\s*(?:month|year)/i] (lines 95 and 110). *)
Definition durationPattern : pattern :=
  Pattern (Seq (Group 1 (Plus digit))
             (Seq (Star space) (Alt (W "month") (W "year")))) true.

(** The income pattern of line 99; its only capturing parenthesis is the
    numeral. *)
Definition incomePattern : pattern :=
  Pattern (income_lead (Group 1 money)) true.

(** The array of lines 104-112. *)
Definition removePhrases : list pattern :=
  [ Pattern (W "i need a loan for") true;
    Pattern (W "i want to borrow") true;
    Pattern (W "loan for") true;
    Pattern (W "borrow") true;
    Pattern (Seq (Opt (Chr "$")) money) true;
    durationPattern;
    Pattern (income_lead money) true ].

(** [/^to\s+/i] and [/^for\s+/i] (line 122). *)
Definition leadingTo : pattern :=
  Pattern (Seq Bol (Seq (W "to") (Plus space))) true.
Definition leadingFor : pattern :=
  Pattern (Seq Bol (Seq (W "for") (Plus space))) true.

(** The array of lines 127-130. *)
Definition purposePatterns : list pattern :=
  [ Pattern (Seq (Alt (W "for") (W "to"))
               (Seq (Plus space) (Group 1 (Plus dot)))) true;
    Pattern (Seq (OneOf [W "start"; W "open"; W "build"; W "buy";
                         W "invest in"])
               (Seq (Plus space) (Group 1 (Plus dot)))) true ].

(** [m[i]] of a possibly null match, as a value. *)
Definition group_of (m : option match_result) (i : nat) : value :=
  match m with
  | Some r => match capture i (groups r) with
              | Some s => VStr s
              | None => VUndefined
              end
  | None => VUndefined
  end.

Definition is_match (m : option match_result) : bool :=
  match m with Some _ => true | None => false end.

(** [s.replace(/,/g, '')]. *)
Definition strip_commas (s : str) : str :=
  filter (fun a => negb (Ascii.eqb a ",")) s.

(** The [for .. of] loop of lines 132-138: the first pattern with a
    non-empty first capture sets [purpose] and leaves the loop. *)
Fixpoint first_purpose (ps : list pattern) (text : str) (purpose : value)
  : value :=
  match ps with
  | [] => purpose
  | p :: ps' =>
      let m := exec p text in
      if is_match m && truthy (group_of m 1)
      then VStr (trim (as_str (group_of m 1)))
      else first_purpose ps' text purpose
  end.

(** The body of the [try] block of lines 114-139. *)
Definition purpose_body (text : str) (purpose : value) : result value :=
  let purpose :=
    fold_left
      (fun purpose phrase =>
         if is_string purpose
         then VStr (remove_first phrase (as_str purpose))
         else purpose)
      removePhrases purpose in
  let purpose :=
    if is_string purpose
    then VStr (remove_first leadingFor
                 (remove_first leadingTo (trim (as_str purpose))))
    else purpose in
  let purpose :=
    if negb (truthy purpose)
    then first_purpose purposePatterns text purpose
    else purpose in
  Ok purpose.

Definition no_data : LoanData := mkLoanData VNull VNull VNull (VNum 0).

(** [parseLoanRequestFallback] (lines 81-146).  [lowerText] (line 88) is
    computed and never read. *)
Definition parseLoanRequestFallback (v : value) : LoanData :=
  if negb (truthy v) || negb (is_string v) then no_data
  else
    let text := as_str v in
    let amountMatch := exec amountPattern text in
    let amount :=
      if is_match amountMatch && truthy (group_of amountMatch 1)
      then parseFloat (strip_commas (as_str (group_of amountMatch 1)))
      else VNull in
    let durationMatch := exec durationPattern text in
    let duration :=
      if is_match durationMatch && truthy (group_of durationMatch 1)
      then parseInt (as_str (group_of durationMatch 1))
      else VNull in
    let incomeMatch := exec incomePattern text in
    let expectedIncome :=
      if is_match incomeMatch && truthy (group_of incomeMatch 2)
      then parseFloat (strip_commas (as_str (group_of incomeMatch 2)))
      else VNull in
    let purpose := js_or (VStr text) (VStr []) in
    let purpose :=
      match try_catch (purpose_body text purpose) (fun _ => Ok VNull) with
      | Ok p => p
      | Throw _ => VNull
      end in
    mkLoanData amount duration purpose (js_or expectedIncome (VNum 0)).

(** *** The language-model path *)

Fixpoint lookup (k : str) (fields : list (str * value)) : value :=
  match fields with
  | [] => VUndefined
  | (k', v) :: fields' => if str_eqb k k' then v else lookup k fields'
  end.

(** [v.k] for the property names the program reads ([message], [content],
    [amount], ...): none of them is inherited, so only an object can hold
    one; reading a property of [null] or [undefined] is a [TypeError]. *)
Definition get (v : value) (k : string) : result value :=
  match v with
  | VUndefined | VNull => Throw (lit "TypeError")
  | VObj fields => Ok (lookup (lit k) fields)
  | _ => Ok VUndefined
  end.

(** [v?.k]. *)
Definition get_opt (v : value) (k : string) : result value :=
  match v with
  | VUndefined | VNull => Ok VUndefined
  | _ => get v k
  end.

(** [v.trim()]: only a string has a callable [trim]. *)
Definition call_trim (v : value) : result str :=
  match v with
  | VStr s => Ok (trim s)
  | _ => Throw (lit "TypeError")
  end.

(** What [await fetch(..)] and [await response.json()] give: the request
    fails, or a response arrives with its [ok] flag, its status and its
    body, which is JSON ([Some]) or not ([None]). *)
Inductive llm_reply : Type :=
| FetchRejected : llm_reply
| Response : bool -> nat -> option value -> llm_reply.

Section Interpreter.

(** [JSON.parse]: [None] when it throws a [SyntaxError]. *)
Variable JSON_parse : str -> option value.

Definition parse_json (s : str) : result value :=
  match JSON_parse s with
  | Some v => Ok v
  | None => Throw (lit "SyntaxError")
  end.

(** [parseLoanRequestWithOllama] (lines 23-79). *)
Definition parseLoanRequestWithOllama (text : str) (reply : llm_reply)
  : result LoanData :=
  try_catch
    (match reply with
     | FetchRejected => Throw (lit "Failed to fetch")
     | Response ok status body =>
         if negb ok then Throw (lit "Ollama API error")
         else
           data <- match body with
                   | Some d => Ok d
                   | None => Throw (lit "SyntaxError")
                   end ;;
           message <- get data "message" ;;
           content <- get_opt message "content" ;;
           let content := js_or content (VStr []) in
           try_catch
             (trimmed <- call_trim content ;;
              parsed <- parse_json trimmed ;;
              a <- get parsed "amount" ;;
              d <- get parsed "duration" ;;
              p <- get parsed "purpose" ;;
              e <- get parsed "expected_income" ;;
              Ok (mkLoanData (js_or a VNull) (js_or d VNull)
                    (js_or p VNull) (js_or e (VNum 0))))
             (fun _ => Ok (parseLoanRequestFallback (VStr text)))
     end)
    (fun _ => Ok (parseLoanRequestFallback (VStr text))).

(** *** The submission gate *)

(** The condition of line 160. *)
Definition incomplete (d : LoanData) : bool :=
  negb (truthy (amount d)) || negb (truthy (duration d))
  || negb (truthy (purpose d)).

Definition isComplete (d : LoanData) : bool := negb (incomplete d).

Inductive sender : Type := user | bot.

Record message : Type := mkMessage { mtype : sender; content : str }.

(** The state of the component, and the calls of [onLoanRequest] it has
    made. *)
Record chat : Type := mkChat {
  messages : list message;
  inputValue : str;
  isTyping : bool;
  submitted : list LoanData
}.

Definition say (who : sender) (text : str) (st : chat) : chat :=
  mkChat (messages st ++ [mkMessage who text]) (inputValue st)
    (isTyping st) (submitted st).

Definition setInputValue (v : str) (st : chat) : chat :=
  mkChat (messages st) v (isTyping st) (submitted st).

Definition setIsTyping (b : bool) (st : chat) : chat :=
  mkChat (messages st) (inputValue st) b (submitted st).

Definition call_onLoanRequest (d : LoanData) (st : chat) : chat :=
  mkChat (messages st) (inputValue st) (isTyping st) (submitted st ++ [d]).

Definition quote : ascii := ascii_of_nat 34.

Definition clarification : str :=
  lit "I couldn't understand your loan request. Please provide the loan amount, duration, and purpose. For example: "
  ++ [quote]
  ++ lit "I need $500,000 for 36 months to start a solar business."
  ++ [quote].

Definition processed : str :=
  lit "Your loan request has been processed! Check the offers above.".

Definition sorry (e : str) : str :=
  lit "Sorry, there was an error processing your request: " ++ e
  ++ lit ". Please try again.".

(** The "Processing your loan request ..." text of line 171: its
    [toLocaleString] depends on the locale, and building it can throw (a
    field of the answer of the language model can be an object whose own
    [toLocaleString] or [toString] is no function). *)
Variable processing : LoanData -> result str.

(** The handler the parent passes; it may reject. *)
Variable onLoanRequest : LoanData -> result unit.

(** [handleSubmit] (lines 148-190), on the reply the language model gives.

    The text of line 171 is built inside the function passed to
    [setMessages], which runs when the component is rendered next and not
    inside the [try]: the handler goes on to call [onLoanRequest] whether
    or not the text can be built.  When building it throws, the render
    fails and the component is gone: no message is added and nothing the
    handler sets afterwards is shown; the state given is the last one
    shown, with the call of [onLoanRequest] on record. *)
Definition handleSubmit (st : chat) (reply : llm_reply) : chat :=
  if negb (truthy (VStr (trim (inputValue st)))) then st
  else
    let userMessage := trim (inputValue st) in
    let st := say user userMessage st in
    let st := setInputValue [] st in
    let st := setIsTyping true st in
    match parseLoanRequestWithOllama userMessage reply with
    | Throw e => setIsTyping false (say bot (sorry e) st)
    | Ok loanData =>
        if incomplete loanData
        then setIsTyping false (say bot clarification st)
        else
          match processing loanData with
          | Throw _ => call_onLoanRequest loanData st
          | Ok text =>
              let st := say bot text st in
              let st := call_onLoanRequest loanData st in
              match onLoanRequest loanData with
              | Throw e => setIsTyping false (say bot (sorry e) st)
              | Ok _ => setIsTyping false (say bot processed st)
              end
          end
    end.

End Interpreter.

End Chatbot.

(** ** Offers *)

(** The [offer] record of a bank. *)
Record Offer : Type := mkOffer {
  amount_approved : Q;
  interest_rate : Q;
  carbon_adjusted_rate : Q;
  repayment_period : Q;
  esg_summary : str
}.

(** An entry of the [offers] state.  Its [offer] can be [undefined]: the
    grid reads it as [offerData.offer || {}], and a negotiation stores
    whatever [updated_offer] the reply carries. *)
Record BankOffer : Type := mkBankOffer {
  bank_id : str;
  bank_name : str;
  offer : option Offer
}.

(** [offerData.offer.field]: a [TypeError] when [offer] is [undefined]. *)
Definition offer_of (od : BankOffer) : result Offer :=
  match offer od with
  | Some o => Ok o
  | None => Throw (lit "TypeError")
  end.

(** ** App.js: the best offers *)

Module App.

(** [Array.prototype.filter] with a predicate that can throw. *)
Fixpoint filterM {A : Type} (f : A -> result bool) (l : list A)
  : result (list A) :=
  match l with
  | [] => Ok []
  | x :: l' =>
      b <- f x ;;
      r <- filterM f l' ;;
      Ok (if b then x :: r else r)
  end.

(** [Array.prototype.sort] with a comparator: [x] goes before [y] when
    [cmp x y < 0], after it when [cmp x y > 0], and equal entries keep their
    order (the sort is stable).  Written as an insertion from the right;
    on a consistent comparator every stable sort gives the same list. *)
Fixpoint insertM {A : Type} (cmp : A -> A -> result Q) (x : A) (l : list A)
  : result (list A) :=
  match l with
  | [] => Ok [x]
  | y :: l' =>
      c <- cmp x y ;;
      if Qle_bool c 0 then Ok (x :: y :: l')
      else r <- insertM cmp x l' ;; Ok (y :: r)
  end.

Fixpoint sortM {A : Type} (cmp : A -> A -> result Q) (l : list A)
  : result (list A) :=
  match l with
  | [] => Ok []
  | x :: l' => s <- sortM cmp l' ;; insertM cmp x s
  end.

(** The predicate of line 112: [offerData.offer.amount_approved > 0]. *)
Definition approved (offerData : BankOffer) : result bool :=
  o <- offer_of offerData ;;
  Ok (negb (Qle_bool (amount_approved o) 0)).

(** The comparator of lines 113-118. *)
Definition compare (a b : BankOffer) : result Q :=
  ob <- offer_of b ;;
  oa <- offer_of a ;;
  if negb (Qeq_bool (amount_approved ob) (amount_approved oa))
  then Ok (amount_approved ob - amount_approved oa)%Q
  else Ok (interest_rate oa - interest_rate ob)%Q.

(** An entry of the list shown, with the [recommended] mark of line 121. *)
Record ranked : Type := mkRanked { entry : BankOffer; recommended : bool }.

(** Lines 111-121: [filter], [sort], [slice(0, 3)], [map]. *)
Definition rank (offers : list BankOffer) (selected_bank : str)
  : result (list ranked) :=
  kept <- filterM approved offers ;;
  sorted <- sortM compare kept ;;
  Ok (map (fun offerData =>
             mkRanked offerData (str_eqb (bank_id offerData) selected_bank))
        (firstn 3 sorted)).

End App.

(** ** OffersGrid.js: negotiation *)

Module OffersGrid.

(** The body of the [POST /negotiate_offer] request (lines 18-22). *)
Record NegotiationRequest : Type := mkRequest {
  req_bank_id : str;
  current_offer : Offer;
  target_rate : Q
}.

(** The object [response.json()] gives (lines 26-33). *)
Record NegotiationResult : Type := mkResult {
  agreed : bool;
  updated_offer : option Offer;
  new_rate : option Q;
  reason : option str
}.

Inductive json_body : Type :=
| NotJson : json_body
| JsonNull : json_body
| Json : NegotiationResult -> json_body.

(** What [await fetch(..)] gives: the request fails, or a response arrives
    with its [ok] flag and its body. *)
Inductive reply : Type :=
| FetchRejected : reply
| Response : bool -> json_body -> reply.

(** The [offers] state of the parent, the [negotiating] state of the grid,
    and the calls made so far: notifications (message, type) and requests. *)
Record grid : Type := mkGrid {
  offers : list BankOffer;
  negotiating : option nat;
  notifications : list (str * str);
  requests : list NegotiationRequest
}.

(** State and exceptions: what was done before a [throw] stays done. *)
Definition M (A : Type) : Type := grid -> result A * grid.

Definition ret {A : Type} (a : A) : M A := fun g => (Ok a, g).

Definition raise {A : Type} (e : str) : M A := fun g => (Throw e, g).

Definition lift {A : Type} (r : result A) : M A := fun g => (r, g).

Definition mbind {A B : Type} (m : M A) (f : A -> M B) : M B :=
  fun g =>
    match m g with
    | (Ok a, g') => f a g'
    | (Throw e, g') => (Throw e, g')
    end.

Definition catch {A : Type} (m : M A) (handler : str -> M A) : M A :=
  fun g =>
    match m g with
    | (Ok a, g') => (Ok a, g')
    | (Throw e, g') => handler e g'
    end.

Notation "x <~ m ;; k" := (mbind m (fun x => k))
  (at level 61, m at next level, right associativity).

Definition setNegotiating (v : option nat) : M unit :=
  fun g => (Ok tt, mkGrid (offers g) v (notifications g) (requests g)).

Definition onOffersUpdate (l : list BankOffer) : M unit :=
  fun g => (Ok tt, mkGrid l (negotiating g) (notifications g) (requests g)).

Definition onNotification (message type : str) : M unit :=
  fun g =>
    (Ok tt,
     mkGrid (offers g) (negotiating g) (notifications g ++ [(message, type)])
       (requests g)).

Definition send (r : NegotiationRequest) : M unit :=
  fun g =>
    (Ok tt,
     mkGrid (offers g) (negotiating g) (notifications g) (requests g ++ [r])).

Definition get_offers : M (list BankOffer) := fun g => (Ok (offers g), g).

(** [l[index].offer = o]: a [TypeError] when [l[index]] is [undefined]. *)
Fixpoint assign_offer (index : nat) (o : option Offer) (l : list BankOffer)
  : result (list BankOffer) :=
  match l, index with
  | [], _ => Throw (lit "TypeError")
  | od :: l', 0 => Ok (mkBankOffer (bank_id od) (bank_name od) o :: l')
  | od :: l', S i => r <- assign_offer i o l' ;; Ok (od :: r)
  end.

(** [s * p] reads back as the number [x]. *)
Definition reads_back (x s p : Z) : bool :=
  match Binary64.nearest (s * p) 1 with
  | Some q => Qeq_bool q (inject_Z x)
  | None => false
  end.

(** The digits [s] and the exponent of [String(x)] for a binary64 integer
    [x] of [n] digits: the shortest run of digits that reads back as [x],
    and of the runs of that length the one nearest to [x].  The runs of
    [k] digits next to [x] are tried for [k = 1, 2, ...]; seventeen digits
    tell any two binary64 numbers apart. *)
Fixpoint shortest (fuel : nat) (k : Z) (x n : Z) : Z * Z :=
  match fuel with
  | 0 => (x, n)
  | S fuel' =>
      let p := (10 ^ (n - k))%Z in
      let lo := (x / p)%Z in
      let hi := (lo + 1)%Z in
      let up :=
        if (hi =? 10 ^ k)%Z then (10 ^ (k - 1), n + 1)%Z else (hi, n) in
      match reads_back x lo p, reads_back x hi p with
      | true, true =>
          match (x - lo * p ?= hi * p - x)%Z with
          | Lt => (lo, n)
          | Gt => up
          | Eq => if Z.even lo then (lo, n) else up
          end
      | true, false => (lo, n)
      | false, true => up
      | false, false => shortest fuel' (k + 1)%Z x n
      end
  end.

(** [String(x)] for a binary64 integer [x >= 10^21]: the digits, a point
    behind the first when there are more, and the exponent. *)
Definition exponential (x : Z) : str :=
  let (s, n) := shortest 17 1 x (Z.of_nat (length (show_Z x))) in
  match show_Z s with
  | [d] => [d]
  | d :: ds => d :: "."%char :: ds
  | [] => []
  end ++ lit "e+" ++ show_Z (n - 1).

(** [x.toFixed(2)] for a finite [x]: the sign, then for a number below
    [10^21] the nearest multiple of 1/100, the larger one on a tie, and
    [String] of the number from [10^21] on. *)
Definition toFixed2 (x : Q) : str :=
  let a := Qabs x in
  (if Qle_bool 0 x then [] else lit "-")
  ++ (if Qle_bool (inject_Z (10 ^ 21)) a
      then exponential (Qnum a / Zpos (Qden a))
      else
        let n := ((200 * Qnum a + Zpos (Qden a)) / (2 * Zpos (Qden a)))%Z in
        show_Z (n / 100)%Z ++ lit "."
        ++ show_Z ((n mod 100) / 10)%Z ++ show_Z (n mod 10)%Z).

(** [(r * 100).toFixed(2)] where [r] can be [undefined]; the product is a
    binary64, [Infinity] beyond the range. *)
Definition percent (r : option Q) : str :=
  match r with
  | Some q =>
      match Binary64.round (q * 100) with
      | Some x => toFixed2 x
      | None => if Qle_bool 0 q then lit "Infinity" else lit "-Infinity"
      end
  | None => lit "NaN"
  end.

(** A string or [undefined] inside a template literal. *)
Definition show_opt (s : option str) : str :=
  match s with
  | Some s => s
  | None => lit "undefined"
  end.

Definition negotiation_error : str := lit "Error during negotiation".
Definition request_failed : str := lit "Negotiation request failed".
Definition rejected (r : option str) : str :=
  lit "Negotiation failed: " ++ show_opt r.
Definition successful (r : option Q) : str :=
  lit "Negotiation successful! New interest rate: " ++ percent r ++ lit "%".

(** Line 11, [currentRate - 0.005]: the literal is the binary64 nearest to
    5/1000 and the difference is rounded to binary64. *)
Definition targetRate (currentRate : Q) : Q :=
  Binary64.to64 (currentRate - Binary64.to64 (5 # 1000)).

Arguments targetRate : simpl never.

(** Line 11 on the floats of the machine. *)
Definition targetRate64 (currentRate : float) : float :=
  PrimFloat.sub currentRate 0.005%float.

(** [handleNegotiate] up to its [await fetch(..)] (lines 8-23).  It gives
    the request sent; when reading the rate throws, the [catch] and line 42
    run at once and nothing is sent. *)
Definition begin (offerData : BankOffer) (index : nat)
  : M (option NegotiationRequest) :=
  _ <~ setNegotiating (Some index) ;;
  catch
    (o <~ lift (offer_of offerData) ;;
     let currentRate := interest_rate o in
     let request := mkRequest (bank_id offerData) o (targetRate currentRate) in
     _ <~ send request ;;
     ret (Some request))
    (fun _ =>
       _ <~ onNotification negotiation_error (lit "error") ;;
       _ <~ setNegotiating None ;;
       ret None).

(** [handleNegotiate] from the reply on (lines 25-42).  [[...offers]] of
    line 28 copies the array the call captured at the click and shares its
    entries.  Every list [onOffersUpdate] passes on is such a copy, so as
    long as the parent sets no list of its own in between, the current list
    has the entries of the captured one, and the assignment of line 29
    updates the entry of the current list.  The events of [step] below are
    clicks and replies only: this is the grid between two loan requests. *)
Definition resume (index : nat) (r : reply) : M unit :=
  _ <~ catch
         (match r with
          | FetchRejected => raise (lit "Failed to fetch")
          | Response ok body =>
              if ok then
                result <~ match body with
                          | NotJson => raise (lit "SyntaxError")
                          | JsonNull => raise (lit "TypeError")
                          | Json result => ret result
                          end ;;
                if agreed result then
                  current <~ get_offers ;;
                  updatedOffers <~
                    lift (assign_offer index (updated_offer result) current) ;;
                  _ <~ onOffersUpdate updatedOffers ;;
                  onNotification (successful (new_rate result)) (lit "success")
                else
                  onNotification (rejected (reason result)) (lit "error")
              else onNotification request_failed (lit "error")
          end)
         (fun _ => onNotification negotiation_error (lit "error")) ;;
  setNegotiating None.

(** [handleNegotiate] (lines 7-43), on the reply the endpoint gives. *)
Definition handleNegotiate (offerData : BankOffer) (index : nat) (r : reply)
  : M unit :=
  sent <~ begin offerData index ;;
  match sent with
  | Some _ => resume index r
  | None => ret tt
  end.

(** The state a call leaves. *)
Definition after (m : M unit) (g : grid) : grid := snd (m g).

(** *** The grid between calls *)

(** Line 60, with [offer = offerData.offer || {}]. *)
Definition isRejected (offerData : BankOffer) : bool :=
  match offer offerData with
  | Some o => Qeq_bool (amount_approved o) 0
  | None => false
  end.

Definition same_index (v : option nat) (index : nat) : bool :=
  match v with
  | Some i => i =? index
  | None => false
  end.

(** The button of lines 86-92 exists for an entry that is not rejected and
    is [disabled] when [negotiating === index]. *)
Definition can_negotiate (g : grid) (index : nat) : bool :=
  match nth_error (offers g) index with
  | Some offerData =>
      negb (isRejected offerData) && negb (same_index (negotiating g) index)
  | None => false
  end.

(** The grid and the calls of [handleNegotiate] that wait for their reply,
    each with its index. *)
Record world : Type := mkWorld { ui : grid; in_flight : list nat }.

Inductive action : Type :=
| Click : nat -> action              (* the button of an index *)
| Settle : nat -> reply -> action.   (* a waiting call gets its reply *)

Fixpoint remove_nth {A : Type} (k : nat) (l : list A) : list A :=
  match l, k with
  | [], _ => []
  | _ :: l', 0 => l'
  | x :: l', S k' => x :: remove_nth k' l'
  end.

Definition step (w : world) (a : action) : option world :=
  match a with
  | Click index =>
      match nth_error (offers (ui w)) index with
      | Some offerData =>
          if can_negotiate (ui w) index then
            match begin offerData index (ui w) with
            | (Ok (Some _), g) => Some (mkWorld g (in_flight w ++ [index]))
            | (_, g) => Some (mkWorld g (in_flight w))
            end
          else None
      | None => None
      end
  | Settle k r =>
      match nth_error (in_flight w) k with
      | Some index =>
          Some (mkWorld (after (resume index r) (ui w))
                  (remove_nth k (in_flight w)))
      | None => None
      end
  end.

Fixpoint steps (w : world) (l : list action) : option world :=
  match l with
  | [] => Some w
  | a :: l' =>
      match step w a with
      | Some w' => steps w' l'
      | None => None
      end
  end.

End OffersGrid.

(** ** State and exceptions

    The handlers of [App.js] and [PreviousOffers.js] set state, call the
    back end and catch what is thrown: a computation takes the state and
    gives a result or an exception, and the state it leaves.  What was done
    before a [throw] stays done. *)

Module Effects.

Section WithState.

Variable S : Type.

Definition M (A : Type) : Type := S -> result A * S.

Definition ret {A : Type} (a : A) : M A := fun s => (Ok a, s).

Definition raise {A : Type} (e : str) : M A := fun s => (Throw e, s).

Definition modify (f : S -> S) : M unit := fun s => (Ok tt, f s).

Definition mbind {A B : Type} (m : M A) (f : A -> M B) : M B :=
  fun s =>
    match m s with
    | (Ok a, s') => f a s'
    | (Throw e, s') => (Throw e, s')
    end.

(** [try { m } catch (e) { handler e }]. *)
Definition catch {A : Type} (m : M A) (handler : str -> M A) : M A :=
  fun s =>
    match m s with
    | (Ok a, s') => (Ok a, s')
    | (Throw e, s') => handler e s'
    end.

(** The state a call leaves, and whether its promise is fulfilled. *)
Definition after {A : Type} (m : M A) (s : S) : S := snd (m s).

Definition fulfilled {A : Type} (m : M A) (s : S) : bool :=
  match fst (m s) with
  | Ok _ => true
  | Throw _ => false
  end.

End WithState.

Arguments ret {S A} _ _.
Arguments raise {S A} _ _.

Notation "x <<~ m ;; k" := (mbind m (fun x => k))
  (at level 61, m at next level, right associativity).

End Effects.

(** ** The back end *)

Module Api.
Import Chatbot.

(** The body of a response as [response.json()] reads it: not JSON (the
    call throws), the JSON [null], or an object of the shape the endpoint
    gives. *)
Inductive body (A : Type) : Type :=
| NotJson : body A
| JsonNull : body A
| Json : A -> body A.

Arguments NotJson {A}.
Arguments JsonNull {A}.

(** What [await fetch(..)] gives: the request fails, or a response arrives
    with its [ok] flag and its body. *)
Inductive reply (A : Type) : Type :=
| FetchRejected : reply A
| Response : bool -> body A -> reply A.

Arguments FetchRejected {A}.

(** The answer of [POST /process_loan]: the bank selected, or the [detail]
    of an error.  A field that is absent is [None]. *)
Record ProcessResult : Type := mkProcessResult {
  selected_bank : option str;
  detail : option str
}.

(** An entry of [loan_requests] in the answer of [GET /offers]. *)
Record LoanRequestEntry : Type := mkEntry {
  timestamp : str;
  request : LoanData;
  offers : option (list BankOffer)
}.

Record OffersData : Type := mkOffersData {
  loan_requests : option (list LoanRequestEntry)
}.

(** [a || b] on a string that can be absent. *)
Definition or_text (a : option str) (b : str) : str :=
  match a with
  | Some (x :: s) => x :: s
  | _ => b
  end.

(** [a || []] on an array that can be absent. *)
Definition or_empty {A : Type} (a : option (list A)) : list A :=
  match a with
  | Some l => l
  | None => []
  end.

End Api.

(** ** App.js: the handlers *)

Module AppState.
Import Chatbot Api Effects.

(** The state of [App] that the handlers set (lines 8-11), the [alert]
    boxes shown so far and the number of [fetchOffers] calls started. *)
Record app_state : Type := mkApp {
  offers : list BankOffer;
  selectedOffer : option ProcessResult;
  currentRequest : option LoanData;
  alerts : list str;
  fetches : nat
}.

Definition setOffers (v : list BankOffer) : M app_state unit :=
  modify (fun a =>
            mkApp v (selectedOffer a) (currentRequest a) (alerts a)
              (fetches a)).

Definition setSelectedOffer (v : option ProcessResult) : M app_state unit :=
  modify (fun a =>
            mkApp (offers a) v (currentRequest a) (alerts a) (fetches a)).

Definition setCurrentRequest (v : option LoanData) : M app_state unit :=
  modify (fun a =>
            mkApp (offers a) (selectedOffer a) v (alerts a) (fetches a)).

Definition alert (text : str) : M app_state unit :=
  modify (fun a =>
            mkApp (offers a) (selectedOffer a) (currentRequest a)
              (alerts a ++ [text]) (fetches a)).

(** [fetchOffers()] without [await]: the call is started and not waited
    for. *)
Definition start_fetchOffers : M app_state unit :=
  modify (fun a =>
            mkApp (offers a) (selectedOffer a) (currentRequest a) (alerts a)
              (S (fetches a))).

Definition failed_to_process : str := lit "Failed to process loan request".

(** [handleLoanRequest] (lines 14-38), on the reply of [/process_loan].
    The message of an error the runtime raises is written as the name of
    the error. *)
Definition handleLoanRequest (loanData : LoanData) (r : reply ProcessResult)
  : M app_state unit :=
  catch
    (_ <<~ setCurrentRequest (Some loanData) ;;
     match r with
     | FetchRejected => raise (lit "Failed to fetch")
     | Response ok b =>
         result <<~ match b with
                    | NotJson => raise (lit "SyntaxError")
                    | JsonNull => ret None
                    | Json x => ret (Some x)
                    end ;;
         _ <<~ (if negb ok
                then match result with
                     | None => raise (lit "TypeError")
                     | Some x => raise (or_text (detail x) failed_to_process)
                     end
                else ret tt) ;;
         _ <<~ setSelectedOffer result ;;
         start_fetchOffers
     end)
    (fun e => alert (lit "Error: " ++ e)).

(** [fetchOffers] (lines 40-53), on the reply of [/offers]. *)
Definition fetchOffers (r : reply OffersData) : M app_state unit :=
  catch
    (match r with
     | FetchRejected => raise (lit "Failed to fetch")
     | Response ok b =>
         if ok then
           data <<~ match b with
                    | NotJson => raise (lit "SyntaxError")
                    | JsonNull => raise (lit "TypeError")
                    | Json d => ret d
                    end ;;
           match loan_requests data with
           | Some l =>
               if 0 <? length l then
                 match nth_error l (length l - 1) with
                 | Some latestRequest =>
                     setOffers (or_empty (Api.offers latestRequest))
                 | None => raise (lit "TypeError")
                 end
               else ret tt
           | None => ret tt
           end
         else ret tt
     end)
    (fun _ => ret tt).

(** *** The notification banner *)

(** The [notification] state (line 12) and, for each callback passed to
    [setTimeout] that has not run yet, the milliseconds left. *)
Record banner : Type := mkBanner {
  notification : option (str * str);
  timers : list nat
}.

(** [showNotification] (lines 59-62). *)
Definition showNotification (message type : str) (b : banner) : banner :=
  mkBanner (Some (message, type)) (timers b ++ [5000]).

(** [hideNotification] (lines 64-66). *)
Definition hideNotification (b : banner) : banner :=
  mkBanner None (timers b).

(** [d] milliseconds pass: every callback that is due runs
    [setNotification(null)] and is gone, the others are [d] closer. *)
Definition elapse (d : nat) (b : banner) : banner :=
  mkBanner
    (if existsb (fun t => t <=? d) (timers b) then None else notification b)
    (map (fun t => t - d) (filter (fun t => negb (t <=? d)) (timers b))).

End AppState.

(** ** PreviousOffers.js *)

Module PreviousOffers.
Import Chatbot Api Effects.

(** The state of the component (lines 5-6). *)
Record panel : Type := mkPanel {
  allOffers : list LoanRequestEntry;
  loading : bool
}.

(** The state at mount. *)
Definition initial : panel := mkPanel [] true.

Definition setAllOffers (v : list LoanRequestEntry) : M panel unit :=
  modify (fun p => mkPanel v (loading p)).

Definition setLoading (v : bool) : M panel unit :=
  modify (fun p => mkPanel (allOffers p) v).

(** [fetchOffers] (lines 12-23), on the reply of [/offers]. *)
Definition fetchOffers (r : reply OffersData) : M panel unit :=
  _ <<~ catch
          (match r with
           | FetchRejected => raise (lit "Failed to fetch")
           | Response ok b =>
               if ok then
                 data <<~ match b with
                          | NotJson => raise (lit "SyntaxError")
                          | JsonNull => raise (lit "TypeError")
                          | Json d => ret d
                          end ;;
                 setAllOffers (or_empty (loan_requests data))
               else ret tt
           end)
          (fun _ => ret tt) ;;
  setLoading false.

(** [array.map((x, i) => f x i)] with a callback that can throw, from
    index [i] on: the first exception ends the loop. *)
Fixpoint map_indexM {A B : Type} (f : A -> nat -> result B) (i : nat)
         (l : list A) : result (list B) :=
  match l with
  | [] => Ok []
  | x :: l' =>
      y <- f x i ;;
      r <- map_indexM f (S i) l' ;;
      Ok (y :: r)
  end.

Definition has_key (k : string) (fields : list (str * value)) : bool :=
  existsb (fun kv => str_eqb (lit k) (fst kv)) fields.

Definition is_nullish (v : value) : bool :=
  match v with VUndefined | VNull => true | _ => false end.

(** [v.toLocaleString()] returns, for a value read from JSON.  [null] and
    [undefined] have no method.  No property of an object read from JSON
    is a function: an own [toLocaleString] cannot be called, and neither
    can an own [toString], which the inherited [toLocaleString] calls.  An
    array converts its elements, leaving out the [null] ones. *)
Fixpoint localizable (v : value) : bool :=
  match v with
  | VUndefined | VNull => false
  | VArr l => forallb (fun x => is_nullish x || localizable x) l
  | VObj fields =>
      negb (has_key "toLocaleString" fields) && negb (has_key "toString" fields)
  | _ => true
  end.

(** React takes [v] as a child: text for a string or a number, nothing
    for a boolean, [null] or [undefined], the elements of an array one by
    one; an object is refused with an exception. *)
Fixpoint renderable (v : value) : bool :=
  match v with
  | VObj _ => false
  | VArr l => forallb renderable l
  | _ => true
  end.

(** What the component shows (lines 25-94): the loading line, the "no
    previous offers" line, or one card per request with the number of
    line 45. *)
Inductive view : Type :=
| Loading : view
| NoOffers : view
| Timeline : list (nat * LoanRequestEntry) -> view.

(** The card of a request (lines 43-90) in a list of [n]: line 52 calls
    [toLocaleString] on the amount and line 58 reads the [length] of
    [offers], a [TypeError] when there is none. *)
Definition card (n : nat) (request : LoanRequestEntry) (requestIndex : nat)
  : result (nat * LoanRequestEntry) :=
  _ <- (if localizable (amount (Api.request request)) then Ok tt
        else Throw (lit "TypeError")) ;;
  _ <- match Api.offers request with
       | Some _ => Ok tt
       | None => Throw (lit "TypeError")
       end ;;
  Ok (n - requestIndex, request).

(** The children of lines 53 and 54. *)
Definition children_accepted (request : LoanRequestEntry) : bool :=
  renderable (duration (Api.request request))
  && renderable (purpose (Api.request request)).

(** Lines 25-94.  An exception of a card, or of React on the cards built,
    leaves nothing of the component on the page. *)
Definition render (p : panel) : result view :=
  if loading p then Ok Loading
  else if length (allOffers p) =? 0 then Ok NoOffers
  else
    cards <- map_indexM (card (length (allOffers p))) 0 (allOffers p) ;;
    if forallb children_accepted (allOffers p) then Ok (Timeline cards)
    else Throw (lit "Objects are not valid as a React child").

End PreviousOffers.

(** * Vocabulary of the statements *)

(** The values [ToBoolean] sends to [false]. *)
Inductive falsy : value -> Prop :=
| falsy_undefined : falsy VUndefined
| falsy_null : falsy VNull
| falsy_false : falsy (VBool false)
| falsy_zero : forall q, (q == 0)%Q -> falsy (VNum q)
| falsy_nan : falsy VNaN
| falsy_empty : falsy (VStr []).

(** ** Interpretation *)

Module InterpreterSpec.
Import Chatbot.

(** [null] in none of the three required fields. *)
Definition is_null (v : value) : bool :=
  match v with VNull => true | _ => false end.

Definition required_present (d : LoanData) : bool :=
  negb (is_null (amount d)) && negb (is_null (duration d))
  && negb (is_null (purpose d)).

Section Answer.

Variable JSON_parse : str -> option value.

(** The JSON value the answer of the model holds: the body is an object
    whose [message.content] is a string that [JSON.parse] accepts. *)
Definition answer (data : value) : option value :=
  match get data "message" with
  | Ok message =>
      match get_opt message "content" with
      | Ok content =>
          match js_or content (VStr []) with
          | VStr s => JSON_parse (trim s)
          | _ => None
          end
      | Throw _ => None
      end
  | Throw _ => None
  end.

(** The ways the language-model path fails to give an answer. *)
Inductive failed : llm_reply -> Prop :=
| failed_transport : failed FetchRejected
| failed_status : forall status body, failed (Response false status body)
| failed_body : forall status, failed (Response true status None)
| failed_content :
    forall status data,
      answer data = None -> failed (Response true status (Some data))
| failed_null :
    forall status data,
      answer data = Some VNull -> failed (Response true status (Some data)).

End Answer.

(** A [JSON.parse] known at one input: it reads the text of the empty
    object and rejects everything else. *)
Definition parse_empty_object (s : str) : option value :=
  if str_eqb s (lit "{}") then Some (VObj []) else None.

(** A body whose [message.content] is the given text. *)
Definition chat_body (text : string) : value :=
  VObj [(lit "message", VObj [(lit "content", VStr (lit text))])].

End InterpreterSpec.

(** ** Negotiation *)

Module NegotiationSpec.
Import OffersGrid.

(** The interest rate stored at a position, when the entry has an offer. *)
Definition rate_at (g : grid) (index : nat) : option Q :=
  match nth_error (offers g) index with
  | Some offerData => option_map interest_rate (offer offerData)
  | None => None
  end.

(** The replies that are not an agreement, each with the message it is
    reported by: the lender declines, the status is not a success, the
    request itself fails. *)
Inductive refusal : reply -> str -> Prop :=
| refusal_declined :
    forall result,
      agreed result = false ->
      refusal (Response true (Json result)) (rejected (reason result))
| refusal_status :
    forall body, refusal (Response false body) request_failed
| refusal_transport : refusal FetchRejected negotiation_error.

(** Number of waiting calls on an index. *)
Definition waiting_on (w : world) (index : nat) : nat :=
  count_occ Nat.eq_dec (in_flight w) index.

Definition plain_offer (rate : Q) : Offer :=
  mkOffer 100000 rate rate 36 (lit "ok").

(** Two approved offers, nothing under negotiation. *)
Definition two_offers : world :=
  mkWorld
    (mkGrid [mkBankOffer (lit "A") (lit "Bank A") (Some (plain_offer (7 # 100)));
             mkBankOffer (lit "B") (lit "Bank B") (Some (plain_offer (8 # 100)))]
       None [] [])
    [].

End NegotiationSpec.

(** ** Ranking *)

Module RankingSpec.
Import App.

Definition has_offer (offerData : BankOffer) : Prop :=
  exists o, offer offerData = Some o.

(** The order of the list shown: a greater approved amount first, and on
    equal amounts a lower or equal interest rate first. *)
Definition precedes (a b : BankOffer) : Prop :=
  match offer a, offer b with
  | Some oa, Some ob =>
      (amount_approved ob < amount_approved oa)%Q
      \/ ((amount_approved oa == amount_approved ob)%Q
          /\ (interest_rate oa <= interest_rate ob)%Q)
  | _, _ => False
  end.

Definition bank (id : string) (amount rate : Q) : BankOffer :=
  mkBankOffer (lit id) (lit id) (Some (mkOffer amount rate rate 36 [])).

End RankingSpec.

(** ** Extraction *)

Module PurposeSpec.
Import Chatbot.

(** The text without the first match of each entry of [removePhrases],
    taken in the order of the array: the four lead-in phrases, then the
    amount, the duration and the income. *)
Definition cut (text : str) : str :=
  fold_left (fun s phrase => remove_first phrase s) removePhrases text.

(** ... trimmed, without a leading "to " and then a leading "for ". *)
Definition stripped (text : str) : str :=
  remove_first leadingFor (remove_first leadingTo (trim (cut text))).

(** The first capture of the first match of a pattern. *)
Definition first_capture (p : pattern) (text : str) : option str :=
  match exec p text with
  | Some m => capture 1 (groups m)
  | None => None
  end.

(** The text a secondary pattern finds: the trimmed capture of the first
    pattern that captures something. *)
Fixpoint secondary (ps : list pattern) (text : str) : option str :=
  match ps with
  | [] => None
  | p :: ps' =>
      match first_capture p text with
      | Some (a :: c) => Some (trim (a :: c))
      | _ => secondary ps' text
      end
  end.

(** The purpose, as the amended claim words it. *)
Definition purpose_of (text : str) : str :=
  match stripped text with
  | [] =>
      match secondary purposePatterns text with
      | Some c => c
      | None => []
      end
  | s => s
  end.

(** [s.replace(p, '')] for a pattern with the [g] flag: every match is cut
    out, left to right. *)
Fixpoint remove_all_from (fuel : nat) (p : pattern) (whole : nat) (s : str)
  : str :=
  match fuel with
  | 0 => s
  | S fuel' =>
      let skip :=
        match s with
        | [] => []
        | a :: s' => a :: remove_all_from fuel' p whole s'
        end in
      match run (ignoreCase p) whole (source p) s [] (fun s1 _ => Some s1) with
      | Some s1 =>
          if length s1 <? length s then remove_all_from fuel' p whole s1
          else skip
      | None => skip
      end
  end.

Definition remove_all (p : pattern) (text : str) : str :=
  remove_all_from (S (length text)) p (length text) text.

(** The purpose, as the claim words it: every match of every pattern
    removed, and [null] when nothing is found. *)
Definition purpose_as_claimed (text : str) : value :=
  let s := remove_first leadingFor
             (remove_first leadingTo
                (trim (fold_left (fun s phrase => remove_all phrase s)
                         removePhrases text))) in
  match s with
  | [] =>
      match secondary purposePatterns text with
      | Some c => VStr c
      | None => VNull
      end
  | _ => VStr s
  end.

(** The capturing parentheses of a pattern. *)
Fixpoint group_ids (r : regex) : list nat :=
  match r with
  | Eps | Chr _ | Class _ | Bol => []
  | Seq r1 r2 | Alt r1 r2 => group_ids r1 ++ group_ids r2
  | Star r1 => group_ids r1
  | Group i r1 => i :: group_ids r1
  end.

End PurposeSpec.

(** ** The language of a pattern *)

Module Language.

(** The texts a pattern matches, read off its syntax ([^] matches the empty
    text; where it may stand is the matcher's business). *)
Inductive matches (icase : bool) : regex -> str -> Prop :=
| matches_eps : matches icase Eps []
| matches_chr :
    forall a x, same_char icase a x = true -> matches icase (Chr a) [x]
| matches_class :
    forall (p : ascii -> bool) x, p x = true -> matches icase (Class p) [x]
| matches_bol : matches icase Bol []
| matches_seq :
    forall r1 r2 u v,
      matches icase r1 u -> matches icase r2 v ->
      matches icase (Seq r1 r2) (u ++ v)
| matches_alt_l :
    forall r1 r2 u, matches icase r1 u -> matches icase (Alt r1 r2) u
| matches_alt_r :
    forall r1 r2 u, matches icase r2 u -> matches icase (Alt r1 r2) u
| matches_star_nil : forall r, matches icase (Star r) []
| matches_star_cons :
    forall r u v,
      matches icase r u -> matches icase (Star r) v ->
      matches icase (Star r) (u ++ v)
| matches_group :
    forall i r u, matches icase r u -> matches icase (Group i r) u.

End Language.

(** ** The round trip *)

Module RoundTrip.
Import Chatbot.

(** One attempt of a pattern at the head of a text: what is left and what
    was captured. *)
Definition attempt (p : pattern) (whole : nat) (s : str)
  : option (str * captures) :=
  run (ignoreCase p) whole (source p) s [] (fun s1 c1 => Some (s1, c1)).

(** The class [p] ends where [rest] begins. *)
Definition stops (p : ascii -> bool) (rest : str) : Prop :=
  match rest with
  | [] => True
  | a :: _ => p a = false
  end.

(** [s] begins with the word [w]. *)
Fixpoint starts (icase : bool) (w s : str) : bool :=
  match w, s with
  | [], _ => true
  | a :: w', x :: s' => same_char icase a x && starts icase w' s'
  | _ :: _, [] => false
  end.

(** Decimal numerals and the numbers they denote. *)
Definition digits (ds : str) : Prop := Forall (fun a => is_digit a = true) ds.

Definition numeral (ds : str) : Prop := ds <> [] /\ digits ds.

Definition number (ds : str) : Q := inject_Z (digits_val 0 ds).

(** The i-th entry of [removePhrases]. *)
Definition phrase (i : nat) : pattern := nth i removePhrases amountPattern.

(** What follows the purpose in the round-trip text. *)
Definition purpose_tail : str := lit " with expected income of $".

(** The words a pattern of the extractor can start with inside a purpose. *)
Definition reserved : list str :=
  [lit "i want to borrow"; lit "loan for"; lit "borrow"; lit "income";
   lit "revenue"; lit "earning"; lit "profit"; lit "expected"].

(** None of the words [ws] starts inside the purpose [P]. *)
Fixpoint clear_of (ws : list str) (P : str) : bool :=
  match P with
  | [] => true
  | _ :: t =>
      forallb (fun w => negb (starts true w (P ++ purpose_tail))) ws
      && clear_of ws t
  end.

Definition plain_char (a : ascii) : bool :=
  negb (is_digit a || Ascii.eqb a "$").

(** A purpose the patterns leave alone: no digit, no dollar sign, none of
    the reserved words. *)
Definition plain (P : str) : Prop :=
  Forall (fun a => plain_char a = true) P /\ clear_of reserved P = true.

Definition no_digit_start (p : pattern) : Prop :=
  forall whole d r, is_digit d = true -> attempt p whole (d :: r) = None.

Definition no_plain_start (p : pattern) : Prop :=
  forall whole a r, plain_char a = true -> attempt p whole (a :: r) = None.

(** "I need a loan for $X for Y months to {purpose} with expected income
    of $Z", on the numerals of X, Y and Z. *)
Definition round_trip_text (dx dy P dz : str) : str :=
  lit "I need a loan for $" ++ dx ++ lit " for " ++ dy ++ lit " months to "
  ++ P ++ purpose_tail ++ dz.

(** The same text on the numbers. *)
Definition round_trip_request (X Y Z : Z) (P : str) : str :=
  round_trip_text (show_Z X) (show_Z Y) P (show_Z Z).

(** The text after each cut of [removePhrases]. *)
Definition text1 (dx dy P dz : str) : str :=
  lit " $" ++ dx ++ lit " for " ++ dy ++ lit " months to "
  ++ P ++ purpose_tail ++ dz.

Definition text2 (dy P dz : str) : str :=
  lit "  for " ++ dy ++ lit " months to " ++ P ++ purpose_tail ++ dz.

Definition text3 (P dz : str) : str :=
  lit "  for s to " ++ P ++ purpose_tail ++ dz.

Definition text4 (P : str) : str :=
  lit "  for s to " ++ P ++ lit " with expected ".

End RoundTrip.

(** ** The handlers of App and PreviousOffers *)

Module HandlerSpec.
Import Chatbot Api AppState.

(** The replies of [/process_loan] that are no answer: the request fails,
    the body is not JSON (whatever the status), or the status is not a
    success. *)
Inductive refused : reply ProcessResult -> Prop :=
| refused_transport : refused FetchRejected
| refused_body : forall ok, refused (Response ok NotJson)
| refused_status : forall b, refused (Response false b).

(** The last entry of [loan_requests] in a reply of [/offers] that is a
    success with a JSON object. *)
Definition latest_entry (r : reply OffersData) : option LoanRequestEntry :=
  match r with
  | Response true (Json data) => hd_error (rev (or_empty (loan_requests data)))
  | _ => None
  end.

(** The list a reply of [/offers] carries, when it is a success with a JSON
    object. *)
Definition listed (r : reply OffersData) : option (list LoanRequestEntry) :=
  match r with
  | Response true (Json data) => Some (or_empty (loan_requests data))
  | _ => None
  end.

(** The numbers and the entries of the cards of a view. *)
Definition cards (v : PreviousOffers.view) : list (nat * LoanRequestEntry) :=
  match v with
  | PreviousOffers.Timeline l => l
  | _ => []
  end.

(** An entry the panel can show: its amount can be written in the locale,
    its duration and its purpose are no objects, and it has a list of
    offers. *)
Definition displayable (request : LoanRequestEntry) : Prop :=
  PreviousOffers.localizable (amount (Api.request request)) = true
  /\ PreviousOffers.renderable (duration (Api.request request)) = true
  /\ PreviousOffers.renderable (purpose (Api.request request)) = true
  /\ Api.offers request <> None.

End HandlerSpec.

(** ** The best offers *)

Module BestOffersSpec.

(** An entry the filter of line 112 keeps. *)
Definition is_approved (offerData : BankOffer) : bool :=
  match offer offerData with
  | Some o => negb (Qle_bool (amount_approved o) 0)
  | None => false
  end.

End BestOffersSpec.

(** ** What the extractor reads *)

Module ExtractorSpec.
Import Chatbot RoundTrip.

(** A pattern without [^]. *)
Fixpoint unanchored (r : regex) : bool :=
  match r with
  | Bol => false
  | Eps | Chr _ | Class _ => true
  | Seq r1 r2 | Alt r1 r2 => unanchored r1 && unanchored r2
  | Star r1 | Group _ r1 => unanchored r1
  end.

Definition no_digit (s : str) : Prop :=
  Forall (fun a => is_digit a = false) s.

(** What can follow a numeral without being read as part of the amount:
    the end of the text, or a character that is no digit, no comma and no
    full stop. *)
Definition ends_number (rest : str) : Prop :=
  match rest with
  | [] => True
  | a :: _ => is_digit a = false /\ a <> ","%char /\ a <> "."%char
  end.

(** A group of thousands, and a comma before each group of a list. *)
Definition thousand (g : str) : Prop := length g = 3 /\ digits g.

Fixpoint with_commas (gs : list str) : str :=
  match gs with
  | [] => []
  | g :: gs' => ","%char :: g ++ with_commas gs'
  end.

Definition blank (sp : str) : Prop := Forall (fun a => is_space a = true) sp.

(** The text goes on with "month" or "year", in any case. *)
Definition unit_word (tail : str) : Prop :=
  starts true (lit "month") tail = true \/ starts true (lit "year") tail = true.

(** No "month" and no "year", in any case, starts inside the text. *)
Fixpoint unitless (s : str) : bool :=
  match s with
  | [] => true
  | _ :: t =>
      negb (starts true (lit "month") s) && negb (starts true (lit "year") s)
      && unitless t
  end.

End ExtractorSpec.

(** ** The grid and its waiting calls *)

Module GridSpec.
Import OffersGrid.

(** What holds of the grid between two events: the index the flag holds
    has a call that waits, and every call that waits has its entry in the
    list. *)
Definition well_formed (w : world) : Prop :=
  (forall index, negotiating (ui w) = Some index -> In index (in_flight w))
  /\ Forall (fun index => index < length (offers (ui w))) (in_flight w).

(** The grid with no call under way: as it is mounted on the list the
    parent passes. *)
Definition idle (w : world) : Prop :=
  negotiating (ui w) = None /\ in_flight w = [].

End GridSpec.

(** * Properties *)

Unset Implicit Arguments.

(** ** Values *)

Lemma str_eqb_eq (s t : str) : str_eqb s t = true <-> s = t.
Proof.
  revert t; induction s as [|a s IH]; intros [|b t]; simpl;
    try (split; [discriminate | congruence]); try tauto.
  rewrite andb_true_iff, Ascii.eqb_eq, IH.
  split; [intros [-> ->]; reflexivity | intros H; inversion H; auto].
Qed.

Lemma str_eqb_refl (s : str) : str_eqb s s = true.
Proof. apply str_eqb_eq; reflexivity. Qed.

Lemma truthy_str (s : str) : truthy (VStr s) = true <-> s <> [].
Proof.
  destruct s; simpl; split; intros H; congruence.
Qed.

Lemma truthy_false_iff (v : value) : truthy v = false <-> falsy v.
Proof.
  split.
  - destruct v as [| |b|q| | | |s|l|l]; simpl; intros H; try constructor;
      try discriminate.
    + subst b; constructor.
    + apply Qeq_bool_iff. now destruct (Qeq_bool q 0).
    + destruct s; [constructor | discriminate].
  - intros H; destruct H; simpl; try reflexivity.
    apply Qeq_bool_iff in H. now rewrite H.
Qed.

(** ** The interpreters *)

(** ** Binary64 *)

Section Binary64Facts.
Import Binary64.

Lemma Qred_integer (n : Z) (k : positive) :
  Qred (n * Zpos k # k) = inject_Z n.
Proof.
  assert (Hred : Qred (inject_Z n) = inject_Z n).
  { unfold Qred, inject_Z.
    pose proof (Z.ggcd_gcd n 1) as Hg.
    pose proof (Z.ggcd_correct_divisors n 1) as Hd.
    destruct (Z.ggcd n 1) as [g [r1 r2]]. simpl in *.
    rewrite Z.gcd_1_r in Hg. subst g. destruct Hd as [H1 H2].
    replace r1 with n by lia. replace r2 with 1%Z by lia. reflexivity. }
  rewrite <- Hred. apply Qred_complete. unfold Qeq, inject_Z. simpl. lia.
Qed.

Lemma round_even_nonneg (n d : Z) :
  (0 <= n)%Z -> (0 < d)%Z -> (0 <= round_even n d)%Z.
Proof.
  intros Hn Hd. unfold round_even.
  assert (0 <= n / d)%Z by (apply Z.div_pos; lia).
  destruct (2 * (n mod d) ?= d)%Z; [destruct (Z.even (n / d))| |]; lia.
Qed.

Lemma round_even_unit (n : Z) : round_even n 1 = n.
Proof.
  unfold round_even. rewrite Z.mod_1_r, Z.div_1_r. reflexivity.
Qed.

Lemma pow2_pos (k : Z) : (0 <= k)%Z -> (0 < 2 ^ k)%Z.
Proof. intros H. apply Z.pow_pos_nonneg; lia. Qed.

Lemma exponent_small (n : Z) :
  (0 < n < 2 ^ 53)%Z -> (exponent n 1 <= 0)%Z.
Proof.
  intros [Hpos Hlt]. unfold exponent, scaled_num, scaled_den.
  assert (Z.log2 n < 53)%Z by (apply Z.log2_lt_pow2; assumption).
  change (Z.log2 1) with 0%Z.
  destruct (_ <? _)%Z; lia.
Qed.

(** Every integer below [2^53] is a binary64: rounding leaves it alone. *)
Lemma nearest_exact (n : Z) :
  (0 <= n < 2 ^ 53)%Z -> nearest n 1 = Some (inject_Z n).
Proof.
  intros [Hn Hlt]. unfold nearest, scaled_num, scaled_den.
  destruct (n <=? 0)%Z eqn:Hz.
  - apply Z.leb_le in Hz. replace n with 0%Z by lia. reflexivity.
  - apply Z.leb_gt in Hz.
    pose proof (exponent_small n (conj Hz Hlt)) as He.
    set (e := exponent n 1) in *. cbv zeta.
    rewrite (Z.max_l 0 e) by lia. rewrite (Z.max_r 0 (- e)) by lia.
    change (2 ^ 0)%Z with 1%Z. rewrite !Z.mul_1_r.
    change (Z.pos 1) with 1%Z. rewrite round_even_unit.
    pose proof (pow2_pos (- e) ltac:(lia)) as Hp.
    destruct (_ <=? _)%Z eqn:Hov.
    + apply Z.leb_le in Hov.
      apply Z.mul_le_mono_pos_r in Hov; [|exact Hp].
      assert (2 ^ 53 < 2 ^ 1024)%Z by (apply Z.pow_lt_mono_r; lia). lia.
    + f_equal.
      rewrite <- (Z2Pos.id (2 ^ (- e))) at 1 by exact Hp.
      apply Qred_integer.
Qed.

(** The binary64 nearest to an integer is an integer. *)
Lemma nearest_integer (n : Z) (q : Q) :
  nearest n 1 = Some q -> exists k, (0 <= k)%Z /\ q = inject_Z k.
Proof.
  unfold nearest, scaled_num, scaled_den. destruct (n <=? 0)%Z eqn:Hz.
  - intros H; inversion H. exists 0%Z. split; [lia | reflexivity].
  - apply Z.leb_gt in Hz. set (e := exponent n 1). cbv zeta.
    destruct (_ <=? _)%Z; [discriminate|].
    match goal with
    | |- Some (Qred ?y) = Some q -> _ =>
        set (x := y); intros H; assert (Hq : q = Qred x) by congruence;
        clear H; subst q; subst x
    end.
    destruct (Z.le_ge_cases e 0) as [He|He].
    + rewrite (Z.max_l 0 e) by lia. rewrite (Z.max_r 0 (- e)) by lia.
      change (2 ^ 0)%Z with 1%Z. rewrite !Z.mul_1_r.
      change (Z.pos 1) with 1%Z. rewrite round_even_unit.
      pose proof (pow2_pos (- e) ltac:(lia)) as Hp.
      exists n. split; [lia|].
      rewrite <- (Z2Pos.id (2 ^ (- e))) at 1 by exact Hp.
      apply Qred_integer.
    + rewrite (Z.max_r 0 e) by lia. rewrite (Z.max_l 0 (- e)) by lia.
      change (Z.to_pos (2 ^ 0)) with 1%positive.
      pose proof (pow2_pos e He) as Hp.
      exists (round_even (n * 1) (1 * 2 ^ e) * 2 ^ e)%Z. split.
      * apply Z.mul_nonneg_nonneg; [apply round_even_nonneg|]; lia.
      * rewrite <- (Z.mul_1_r (_ * 2 ^ e)) at 1.
        apply (Qred_integer _ 1).
Qed.

Lemma nearest_nonneg (n : Z) (d : positive) (q : Q) :
  nearest n d = Some q -> (0 <= q)%Q.
Proof.
  unfold nearest, scaled_num, scaled_den. destruct (n <=? 0)%Z eqn:Hz.
  - intros H; inversion H. apply Qle_refl.
  - apply Z.leb_gt in Hz. set (e := exponent n d). cbv zeta.
    destruct (_ <=? _)%Z; [discriminate|].
    match goal with
    | |- Some (Qred ?y) = Some q -> _ =>
        set (x := y); intros H; assert (Hq : q = Qred x) by congruence;
        clear H; subst q
    end.
    rewrite (Qred_correct x).
    subst x. unfold Qle. cbn [Qnum Qden]. rewrite Z.mul_1_r.
    apply Z.mul_nonneg_nonneg.
    + apply round_even_nonneg.
      * apply Z.mul_nonneg_nonneg; [lia|]. apply Z.lt_le_incl, pow2_pos. lia.
      * apply Z.mul_pos_pos; [lia|]. apply pow2_pos. lia.
    + apply Z.lt_le_incl, pow2_pos. lia.
Qed.

Lemma number_value_exact (n : Z) :
  (0 <= n < 2 ^ 53)%Z -> number_value n 1 = VNum (inject_Z n).
Proof.
  intros H. unfold number_value. rewrite (nearest_exact n H). reflexivity.
Qed.

Lemma number_value_shape (n : Z) (d : positive) :
  number_value n d = VInfinity
  \/ exists q, number_value n d = VNum q /\ (0 <= q)%Q.
Proof.
  unfold number_value.
  destruct (nearest n d) as [q|] eqn:E; [right | left; reflexivity].
  exists q. split; [reflexivity | exact (nearest_nonneg n d q E)].
Qed.

Lemma number_value_integer (n : Z) :
  number_value n 1 = VInfinity
  \/ exists k, number_value n 1 = VNum (inject_Z k) /\ (0 <= k)%Z.
Proof.
  unfold number_value.
  destruct (nearest n 1) as [q|] eqn:E; [right | left; reflexivity].
  destruct (nearest_integer n q E) as (k & Hk & ->).
  exists k. split; [reflexivity | exact Hk].
Qed.

(** *** The rounding is the rounding of IEEE 754 *)

Local Open Scope Z_scope.

Lemma scale_shift (n : Z) (d : positive) (e e' : Z) :
  e <= e' ->
  scaled_num n e * scaled_den d e'
  = 2 ^ (e' - e) * (scaled_num n e' * scaled_den d e).
Proof.
  intros H. unfold scaled_num, scaled_den.
  assert (E : 2 ^ Z.max 0 (- e) * 2 ^ Z.max 0 e'
              = 2 ^ (e' - e) * (2 ^ Z.max 0 (- e') * 2 ^ Z.max 0 e)).
  { rewrite <- !Z.pow_add_r by lia. f_equal. lia. }
  transitivity (n * Zpos d * (2 ^ Z.max 0 (- e) * 2 ^ Z.max 0 e')); [ring|].
  rewrite E. ring.
Qed.

Lemma scaled_den_pos (d : positive) (e : Z) : 0 < scaled_den d e.
Proof.
  unfold scaled_den. apply Z.mul_pos_pos; [lia|].
  apply Z.pow_pos_nonneg; lia.
Qed.

Lemma scaled_num_pos (n e : Z) : 0 < n -> 0 < scaled_num n e.
Proof.
  intros H. unfold scaled_num. apply Z.mul_pos_pos; [lia|].
  apply Z.pow_pos_nonneg; lia.
Qed.

(** [n / d < 2^k] and [2^k < n / d], from the sizes of [n] and [d]. *)
Lemma below_log2 (n : Z) (d : positive) :
  0 < n ->
  scaled_num n (Z.log2 n + 1 - Z.log2 (Zpos d))
  < scaled_den d (Z.log2 n + 1 - Z.log2 (Zpos d)).
Proof.
  intros Hn.
  destruct (Z.log2_spec n Hn) as [_ Ha].
  destruct (Z.log2_spec (Zpos d) ltac:(lia)) as [Hb _].
  pose proof (Z.log2_nonneg n) as Ha0.
  pose proof (Z.log2_nonneg (Zpos d)) as Hb0.
  set (a := Z.log2 n) in *. set (b := Z.log2 (Zpos d)) in *.
  unfold scaled_num, scaled_den.
  destruct (Z.le_ge_cases 0 (a + 1 - b)) as [He|He].
  - rewrite (Z.max_l 0 (- (a + 1 - b))), (Z.max_r 0 (a + 1 - b)) by lia.
    change (2 ^ 0) with 1. rewrite Z.mul_1_r.
    replace (Z.succ a) with (b + (a + 1 - b)) in Ha by lia.
    rewrite Z.pow_add_r in Ha by lia.
    assert (0 < 2 ^ (a + 1 - b)) by (apply Z.pow_pos_nonneg; lia). nia.
  - rewrite (Z.max_r 0 (- (a + 1 - b))), (Z.max_l 0 (a + 1 - b)) by lia.
    change (2 ^ 0) with 1. rewrite Z.mul_1_r.
    replace b with (Z.succ a + (- (a + 1 - b))) in Hb by lia.
    rewrite Z.pow_add_r in Hb by lia.
    assert (0 < 2 ^ (- (a + 1 - b))) by (apply Z.pow_pos_nonneg; lia). nia.
Qed.

Lemma above_log2 (n : Z) (d : positive) :
  0 < n ->
  scaled_den d (Z.log2 n - 1 - Z.log2 (Zpos d))
  < scaled_num n (Z.log2 n - 1 - Z.log2 (Zpos d)).
Proof.
  intros Hn.
  destruct (Z.log2_spec n Hn) as [Ha _].
  destruct (Z.log2_spec (Zpos d) ltac:(lia)) as [_ Hb].
  pose proof (Z.log2_nonneg n) as Ha0.
  pose proof (Z.log2_nonneg (Zpos d)) as Hb0.
  set (a := Z.log2 n) in *. set (b := Z.log2 (Zpos d)) in *.
  unfold scaled_num, scaled_den.
  destruct (Z.le_ge_cases 0 (a - 1 - b)) as [He|He].
  - rewrite (Z.max_l 0 (- (a - 1 - b))), (Z.max_r 0 (a - 1 - b)) by lia.
    change (2 ^ 0) with 1. rewrite Z.mul_1_r.
    replace a with (Z.succ b + (a - 1 - b)) in Ha by lia.
    rewrite Z.pow_add_r in Ha by lia.
    assert (0 < 2 ^ (a - 1 - b)) by (apply Z.pow_pos_nonneg; lia). nia.
  - rewrite (Z.max_r 0 (- (a - 1 - b))), (Z.max_l 0 (a - 1 - b)) by lia.
    change (2 ^ 0) with 1. rewrite Z.mul_1_r.
    replace (Z.succ b) with (a + (- (a - 1 - b))) in Hb by lia.
    rewrite Z.pow_add_r in Hb by lia.
    assert (0 < 2 ^ (- (a - 1 - b))) by (apply Z.pow_pos_nonneg; lia). nia.
Qed.

(** Moving the exponent down by [k] multiplies the quotient by [2^k]. *)
Lemma shift_below (n : Z) (d : positive) (e k : Z) :
  0 <= k ->
  scaled_num n (e + k) < scaled_den d (e + k) ->
  scaled_num n e < 2 ^ k * scaled_den d e.
Proof.
  intros Hk H.
  pose proof (scale_shift n d e (e + k) ltac:(lia)) as E.
  replace (e + k - e) with k in E by lia.
  pose proof (scaled_den_pos d e). pose proof (scaled_den_pos d (e + k)).
  assert (0 < 2 ^ k) by (apply Z.pow_pos_nonneg; lia).
  apply (Z.mul_lt_mono_pos_r (scaled_den d (e + k))); [assumption|].
  rewrite E. nia.
Qed.

Lemma shift_above (n : Z) (d : positive) (e k : Z) :
  0 <= k ->
  scaled_den d (e + k) < scaled_num n (e + k) ->
  2 ^ k * scaled_den d e < scaled_num n e.
Proof.
  intros Hk H.
  pose proof (scale_shift n d e (e + k) ltac:(lia)) as E.
  replace (e + k - e) with k in E by lia.
  pose proof (scaled_den_pos d e). pose proof (scaled_den_pos d (e + k)).
  assert (0 < 2 ^ k) by (apply Z.pow_pos_nonneg; lia).
  apply (Z.mul_lt_mono_pos_r (scaled_den d (e + k))); [assumption|].
  rewrite E. nia.
Qed.

(** The exponent chosen: what is rounded has 53 bits, or fewer at the
    bottom of the range. *)
Lemma exponent_spec (n : Z) (d : positive) :
  0 < n ->
  let e := exponent n d in
  -1074 <= e
  /\ scaled_num n e < 2 ^ 53 * scaled_den d e
  /\ (-1074 < e -> 2 ^ 52 * scaled_den d e <= scaled_num n e).
Proof.
  intros Hn e. subst e. unfold exponent.
  set (e0 := Z.log2 n - Z.log2 (Zpos d) - 52).
  fold (scaled_num n e0). fold (scaled_den d e0).
  assert (Hlt : scaled_num n e0 < 2 ^ 53 * scaled_den d e0).
  { apply shift_below; [lia|].
    replace (e0 + 53) with (Z.log2 n + 1 - Z.log2 (Zpos d)) by (unfold e0; lia).
    apply below_log2. assumption. }
  assert (Hgt : 2 ^ 51 * scaled_den d e0 < scaled_num n e0).
  { apply shift_above; [lia|].
    replace (e0 + 51) with (Z.log2 n - 1 - Z.log2 (Zpos d)) by (unfold e0; lia).
    apply above_log2. assumption. }
  pose proof (scaled_den_pos d e0) as Hd0.
  assert (Hnorm :
            let e1 := if scaled_num n e0 <? 2 ^ 52 * scaled_den d e0
                      then e0 - 1 else e0 in
            scaled_num n e1 < 2 ^ 53 * scaled_den d e1
            /\ 2 ^ 52 * scaled_den d e1 <= scaled_num n e1).
  { destruct (scaled_num n e0 <? 2 ^ 52 * scaled_den d e0) eqn:Ht; cbv zeta.
    - apply Z.ltb_lt in Ht.
      pose proof (scale_shift n d (e0 - 1) e0 ltac:(lia)) as E.
      replace (e0 - (e0 - 1)) with 1 in E by lia. change (2 ^ 1) with 2 in E.
      pose proof (scaled_den_pos d (e0 - 1)) as Hd1.
      split.
      + apply (Z.mul_lt_mono_pos_r (scaled_den d e0)); [assumption|].
        rewrite E. change (2 ^ 53) with (2 * 2 ^ 52). nia.
      + apply Z.lt_le_incl.
        apply (Z.mul_lt_mono_pos_r (scaled_den d e0)); [assumption|].
        rewrite E. change (2 ^ 52) with (2 * 2 ^ 51). nia.
    - apply Z.ltb_ge in Ht. split; assumption. }
  cbv zeta in Hnorm.
  set (e1 := if scaled_num n e0 <? 2 ^ 52 * scaled_den d e0
             then e0 - 1 else e0) in *.
  destruct Hnorm as [H1 H2].
  split; [lia|].
  destruct (Z.le_ge_cases (-1074) e1) as [He|He].
  - rewrite (Z.max_r (-1074) e1) by lia. split; [assumption | intros _; assumption].
  - rewrite (Z.max_l (-1074) e1) by lia. split; [|lia].
    pose proof (scale_shift n d e1 (-1074) ltac:(lia)) as E.
    pose proof (scaled_den_pos d e1) as Hd1.
    pose proof (scaled_den_pos d (-1074)) as Hd.
    pose proof (scaled_num_pos n (-1074) Hn) as Hnn.
    assert (Hp : 1 <= 2 ^ (-1074 - e1)).
    { assert (0 < 2 ^ (-1074 - e1)) by (apply Z.pow_pos_nonneg; lia). lia. }
    apply (Z.mul_lt_mono_pos_r (scaled_den d e1)); [assumption|].
    apply Z.le_lt_trans
      with (2 ^ (-1074 - e1) * (scaled_num n (-1074) * scaled_den d e1)).
    + assert (0 <= scaled_num n (-1074) * scaled_den d e1) by nia. nia.
    + rewrite <- E. nia.
Qed.

(** The significand: the integer nearest to the quotient, the even one of
    two. *)
Lemma round_even_nearest (n d k : Z) :
  0 <= n -> 0 < d ->
  Z.abs (round_even n d * d - n) <= Z.abs (k * d - n).
Proof.
  intros Hn Hd. unfold round_even.
  pose proof (Z.div_mod n d ltac:(lia)) as E.
  pose proof (Z.mod_pos_bound n d Hd) as Hr.
  set (f := n / d) in *. set (r := n mod d) in *.
  assert (Hk : (k <= f /\ 0 <= (f - k) * d)
               \/ (f + 1 <= k /\ 0 <= (k - f - 1) * d)).
  { destruct (Z.le_gt_cases k f); [left | right];
      (split; [lia | apply Z.mul_nonneg_nonneg; lia]). }
  destruct (Z.compare_spec (2 * r) d) as [C|C|C];
    try destruct (Z.even f); destruct Hk as [[Hk Hp]|[Hk Hp]]; nia.
Qed.

Lemma round_even_tie (n d : Z) :
  2 * (n mod d) = d -> Z.even (round_even n d) = true.
Proof.
  intros H. unfold round_even. rewrite H, Z.compare_refl.
  destruct (Z.even (n / d)) eqn:E; [assumption|].
  rewrite Z.even_add. rewrite E. reflexivity.
Qed.

Local Close Scope Z_scope.

(** The rounding of the model and the floats of the machine give the same
    numbers: on decimals, on integers beyond [2^53], at a tie, at the two
    ends of the range. *)
Lemma nearest_agrees_with_floats :
  nearest 1 10 = Q_of_float 0.1%float
  /\ nearest 7 100 = Q_of_float 0.07%float
  /\ nearest 65 1000 = Q_of_float 0.065%float
  /\ nearest 5 1000 = Q_of_float 0.005%float
  /\ nearest 1005 100000 = Q_of_float 0.01005%float
  /\ nearest 9007199254740993 1 = Q_of_float 9007199254740992%float
  /\ nearest 9007199254740995 1 = Q_of_float 9007199254740996%float
  /\ nearest 99999999999999999999 1 = Q_of_float 1e20%float
  /\ nearest (10 ^ 308) 1 = Q_of_float 1e308%float
  /\ nearest (10 ^ 309) 1 = None
  /\ nearest 3 (Z.to_pos (10 ^ 324)) = Q_of_float 0x1p-1074%float
  /\ nearest 2 (Z.to_pos (10 ^ 324)) = Some 0%Q.
Proof. repeat split; vm_compute; reflexivity. Qed.

(** On the quotients [n / d] for [n] below 2000 and a few denominators,
    the rounding of the model is the division of the machine. *)
Lemma nearest_agrees_on_ratios :
  forallb
    (fun d =>
       forallb
         (fun n => same_number (nearest n (Z.to_pos d))
                     (Q_of_float (float_of_ratio n d)))
         (upto 2000))
    [1; 3; 7; 10; 100; 1000; 4096; 99999]%Z
  = true.
Proof. vm_compute. reflexivity. Qed.

(** On every rate [n / 1000] up to 3, as the binary64 it is, the target
    rate of the model is the subtraction of the machine. *)
Lemma target_rate_agrees_on_rates :
  forallb
    (fun n =>
       same_number
         (option_map OffersGrid.targetRate
            (Q_of_float (float_of_ratio n 1000)))
         (Q_of_float (OffersGrid.targetRate64 (float_of_ratio n 1000))))
    (upto 3000)
  = true.
Proof. vm_compute. reflexivity. Qed.

(** On every rate [n / 100000] up to 0.03, the product under [toFixed] is
    the multiplication of the machine. *)
Lemma product_agrees_on_rates :
  forallb
    (fun n =>
       same_number
         (match Q_of_float (float_of_ratio n 100000) with
          | Some q => round (q * 100)
          | None => None
          end)
         (Q_of_float (PrimFloat.mul (float_of_ratio n 100000) 100)))
    (upto 3000)
  = true.
Proof. vm_compute. reflexivity. Qed.

(** The text of a rate in the notification of a success: the product is
    rounded before [toFixed] rounds it again. *)
Lemma percent_examples :
  OffersGrid.percent (Some (to64 (65 # 1000))) = lit "6.50"
  /\ OffersGrid.percent (Some (to64 (1005 # 100000))) = lit "1.00"
  /\ OffersGrid.percent (Some (- to64 (1 # 100000))) = lit "-0.00"
  /\ OffersGrid.percent (Some (inject_Z (10 ^ 19))) = lit "1e+21"
  /\ OffersGrid.percent (Some (inject_Z (2 ^ 70)))
     = lit "1.1805916207174113e+23"
  /\ OffersGrid.percent (Some (inject_Z (2 ^ 1023))) = lit "Infinity"
  /\ OffersGrid.percent None = lit "NaN".
Proof. repeat split; vm_compute; reflexivity. Qed.

End Binary64Facts.

Section InterpreterFacts.
Import Chatbot InterpreterSpec.

Lemma try_catch_total {A : Type} (body : result A) (a : A) :
  exists r, try_catch body (fun _ => Ok a) = Ok r.
Proof. destruct body; simpl; eauto. Qed.

Lemma try_catch_throw {A : Type} (e : str) (h : str -> result A) :
  try_catch (Throw e) h = h e.
Proof. reflexivity. Qed.

(** C10: an input that is [null], [undefined] or anything else that is not
    a string gets exactly [{amount: null, duration: null, purpose: null,
    expected_income: 0}]; the extractor has no exceptional outcome. *)
Theorem fallback_rejects_non_string (v : value) :
  is_string v = false ->
  parseLoanRequestFallback v = mkLoanData VNull VNull VNull (VNum 0).
Proof.
  intros H. unfold parseLoanRequestFallback.
  rewrite H. simpl. rewrite orb_true_r. reflexivity.
Qed.

Lemma fallback_rejects_non_string_witness :
  is_string (VArr [VNum 3]) = false
  /\ parseLoanRequestFallback (VArr [VNum 3])
     = mkLoanData VNull VNull VNull (VNum 0).
Proof.
  split; [reflexivity|].
  apply (fallback_rejects_non_string (VArr [VNum 3])). reflexivity.
Defined.

(** C8 as stated fails: a request whose three required fields are all
    non-null is still held back when one of them is [0] (or the empty
    string).  The extractor produces such a request from a zero amount. *)
Lemma gate_blocks_non_null_request :
  let d := parseLoanRequestFallback
             (VStr (lit "I need $0 for 12 months to buy a van")) in
  amount d = VNum 0
  /\ required_present d = true
  /\ isComplete d = false.
Proof. vm_compute. repeat split. Qed.

(** C8, amended: the gate of [handleSubmit] tests truthiness.  It is false
    exactly when one of [amount], [duration], [purpose] is falsy ([null],
    [undefined], [0], [NaN], the empty string or [false]), whatever
    [expected_income] is; and when it is false nothing is submitted and the
    reply of the bot is the request for clarification. *)
Theorem submission_gate :
  (forall d,
      isComplete d = false
      <-> falsy (amount d) \/ falsy (duration d) \/ falsy (purpose d))
  /\ (forall a d p e e',
         isComplete (mkLoanData a d p e) = isComplete (mkLoanData a d p e'))
  /\ (forall JSON_parse processing onLoanRequest st reply d,
         trim (inputValue st) <> [] ->
         parseLoanRequestWithOllama JSON_parse (trim (inputValue st)) reply
         = Ok d ->
         isComplete d = false ->
         handleSubmit JSON_parse processing onLoanRequest st reply
         = mkChat
             (messages st
              ++ [mkMessage user (trim (inputValue st));
                  mkMessage bot clarification])
             [] false (submitted st)).
Proof.
  split; [|split].
  - intros d. unfold isComplete, incomplete.
    rewrite negb_false_iff, !orb_true_iff, !negb_true_iff,
      !truthy_false_iff.
    tauto.
  - reflexivity.
  - intros JSON_parse processing onLoanRequest st reply d Hin Hd Hgate.
    unfold handleSubmit.
    apply truthy_str in Hin. rewrite Hin. simpl.
    rewrite Hd.
    unfold isComplete in Hgate. apply negb_false_iff in Hgate.
    rewrite Hgate.
    unfold setIsTyping, say, setInputValue; simpl.
    rewrite <- app_assoc. reflexivity.
Qed.

Lemma submission_gate_witness :
  isComplete (mkLoanData (VNum 0) (VNum 12) (VStr (lit "a van")) (VNum 7))
  = false.
Proof.
  apply (proj1 submission_gate
           (mkLoanData (VNum 0) (VNum 12) (VStr (lit "a van")) (VNum 7))).
  left. simpl. apply falsy_zero. reflexivity.
Defined.

(** C2 as stated fails: when the answer parses but lacks the required
    fields, the interpreter returns the defaults, not what the fallback
    extractor finds in the text. *)
Lemma llm_missing_fields_not_fallback :
  let text := lit "I need $5000 for 12 months to buy a van" in
  let reply := Response true 200 (Some (chat_body "{}")) in
  parseLoanRequestWithOllama parse_empty_object text reply
  = Ok (mkLoanData VNull VNull VNull (VNum 0))
  /\ parseLoanRequestFallback (VStr text)
     <> mkLoanData VNull VNull VNull (VNum 0).
Proof.
  split.
  - vm_compute. reflexivity.
  - intros H. apply (f_equal amount) in H. vm_compute in H. discriminate.
Qed.

(** C2, amended: when the request fails, the status is not a success, the
    body is not JSON or the content of the message is not JSON (or is the
    JSON [null]), the
    interpreter returns exactly what the fallback extractor returns on the
    same text; it never throws; and when the answer parses to an object it
    returns that object's fields, a missing one replaced by [null] (by [0]
    for the income), without consulting the fallback extractor. *)
Theorem interpreter_fallback (JSON_parse : str -> option value) (text : str) :
  (forall reply,
      failed JSON_parse reply ->
      parseLoanRequestWithOllama JSON_parse text reply
      = Ok (parseLoanRequestFallback (VStr text)))
  /\ (forall reply,
         exists d, parseLoanRequestWithOllama JSON_parse text reply = Ok d)
  /\ (forall status data fields,
         answer JSON_parse data = Some (VObj fields) ->
         parseLoanRequestWithOllama JSON_parse text
           (Response true status (Some data))
         = Ok (mkLoanData
                 (js_or (lookup (lit "amount") fields) VNull)
                 (js_or (lookup (lit "duration") fields) VNull)
                 (js_or (lookup (lit "purpose") fields) VNull)
                 (js_or (lookup (lit "expected_income") fields) (VNum 0)))).
Proof.
  split; [|split].
  - intros reply H.
    destruct H as [ | status body | status | status data H | status data H];
      try reflexivity;
      unfold answer in H; unfold parseLoanRequestWithOllama; simpl;
      (destruct (get data "message") as [message|e]; [|reflexivity]); simpl;
      (destruct (get_opt message "content") as [content|e]; [|reflexivity]);
      simpl;
      (destruct (js_or content (VStr [])) as [| |b|q| | | |s|l|l];
       try reflexivity; try discriminate);
      simpl; unfold parse_json; rewrite H; reflexivity.
  - intros reply. unfold parseLoanRequestWithOllama.
    destruct reply as [|ok status body]; [simpl; eauto|].
    destruct ok; [|simpl; eauto].
    destruct body as [data|]; [|simpl; eauto]. simpl.
    destruct (get data "message") as [message|e]; [|simpl; eauto]. simpl.
    destruct (get_opt message "content") as [content|e]; [|simpl; eauto].
    simpl.
    destruct (try_catch_total
                (trimmed <- call_trim (js_or content (VStr [])) ;;
                 parsed <- parse_json JSON_parse trimmed ;;
                 a <- get parsed "amount" ;;
                 d <- get parsed "duration" ;;
                 p <- get parsed "purpose" ;;
                 e <- get parsed "expected_income" ;;
                 Ok (mkLoanData (js_or a VNull) (js_or d VNull)
                       (js_or p VNull) (js_or e (VNum 0))))
                (parseLoanRequestFallback (VStr text))) as [r Hr].
    rewrite Hr. simpl. eauto.
  - intros status data fields H.
    unfold answer in H. unfold parseLoanRequestWithOllama. simpl.
    destruct (get data "message") as [message|e]; [|discriminate]. simpl.
    destruct (get_opt message "content") as [content|e]; [|discriminate].
    simpl.
    destruct (js_or content (VStr [])) as [| |b|q| | | |s|l|l]; try discriminate.
    simpl. unfold parse_json. rewrite H. reflexivity.
Qed.

Lemma interpreter_fallback_witness :
  parseLoanRequestWithOllama parse_empty_object (lit "a loan")
    (Response true 200 (Some (chat_body "not json")))
  = Ok (parseLoanRequestFallback (VStr (lit "a loan"))).
Proof.
  apply (proj1 (interpreter_fallback parse_empty_object (lit "a loan"))).
  apply failed_content. reflexivity.
Defined.

End InterpreterFacts.

(** ** Negotiation *)

Section NegotiationFacts.
Import OffersGrid NegotiationSpec.

Lemma begin_sends (g : grid) (offerData : BankOffer) (o : Offer) (index : nat) :
  offer offerData = Some o ->
  begin offerData index g
  = (Ok (Some (mkRequest (bank_id offerData) o (targetRate (interest_rate o)))),
     mkGrid (offers g) (Some index) (notifications g)
       (requests g
        ++ [mkRequest (bank_id offerData) o (targetRate (interest_rate o))])).
Proof.
  intros H. unfold begin, mbind, catch, lift, offer_of, setNegotiating.
  rewrite H. reflexivity.
Qed.

Lemma assign_offer_ok (index : nat) (o : option Offer) (l : list BankOffer)
      (target : BankOffer) :
  nth_error l index = Some target ->
  exists l',
    assign_offer index o l = Ok l'
    /\ nth_error l' index
       = Some (mkBankOffer (bank_id target) (bank_name target) o)
    /\ (forall j, j <> index -> nth_error l' j = nth_error l j)
    /\ length l' = length l.
Proof.
  revert index; induction l as [|od l IH]; intros [|i] H; simpl in *;
    try discriminate.
  - inversion H; subst. eexists; repeat split.
    intros [|j] Hj; [congruence | reflexivity].
  - destruct (IH i H) as (l' & -> & Hi & Hj & Hlen). simpl.
    eexists; repeat split; simpl; auto.
    intros [|j] Hne; [reflexivity | apply Hj; congruence].
Qed.

Lemma assign_offer_stale (index : nat) (o : option Offer) (l : list BankOffer) :
  nth_error l index = None ->
  exists e, assign_offer index o l = Throw e.
Proof.
  revert index; induction l as [|od l IH]; intros [|i] H; simpl in *;
    try discriminate; eauto.
  destruct (IH i H) as [e ->]. simpl. eauto.
Qed.

(** The state an agreement leaves: the list [l'] with the new offer at the
    index, the success notification, the request sent. *)
Lemma negotiate_agreed (g : grid) (offerData : BankOffer) (o : Offer)
      (index : nat) (result : NegotiationResult) (l' : list BankOffer) :
  offer offerData = Some o ->
  agreed result = true ->
  assign_offer index (updated_offer result) (offers g) = Ok l' ->
  after (handleNegotiate offerData index (Response true (Json result))) g
  = mkGrid l' None
      (notifications g ++ [(successful (new_rate result), lit "success")])
      (requests g
       ++ [mkRequest (bank_id offerData) o (targetRate (interest_rate o))]).
Proof.
  intros Ho Ha Hl. unfold after, handleNegotiate, mbind at 1.
  rewrite (begin_sends g offerData o index Ho).
  unfold resume, mbind, catch, ret, get_offers, lift, onOffersUpdate,
    onNotification, setNegotiating.
  rewrite Ha. simpl. rewrite Hl. reflexivity.
Qed.

(** C5: when the lender declines ([agreed = false]), the status is not a
    success or the request fails, no offer of the list changes, and the
    outcome reported is one notification of type "error".  For a decline
    its text is "Negotiation failed: " followed by the reason the lender
    gives, character for character ("undefined" when the reply has no
    [reason]), so that two declines with different reasons are reported
    differently; for a bad status it is "Negotiation request failed" and
    for a failed request "Error during negotiation"; the message of a
    decline is never one of the two failure messages. *)
Theorem negotiate_refused (g : grid) (offerData : BankOffer) (index : nat)
        (r : reply) (message : str) :
  refusal r message ->
  offers (after (handleNegotiate offerData index r) g) = offers g
  /\ (forall o,
         offer offerData = Some o ->
         after (handleNegotiate offerData index r) g
         = mkGrid (offers g) None
             (notifications g ++ [(message, lit "error")])
             (requests g
              ++ [mkRequest (bank_id offerData) o
                    (targetRate (interest_rate o))]))
  /\ (forall why, rejected why <> request_failed
                  /\ rejected why <> negotiation_error)
  /\ request_failed <> negotiation_error
  /\ (forall result why,
         r = Response true (Json result) -> reason result = Some why ->
         message = lit "Negotiation failed: " ++ why)
  /\ (forall result,
         r = Response true (Json result) -> reason result = None ->
         message = lit "Negotiation failed: undefined")
  /\ (forall body,
         r = Response false body -> message = lit "Negotiation request failed")
  /\ (r = FetchRejected -> message = lit "Error during negotiation")
  /\ (forall why why' : str,
         rejected (Some why) = rejected (Some why') -> why = why').
Proof.
  intros Hr.
  assert (Htext :
            (forall result why,
                r = Response true (Json result) -> reason result = Some why ->
                message = lit "Negotiation failed: " ++ why)
            /\ (forall result,
                   r = Response true (Json result) -> reason result = None ->
                   message = lit "Negotiation failed: undefined")
            /\ (forall body,
                   r = Response false body ->
                   message = lit "Negotiation request failed")
            /\ (r = FetchRejected -> message = lit "Error during negotiation")
            /\ (forall why why' : str,
                   rejected (Some why) = rejected (Some why') -> why = why')).
  { repeat split.
    - intros result why Hrep Hwhy. destruct Hr; inversion Hrep; subst.
      rewrite Hwhy. reflexivity.
    - intros result Hrep Hwhy. destruct Hr; inversion Hrep; subst.
      rewrite Hwhy. reflexivity.
    - intros body Hrep. destruct Hr; inversion Hrep; reflexivity.
    - intros Hrep. destruct Hr; inversion Hrep; reflexivity.
    - intros why why' H. unfold rejected, show_opt in H.
      exact (app_inv_head _ _ _ H). }
  assert (Hsent :
            forall o,
              offer offerData = Some o ->
              after (handleNegotiate offerData index r) g
              = mkGrid (offers g) None
                  (notifications g ++ [(message, lit "error")])
                  (requests g
                   ++ [mkRequest (bank_id offerData) o
                         (targetRate (interest_rate o))])).
  { intros o Ho. unfold after, handleNegotiate, mbind at 1.
    rewrite (begin_sends g offerData o index Ho).
    destruct Hr as [result Ha | body | ];
      unfold resume, mbind, catch, ret, raise, onNotification,
        setNegotiating; simpl; try rewrite Ha; reflexivity. }
  split; [|split; [exact Hsent | split; [|split; [|exact Htext]]]].
  - destruct (offer offerData) as [o|] eqn:Ho.
    + rewrite (Hsent o eq_refl). reflexivity.
    + unfold after, handleNegotiate, begin, mbind, catch, lift, offer_of,
        setNegotiating, onNotification, ret.
      rewrite Ho. reflexivity.
  - intros why. unfold rejected, request_failed, negotiation_error.
    split; simpl; discriminate.
  - unfold request_failed, negotiation_error. simpl. discriminate.
Qed.

Lemma negotiate_refused_witness :
  let g := ui two_offers in
  let a :=
    mkBankOffer (lit "A") (lit "Bank A") (Some (plain_offer (7 # 100))) in
  let r :=
    Response true
      (Json (mkResult false None None (Some (lit "floor reached")))) in
  offers (after (handleNegotiate a 0 r) g) = offers g
  /\ notifications (after (handleNegotiate a 0 r) g)
     = [(lit "Negotiation failed: floor reached", lit "error")].
Proof.
  intros g a r.
  destruct (negotiate_refused g a 0 r (rejected (Some (lit "floor reached")))
              (refusal_declined
                 (mkResult false None None (Some (lit "floor reached")))
                 eq_refl))
    as (Hsame & Hsent & _ & _ & Htext & _).
  split; [exact Hsame|].
  rewrite (Hsent (plain_offer (7 # 100)) eq_refl).
  cbn [notifications ui two_offers app].
  rewrite (Htext _ (lit "floor reached") eq_refl eq_refl). reflexivity.
Defined.

(** C3 as stated fails: the list takes whatever offer the reply carries.
    An agreement whose [updated_offer] has a higher rate raises the stored
    rate. *)
Lemma agreement_can_raise_rate :
  let a := mkBankOffer (lit "A") (lit "Bank A") (Some (plain_offer (7 # 100))) in
  let r := Response true
             (Json (mkResult true (Some (plain_offer (9 # 100)))
                      (Some (9 # 100)) None)) in
  let g' := after (handleNegotiate a 0 r) (ui two_offers) in
  rate_at (ui two_offers) 0 = Some (7 # 100)
  /\ rate_at g' 0 = Some (9 # 100)
  /\ ~ (9 # 100 < 7 # 100)%Q.
Proof.
  repeat split. intros H. vm_compute in H. discriminate.
Qed.

(** C3, amended: after an agreement is applied at a valid index, the offer
    stored there is the [updated_offer] of the reply, the other entries are
    untouched, and the stored rate is below the rate before the negotiation
    exactly when the rate of that [updated_offer] is. *)
Theorem negotiate_agreed_stores_reply
        (g : grid) (offerData target : BankOffer) (o : Offer) (index : nat)
        (result : NegotiationResult) :
  nth_error (offers g) index = Some target ->
  offer offerData = Some o ->
  agreed result = true ->
  let g' :=
    after (handleNegotiate offerData index (Response true (Json result))) g in
  nth_error (offers g') index
  = Some (mkBankOffer (bank_id target) (bank_name target)
            (updated_offer result))
  /\ (forall j, j <> index ->
                nth_error (offers g') j = nth_error (offers g) j)
  /\ (forall before,
         rate_at g index = Some before ->
         (exists now, rate_at g' index = Some now /\ (now < before)%Q)
         <-> (exists u, updated_offer result = Some u
                        /\ (interest_rate u < before)%Q)).
Proof.
  intros Ht Ho Ha g'.
  destruct (assign_offer_ok index (updated_offer result) (offers g) target Ht)
    as (l' & Hl & Hi & Hj & _).
  assert (Hg : offers g' = l').
  { unfold g'. rewrite (negotiate_agreed g offerData o index result l' Ho Ha Hl).
    reflexivity. }
  rewrite Hg. split; [exact Hi | split; [exact Hj|]].
  intros before _. unfold rate_at. rewrite Hg, Hi. simpl.
  destruct (updated_offer result) as [u|]; simpl.
  - split.
    + intros (now & Hn & Hlt). inversion Hn; subst. eauto.
    + intros (u' & Hu & Hlt). inversion Hu; subst. eauto.
  - split; intros (x & Hx & _); discriminate.
Qed.

Lemma negotiate_agreed_stores_reply_witness :
  let a := mkBankOffer (lit "A") (lit "Bank A") (Some (plain_offer (7 # 100))) in
  let result := mkResult true (Some (plain_offer (65 # 1000)))
                  (Some (65 # 1000)) None in
  nth_error
    (offers (after (handleNegotiate a 0 (Response true (Json result)))
               (ui two_offers))) 0
  = Some (mkBankOffer (lit "A") (lit "Bank A")
            (Some (plain_offer (65 # 1000)))).
Proof.
  intros a result.
  apply (negotiate_agreed_stores_reply (ui two_offers) a a
           (plain_offer (7 # 100)) 0 result eq_refl eq_refl eq_refl).
Defined.

(** C6 as stated fails: the rate stored is the rate of [updated_offer],
    not [new_rate].  A reply [{agreed: true, new_rate: 0.065}] without an
    [updated_offer] leaves the entry without an offer, hence without a
    rate; one whose [updated_offer] has another rate stores that rate. *)
Lemma new_rate_is_not_stored :
  let a := mkBankOffer (lit "A") (lit "Bank A") (Some (plain_offer (7 # 100))) in
  let bare := Response true
                (Json (mkResult true None (Some (65 # 1000)) None)) in
  let other := Response true
                 (Json (mkResult true (Some (plain_offer (6 # 100)))
                          (Some (65 # 1000)) None)) in
  rate_at (after (handleNegotiate a 0 bare) (ui two_offers)) 0 = None
  /\ rate_at (after (handleNegotiate a 0 other) (ui two_offers)) 0
     = Some (6 # 100)
  /\ ~ (6 # 100 == 65 # 1000)%Q.
Proof.
  repeat split. intros H. vm_compute in H. discriminate.
Qed.

(** C6, amended: a negotiation sends as [target_rate] the binary64
    difference of the current [interest_rate] of the offer and the literal
    0.005.  For an offer at 0.07 that is the number written 0.065, on the
    floats of the machine as in the model; it is not always the number the
    decimals suggest: 0.065 gives 0.060000000000000005, which is not 0.06.
    And a reply [{agreed: true, new_rate: 0.065, updated_offer: u}] stores
    [u]: the stored rate becomes the rate of [u], which is 0.065 when [u]
    says so. *)
Theorem negotiate_target_rate :
  (forall g offerData o index r,
      offer offerData = Some o ->
      requests (after (handleNegotiate offerData index r) g)
      = requests g
        ++ [mkRequest (bank_id offerData) o
              (Binary64.to64 (interest_rate o - Binary64.to64 (5 # 1000)))])
  /\ Binary64.Q_of_float 0.005%float = Some (Binary64.to64 (5 # 1000))
  /\ Binary64.Q_of_float 0.07%float = Some (Binary64.to64 (7 # 100))
  /\ Binary64.Q_of_float 0.065%float = Some (Binary64.to64 (65 # 1000))
  /\ Binary64.to64 (65 # 1000) = 1170935903116329 # 18014398509481984
  /\ targetRate (Binary64.to64 (7 # 100)) = Binary64.to64 (65 # 1000)
  /\ Binary64.Q_of_float (targetRate64 0.07%float)
     = Some (targetRate (Binary64.to64 (7 # 100)))
  /\ Binary64.Q_of_float (targetRate64 0.065%float)
     = Some (targetRate (Binary64.to64 (65 # 1000)))
  /\ targetRate (Binary64.to64 (65 # 1000))
     = 8646911284551353 # 144115188075855872
  /\ Binary64.Q_of_float 0.06%float = Some (Binary64.to64 (6 # 100))
  /\ targetRate (Binary64.to64 (65 # 1000)) <> Binary64.to64 (6 # 100)
  /\ (forall g offerData target o index u shown why,
         nth_error (offers g) index = Some target ->
         offer offerData = Some o ->
         rate_at
           (after (handleNegotiate offerData index
                     (Response true (Json (mkResult true (Some u) shown why))))
              g) index
         = Some (interest_rate u)).
Proof.
  split; [|do 9 (split; [vm_compute; reflexivity|]);
            split; [vm_compute; discriminate|]].
  - intros g offerData o index r Ho.
    change (Binary64.to64 (interest_rate o - Binary64.to64 (5 # 1000)))
      with (targetRate (interest_rate o)).
    unfold after, handleNegotiate, mbind at 1.
    rewrite (begin_sends g offerData o index Ho).
    unfold resume, mbind, catch, ret, raise, get_offers, lift,
      onOffersUpdate, onNotification, setNegotiating.
    destruct r as [|[|] [| |result]]; simpl; try reflexivity.
    destruct (agreed result); simpl; try reflexivity.
    destruct (assign_offer index (updated_offer result) (offers g));
      reflexivity.
  - intros g offerData target o index u shown why Ht Ho.
    destruct (assign_offer_ok index (Some u) (offers g) target Ht)
      as (l' & Hl & Hi & _).
    unfold rate_at.
    rewrite (negotiate_agreed g offerData o index
               (mkResult true (Some u) shown why) l' Ho eq_refl Hl).
    simpl. rewrite Hi. reflexivity.
Qed.

Lemma negotiate_target_rate_witness :
  let a := mkBankOffer (lit "A") (lit "Bank A") (Some (plain_offer (7 # 100))) in
  let r := Response true
             (Json (mkResult true (Some (plain_offer (65 # 1000)))
                      (Some (65 # 1000)) None)) in
  map target_rate (requests (after (handleNegotiate a 0 r) (ui two_offers)))
  = [1170935903116329 # 18014398509481984]
  /\ rate_at (after (handleNegotiate a 0 r) (ui two_offers)) 0
     = Some (65 # 1000).
Proof.
  intros a r. split.
  - rewrite (proj1 negotiate_target_rate (ui two_offers) a
               (plain_offer (7 # 100)) 0 r eq_refl).
    vm_compute. reflexivity.
  - apply (proj2 (proj2 (proj2 (proj2 (proj2 (proj2 (proj2 (proj2 (proj2
             (proj2 (proj2 negotiate_target_rate)))))))))) (ui two_offers) a a
             (plain_offer (7 # 100)) 0 (plain_offer (65 # 1000))
             (Some (65 # 1000)) None eq_refl eq_refl).
Defined.

(** On the floats of the machine, 0.07 - 0.005 is the number written
    0.065. *)
Lemma target_rate_binary64 :
  targetRate64 0.07%float = 0.065%float.
Proof. reflexivity. Qed.

(** The flag does refuse the index it holds... *)
Lemma flagged_index_refused (w : world) (index : nat) :
  negotiating (ui w) = Some index -> step w (Click index) = None.
Proof.
  intros H. unfold step, can_negotiate.
  destruct (nth_error (offers (ui w)) index); [|reflexivity].
  rewrite H. simpl. rewrite Nat.eqb_refl, andb_false_r. reflexivity.
Qed.

(** ... and calls on different indices wait side by side. *)
Lemma two_indices_in_flight :
  option_map in_flight (steps two_offers [Click 0; Click 1]) = Some [0; 1].
Proof. reflexivity. Qed.

(** C9, on the code: the grid keeps one [negotiating] index for all its
    buttons.  Starting a negotiation on another index overwrites it, the
    button of the first index is enabled again, and a second call on the
    first index is accepted while the first still waits for its reply.  The
    same happens when any other call settles, since that resets the flag to
    [null]. *)
Theorem second_negotiation_on_busy_index :
  (exists w,
      steps two_offers [Click 0; Click 1; Click 0] = Some w
      /\ in_flight w = [0; 1; 0]
      /\ waiting_on w 0 = 2
      /\ map target_rate (requests (ui w))
         = [targetRate (7 # 100); targetRate (8 # 100); targetRate (7 # 100)])
  /\ (exists w,
         steps two_offers
           [Click 0; Click 1; Settle 1 FetchRejected; Click 0] = Some w
         /\ waiting_on w 0 = 2).
Proof.
  split; eexists; repeat split.
Qed.

End NegotiationFacts.

(** ** Ranking *)

Section RankingFacts.
Import App RankingSpec.

Lemma filterM_approved (l : list BankOffer) :
  Forall has_offer l ->
  exists kept,
    filterM approved l = Ok kept
    /\ incl kept l
    /\ Forall (fun od => exists o, offer od = Some o
                                   /\ (0 < amount_approved o)%Q) kept.
Proof.
  induction 1 as [|od l [o Ho] _ (kept & Hk & Hincl & Hall)]; simpl.
  - exists []. repeat split; auto using incl_nil_l.
  - unfold approved at 1, offer_of. rewrite Ho. simpl. rewrite Hk. simpl.
    destruct (Qle_bool (amount_approved o) 0) eqn:E; simpl;
      eexists; split; try reflexivity; split.
    + apply incl_tl; assumption.
    + assumption.
    + apply incl_cons; [left; reflexivity | apply incl_tl; assumption].
    + constructor; [|assumption]. exists o. split; [assumption|].
      apply Qnot_le_lt. intros Hle. apply Qle_bool_iff in Hle. congruence.
Qed.

Lemma compare_decides (x y : BankOffer) :
  has_offer x -> has_offer y ->
  exists c,
    compare x y = Ok c
    /\ (Qle_bool c 0 = true -> precedes x y)
    /\ (Qle_bool c 0 = false -> precedes y x).
Proof.
  intros [ox Hx] [oy Hy]. unfold compare, offer_of, precedes.
  rewrite Hx, Hy. simpl.
  destruct (Qeq_bool (amount_approved oy) (amount_approved ox)) eqn:E; simpl;
    eexists; split; try reflexivity.
  - apply Qeq_bool_iff in E. split; intros H.
    + apply Qle_bool_iff in H. right. split; [symmetry; assumption | lra].
    + assert (~ (interest_rate ox - interest_rate oy <= 0)%Q) as Hn
          by (rewrite <- Qle_bool_iff; congruence).
      right. split; [assumption | lra].
  - apply Qeq_bool_neq in E. split; intros H.
    + apply Qle_bool_iff in H. left.
      destruct (Qlt_le_dec (amount_approved oy) (amount_approved ox))
        as [Hlt|Hge]; [assumption|].
      exfalso. apply E. lra.
    + assert (~ (amount_approved oy - amount_approved ox <= 0)%Q) as Hn
          by (rewrite <- Qle_bool_iff; congruence).
      left. lra.
Qed.

Lemma insertM_sorted (x : BankOffer) (l : list BankOffer) :
  has_offer x -> Forall has_offer l ->
  exists r,
    insertM compare x l = Ok r
    /\ Permutation (x :: l) r
    /\ (Sorted precedes l -> Sorted precedes r)
    /\ (forall y, precedes y x -> HdRel precedes y l -> HdRel precedes y r).
Proof.
  intros Hx Hl. induction Hl as [|y l Hy Hl IH]; simpl.
  - exists [x]. repeat split; auto.
  - destruct (compare_decides x y Hx Hy) as (c & -> & Hle & Hgt). simpl.
    destruct (Qle_bool c 0) eqn:E.
    + exists (x :: y :: l). repeat split; auto.
    + destruct IH as (r & -> & Hperm & Hsorted & Hhd). simpl.
      exists (y :: r). repeat split.
      * rewrite perm_swap. constructor. assumption.
      * intros Hs. apply Sorted_inv in Hs as [Hs Hh].
        constructor; auto.
      * intros z _ Hz. apply HdRel_inv in Hz. constructor. assumption.
Qed.

Lemma sortM_sorted (l : list BankOffer) :
  Forall has_offer l ->
  exists s,
    sortM compare l = Ok s /\ Permutation l s /\ Sorted precedes s.
Proof.
  induction 1 as [|x l Hx Hl (s & Hs & Hperm & Hsorted)]; simpl.
  - exists []. repeat split; auto.
  - rewrite Hs. simpl.
    assert (Hs' : Forall has_offer s).
    { apply Forall_forall. intros y Hy.
      apply Permutation_sym in Hperm.
      apply (Permutation_in _ Hperm) in Hy.
      rewrite Forall_forall in Hl. auto. }
    destruct (insertM_sorted x s Hx Hs') as (r & Hr & Hp & Hsr & _).
    exists r. repeat split; auto.
    apply perm_trans with (x :: s); auto.
Qed.

Lemma In_firstn {A : Type} (n : nat) (l : list A) (x : A) :
  In x (firstn n l) -> In x l.
Proof.
  intros H. rewrite <- (firstn_skipn n l). apply in_or_app. left; assumption.
Qed.

Lemma Sorted_firstn {A : Type} (R : A -> A -> Prop) (n : nat) (l : list A) :
  Sorted R l -> Sorted R (firstn n l).
Proof.
  revert l; induction n as [|n IH]; intros l H; simpl; [constructor|].
  destruct l as [|a l]; [constructor|].
  apply Sorted_inv in H as [Hs Hh]. constructor; auto.
  destruct n; simpl; [constructor|].
  destruct l as [|b l]; [constructor|].
  apply HdRel_inv in Hh. constructor. assumption.
Qed.

Lemma Sorted_adjacent {A : Type} (R : A -> A -> Prop) (l : list A) :
  Sorted R l ->
  forall i a b,
    nth_error l i = Some a -> nth_error l (S i) = Some b -> R a b.
Proof.
  induction 1 as [|x l Hs IH Hh]; intros i a b Ha Hb.
  - destruct i; discriminate.
  - destruct i as [|i]; simpl in *.
    + inversion Ha; subst. destruct l; [discriminate|].
      inversion Hb; subst. apply HdRel_inv in Hh. assumption.
    + eauto.
Qed.

(** C4: on a list whose entries carry their offer record, the ranking
    returns at most three entries, all taken from the list and none with
    [amount_approved == 0]; of two adjacent results the first has the
    strictly greater amount, or the same amount and a lower or equal rate;
    an entry is marked recommended exactly when its [bank_id] is the
    selected one.  The offers A (100000 at 0.08), B (100000 at 0.06) and C
    (0) rank to B, A. *)
Theorem rank_top_three :
  (forall offers selected_bank,
      Forall has_offer offers ->
      exists shown,
        rank offers selected_bank = Ok shown
        /\ length shown <= 3
        /\ (forall r, In r shown ->
              In (entry r) offers
              /\ exists o, offer (entry r) = Some o
                           /\ ~ (amount_approved o == 0)%Q)
        /\ (forall i a b,
              nth_error (map entry shown) i = Some a ->
              nth_error (map entry shown) (S i) = Some b ->
              precedes a b)
        /\ (forall r, In r shown ->
              recommended r = true <-> bank_id (entry r) = selected_bank))
  /\ (forall selected_bank rate,
         rank [bank "A" 100000 (8 # 100); bank "B" 100000 (6 # 100);
               bank "C" 0 rate] selected_bank
         = Ok [mkRanked (bank "B" 100000 (6 # 100))
                 (str_eqb (lit "B") selected_bank);
               mkRanked (bank "A" 100000 (8 # 100))
                 (str_eqb (lit "A") selected_bank)]).
Proof.
  split.
  - intros offers selected_bank Hwf. unfold rank.
    destruct (filterM_approved offers Hwf) as (kept & -> & Hincl & Hpos).
    cbn [bind].
    assert (Hk : Forall has_offer kept).
    { eapply Forall_impl; [|exact Hpos]. intros od (o & Ho & _).
      exists o; assumption. }
    destruct (sortM_sorted kept Hk) as (s & -> & Hperm & Hsorted).
    cbn [bind].
    eexists; split; [reflexivity|].
    assert (Hentries :
              map entry
                (map (fun od => mkRanked od (str_eqb (bank_id od) selected_bank))
                   (firstn 3 s)) = firstn 3 s).
    { rewrite map_map. cbn [entry]. apply map_id. }
    assert (Hfrom : forall od, In od (firstn 3 s) -> In od kept).
    { intros od Hin. apply In_firstn in Hin.
      apply Permutation_sym in Hperm. eapply Permutation_in; eauto. }
    split; [|split; [|split]].
    + rewrite length_map. apply firstn_le_length.
    + intros r Hr. apply in_map_iff in Hr as (od & <- & Hin). cbn [entry].
      apply Hfrom in Hin. split; [apply Hincl; assumption|].
      rewrite Forall_forall in Hpos. destruct (Hpos od Hin) as (o & Ho & Hlt).
      exists o. split; [assumption|]. intros Hz. lra.
    + rewrite Hentries. apply Sorted_adjacent.
      apply Sorted_firstn. assumption.
    + intros r Hr. apply in_map_iff in Hr as (od & <- & Hin).
      cbn [entry recommended]. apply str_eqb_eq.
  - intros selected_bank rate. reflexivity.
Qed.

(** Without the offer record of an entry nothing is shown: line 112 throws
    on the first such entry. *)
Lemma rank_needs_offers (offers : list BankOffer) (selected_bank : str) :
  (exists offerData, In offerData offers /\ offer offerData = None) ->
  exists e, rank offers selected_bank = Throw e.
Proof.
  intros (od & Hin & Hod). unfold rank.
  assert (H : exists e, filterM approved offers = Throw e).
  { induction offers as [|x l IH]; [contradiction|]. simpl.
    destruct (offer x) as [o|] eqn:Hx.
    - unfold approved at 1, offer_of. rewrite Hx. simpl.
      destruct Hin as [->|Hin]; [congruence|].
      destruct (IH Hin) as [e ->]. simpl. eauto.
    - unfold approved at 1, offer_of. rewrite Hx. simpl. eauto. }
  destruct H as [e ->]. simpl. eauto.
Qed.

Lemma rank_top_three_witness :
  exists shown,
    rank [bank "A" 100000 (8 # 100); bank "B" 90000 (6 # 100)] (lit "B")
    = Ok shown
    /\ length shown <= 3.
Proof.
  destruct (proj1 rank_top_three
              [bank "A" 100000 (8 # 100); bank "B" 90000 (6 # 100)] (lit "B"))
    as (shown & H & Hlen & _).
  - repeat constructor; eexists; reflexivity.
  - exists shown. split; assumption.
Defined.

End RankingFacts.

(** ** The fallback extractor *)

Section ExtractorFacts.
Import Chatbot PurposeSpec RoundTrip.

(** A match consumes a prefix that belongs to the language of the pattern,
    hands the rest to its continuation, and writes only the capturing
    parentheses of the pattern on the way. *)
Lemma run_sound (icase : bool) (whole : nat) (R : Type) (r : regex) :
  forall (s : str) (c : captures) (k : cont R) (x : R),
    run icase whole r s c k = Some x ->
    exists u s' c',
      s = u ++ s'
      /\ Language.matches icase r u
      /\ k s' c' = Some x
      /\ forall i, ~ In i (group_ids r) -> capture i c' = capture i c.
Proof.
  induction r as [ |a|p| |r1 IH1 r2 IH2|r1 IH1 r2 IH2|r1 IH1|j r1 IH1];
    intros s c k x H; simpl in H.
  - exists [], s, c. repeat split; auto. constructor.
  - destruct s as [|y s]; [discriminate|].
    destruct (same_char icase a y) eqn:E; [|discriminate].
    exists [y], s, c. repeat split; auto. constructor; assumption.
  - destruct s as [|y s]; [discriminate|].
    destruct (p y) eqn:E; [|discriminate].
    exists [y], s, c. repeat split; auto. constructor; assumption.
  - destruct (length s =? whole); [|discriminate].
    exists [], s, c. repeat split; auto. constructor.
  - apply IH1 in H as (u1 & s1 & c1 & -> & Hm1 & H & Hc1).
    apply IH2 in H as (u2 & s2 & c2 & -> & Hm2 & H & Hc2).
    exists (u1 ++ u2), s2, c2. rewrite app_assoc. repeat split; auto.
    + constructor; assumption.
    + intros i Hi. simpl in Hi. rewrite in_app_iff in Hi.
      rewrite Hc2, Hc1; tauto.
  - destruct (run icase whole r1 s c k) eqn:E.
    + inversion H; subst. apply IH1 in E as (u & s1 & c1 & -> & Hm & E & Hc1).
      exists u, s1, c1. repeat split; auto.
      * apply Language.matches_alt_l; assumption.
      * intros i Hi. apply Hc1. simpl in Hi. rewrite in_app_iff in Hi. tauto.
    + apply IH2 in H as (u & s2 & c2 & -> & Hm & H & Hc2).
      exists u, s2, c2. repeat split; auto.
      * apply Language.matches_alt_r; assumption.
      * intros i Hi. apply Hc2. simpl in Hi. rewrite in_app_iff in Hi. tauto.
  - revert H. generalize (length s) at 1. intros fuel. revert s c.
    induction fuel as [|fuel IHf]; intros s c H; simpl in H.
    + exists [], s, c. repeat split; auto. constructor.
    + match type of H with
      | match ?m with _ => _ end = _ => destruct m eqn:E
      end.
      * inversion H; subst.
        apply IH1 in E as (u1 & s1 & c1 & -> & Hm1 & E & Hc1).
        destruct (length s1 <? length (u1 ++ s1)); [|discriminate].
        apply IHf in E as (u2 & s2 & c2 & -> & Hm2 & E & Hc2).
        exists (u1 ++ u2), s2, c2. rewrite app_assoc. repeat split; auto.
        -- constructor; assumption.
        -- intros i Hi. rewrite Hc2, Hc1; auto.
      * exists [], s, c. repeat split; auto. constructor.
  - apply IH1 in H as (u & s1 & c1 & -> & Hm & H & Hc1).
    eexists u, s1, _. split; [reflexivity|].
    split; [constructor; assumption|]. split; [exact H|].
    intros i Hi. simpl in Hi. simpl.
    destruct (i =? j) eqn:E.
    + apply Nat.eqb_eq in E. subst. tauto.
    + apply Hc1. tauto.
Qed.

Lemma run_writes_own_groups (icase : bool) (whole : nat) (R : Type)
      (r : regex) (s : str) (c : captures) (k : cont R) (x : R) :
  run icase whole r s c k = Some x ->
  exists s' c',
    k s' c' = Some x
    /\ forall i, ~ In i (group_ids r) -> capture i c' = capture i c.
Proof.
  intros H. apply run_sound in H as (u & s' & c' & _ & _ & H & Hc). eauto.
Qed.

(** A continuation that always fails makes the match fail. *)
Lemma run_none (icase : bool) (whole : nat) (R : Type) (r : regex)
      (s : str) (c : captures) :
  run icase whole r s c (fun _ _ => @None R) = None.
Proof.
  destruct (run icase whole r s c (fun _ _ => None)) eqn:E; [|reflexivity].
  apply run_sound in E as (_ & _ & _ & _ & _ & E & _). discriminate.
Qed.

(** A match passes to its continuation nothing longer than its input. *)
Lemma run_ext (icase : bool) (whole : nat) (R : Type) (r : regex) :
  forall (s : str) (c : captures) (k1 k2 : cont R),
    (forall s1 c1, length s1 <= length s -> k1 s1 c1 = k2 s1 c1) ->
    run icase whole r s c k1 = run icase whole r s c k2.
Proof.
  induction r as [ |a|p| |r1 IH1 r2 IH2|r1 IH1 r2 IH2|r1 IH1|j r1 IH1];
    intros s c k1 k2 H; simpl.
  - apply H; lia.
  - destruct s as [|y s]; [reflexivity|].
    destruct (same_char icase a y); [|reflexivity]. apply H. simpl; lia.
  - destruct s as [|y s]; [reflexivity|].
    destruct (p y); [|reflexivity]. apply H. simpl; lia.
  - destruct (length s =? whole); [|reflexivity]. apply H; lia.
  - apply IH1. intros s1 c1 H1. apply IH2. intros s2 c2 H2. apply H. lia.
  - rewrite (IH1 s c k1 k2 H), (IH2 s c k1 k2 H). reflexivity.
  - generalize (length s) at 1 2. intros fuel. revert s c H.
    induction fuel as [|fuel IHf]; intros s c H; simpl.
    + apply H; lia.
    + rewrite (H s c (le_n _)).
      erewrite IH1; [reflexivity|].
      intros s1 c1 H1. simpl.
      destruct (length s1 <? length s) eqn:E; [|reflexivity].
      apply IHf. intros s2 c2 H2. apply H. lia.
  - apply IH1. intros s1 c1 H1. apply H. assumption.
Qed.

Section StarFacts.

Variables (icase : bool) (whole : nat) (R : Type) (r : regex) (k : cont R).

Lemma star_loop_nil (fuel : nat) (c : captures) :
  star_loop (run icase whole r) k fuel [] c = k [] c.
Proof.
  destruct fuel; [reflexivity|]. simpl.
  rewrite run_none. reflexivity.
Qed.

(** Fuel beyond the length of the input changes nothing. *)
Lemma star_loop_fuel (n : nat) :
  forall fuel1 fuel2 s c,
    length s <= n -> n <= fuel1 -> n <= fuel2 ->
    star_loop (run icase whole r) k fuel1 s c
    = star_loop (run icase whole r) k fuel2 s c.
Proof.
  induction n as [|n IH]; intros fuel1 fuel2 s c Hs H1 H2.
  - destruct s; [|simpl in Hs; lia]. rewrite !star_loop_nil. reflexivity.
  - destruct fuel1 as [|f1]; [lia|]. destruct fuel2 as [|f2]; [lia|].
    simpl.
    erewrite run_ext; [reflexivity|].
    intros s1 c1 Hs1. simpl.
    destruct (length s1 <? length s) eqn:E; [|reflexivity].
    apply Nat.ltb_lt in E. apply IH; lia.
Qed.

(** The equation of [r*]: one more iteration that consumes something, or
    none. *)
Lemma run_star (s : str) (c : captures) :
  run icase whole (Star r) s c k
  = match run icase whole r s c
            (fun s1 c1 =>
               if length s1 <? length s then run icase whole (Star r) s1 c1 k
               else None) with
    | Some x => Some x
    | None => k s c
    end.
Proof.
  simpl. destruct s as [|a s].
  - rewrite star_loop_nil. simpl. rewrite run_none. reflexivity.
  - simpl length. simpl star_loop.
    erewrite run_ext; [reflexivity|].
    intros s1 c1 Hs1. simpl.
    destruct (length s1 <? S (length s)) eqn:E; [|reflexivity].
    apply Nat.ltb_lt in E. apply (star_loop_fuel (length s1)); lia.
Qed.

End StarFacts.

Lemma firstn_consumed {A : Type} (u v : list A) :
  firstn (length (u ++ v) - length v) (u ++ v) = u.
Proof.
  rewrite length_app, Nat.add_sub. rewrite firstn_app, Nat.sub_diag.
  rewrite firstn_all. simpl. apply app_nil_r.
Qed.

Lemma search_eq (p : pattern) (whole pos : nat) (s : str) :
  search p whole pos s
  = match run (ignoreCase p) whole (source p) s []
            (fun s1 c1 => Some (s1, c1)) with
    | Some (s1, c1) => Some (Match pos (firstn (length s - length s1) s) c1)
    | None =>
        match s with
        | [] => None
        | _ :: s' => search p whole (S pos) s'
        end
    end.
Proof. destruct s; reflexivity. Qed.

(** What [exec] finds is a match: the text splits into what precedes it,
    the matched part, which belongs to the language of the pattern, and
    what follows; and no match starts further left. *)
Lemma search_sound (p : pattern) (whole : nat) (s : str) :
  forall pos m,
    search p whole pos s = Some m ->
    exists before rest,
      s = before ++ matched m ++ rest
      /\ index m = pos + length before
      /\ Language.matches (ignoreCase p) (source p) (matched m)
      /\ forall j, j < length before ->
           run (ignoreCase p) whole (source p) (skipn j s) []
             (fun s1 c1 => Some (s1, c1)) = None.
Proof.
  induction s as [|a s IH]; intros pos m H; rewrite search_eq in H;
    destruct (run (ignoreCase p) whole (source p) _ []
                (fun s1 c1 => Some (s1, c1))) as [[s1 c1]|] eqn:E;
    try discriminate.
  - apply run_sound in E as (u & s' & c' & Hs & Hm & E & _).
    inversion E; subst s' c'.
    rewrite Hs, firstn_consumed in H. inversion H; subst m.
    exists [], s1. simpl.
    repeat split; auto; intros j Hj; lia.
  - apply run_sound in E as (u & s' & c' & Hs & Hm & E & _).
    inversion E; subst s' c'.
    rewrite Hs, firstn_consumed in H. inversion H; subst m.
    exists [], s1. simpl.
    repeat split; auto; intros j Hj; lia.
  - apply IH in H as (before & rest & Hs & Hi & Hm & Hleft).
    exists (a :: before), rest. simpl. rewrite <- Hs.
    repeat split; auto; [lia|].
    intros [|j] Hj; [exact E | apply Hleft; lia].
Qed.

Lemma remove_first_cuts (p : pattern) (text : str) (m : match_result) :
  exec p text = Some m ->
  exists before rest,
    text = before ++ matched m ++ rest
    /\ remove_first p text = before ++ rest
    /\ Language.matches (ignoreCase p) (source p) (matched m).
Proof.
  intros H. unfold remove_first. rewrite H. unfold exec in H.
  apply search_sound in H as (before & rest & Hs & Hi & Hm & _).
  exists before, rest. split; [exact Hs|]. split; [|exact Hm].
  simpl in Hi. rewrite Hi. rewrite Hs at 1 2.
  rewrite firstn_app, Nat.sub_diag, firstn_all. simpl. rewrite app_nil_r.
  rewrite app_assoc, <- length_app.
  rewrite skipn_app, Nat.sub_diag, skipn_all. reflexivity.
Qed.

Lemma remove_first_none (p : pattern) (text : str) :
  exec p text = None -> remove_first p text = text.
Proof. intros H. unfold remove_first. rewrite H. reflexivity. Qed.

Lemma search_own_groups (p : pattern) (whole : nat) (s : str) :
  forall pos m i,
    search p whole pos s = Some m ->
    ~ In i (group_ids (source p)) ->
    capture i (groups m) = None.
Proof.
  induction s as [|a s IH]; intros pos m i H Hi; simpl in H.
  - destruct (run (ignoreCase p) whole (source p) [] []
                (fun s1 c1 => Some (s1, c1))) as [[s1 c1]|] eqn:E;
      [|discriminate].
    inversion H; subst. simpl.
    apply run_writes_own_groups in E as (s' & c' & E & Hc).
    inversion E; subst. rewrite (Hc i Hi). reflexivity.
  - destruct (run (ignoreCase p) whole (source p) (a :: s) []
                (fun s1 c1 => Some (s1, c1))) as [[s1 c1]|] eqn:E.
    + inversion H; subst. simpl.
      apply run_writes_own_groups in E as (s' & c' & E & Hc).
      inversion E; subst. rewrite (Hc i Hi). reflexivity.
    + eauto.
Qed.

(** [incomeMatch[2]] is [undefined] on every text: the income pattern has
    one capturing parenthesis. *)
Lemma income_second_group_undefined (text : str) :
  group_of (exec incomePattern text) 2 = VUndefined.
Proof.
  unfold group_of, exec.
  destruct (search incomePattern (length text) 0 text) as [m|] eqn:E;
    [|reflexivity].
  rewrite (search_own_groups incomePattern (length text) text 0 m 2 E);
    [reflexivity|].
  simpl. intros [H|H]; [discriminate | exact H].
Qed.

Lemma fallback_income_zero (v : value) :
  expected_income (parseLoanRequestFallback v) = VNum 0.
Proof.
  unfold parseLoanRequestFallback.
  destruct (negb (truthy v) || negb (is_string v)); [reflexivity|].
  cbv zeta. cbn [expected_income].
  rewrite income_second_group_undefined.
  cbn [truthy]. rewrite andb_false_r. reflexivity.
Qed.

(** C1, on the code: the extractor reads [incomeMatch[2]], which the income
    pattern never fills, so [expected_income] is [0] on every input; on the
    round-trip text with X = 500000, Y = 36 and Z = 200000 it returns the
    amount and the duration and loses the income. *)
Theorem round_trip_loses_income :
  parseLoanRequestFallback
    (VStr (lit "I need a loan for $500000 for 36 months to start a bakery with expected income of $200000"))
  = mkLoanData (VNum 500000) (VNum 36)
      (VStr (lit "s to start a bakery with expected")) (VNum 0)
  /\ group_of
       (exec incomePattern
          (lit "I need a loan for $500000 for 36 months to start a bakery with expected income of $200000"))
       1
     = VStr (lit "200000")
  /\ forall v, expected_income (parseLoanRequestFallback v) = VNum 0.
Proof.
  split; [vm_compute; reflexivity|].
  split; [vm_compute; reflexivity|].
  exact fallback_income_zero.
Qed.

Lemma fold_phrases (ps : list pattern) (s : str) :
  fold_left
    (fun purpose phrase =>
       if is_string purpose
       then VStr (remove_first phrase (as_str purpose))
       else purpose) ps (VStr s)
  = VStr (fold_left (fun s phrase => remove_first phrase s) ps s).
Proof.
  revert s; induction ps as [|p ps IH]; intros s; simpl; [reflexivity|].
  apply IH.
Qed.

Lemma first_purpose_secondary (ps : list pattern) (text : str) :
  first_purpose ps text (VStr [])
  = VStr match secondary ps text with
         | Some c => c
         | None => []
         end.
Proof.
  induction ps as [|p ps IH]; [reflexivity|].
  cbn [first_purpose secondary]. unfold first_capture, group_of, is_match.
  destruct (exec p text) as [m|]; [|exact IH].
  destruct (capture 1 (groups m)) as [[|a c]|]; try exact IH.
  reflexivity.
Qed.

Lemma purpose_body_ok (text : str) :
  purpose_body text (VStr text) = Ok (VStr (purpose_of text)).
Proof.
  unfold purpose_body. rewrite fold_phrases.
  cbn [is_string as_str]. fold (cut text). fold (stripped text).
  unfold purpose_of.
  destruct (stripped text) as [|a s] eqn:E.
  - cbn [truthy str_eqb negb]. rewrite first_purpose_secondary. reflexivity.
  - reflexivity.
Qed.

(** C7 as stated fails twice.  Only the first match of a pattern is cut
    out: a second number survives where the claim removes every match.
    And when nothing is left and no secondary pattern matches, the purpose
    is the empty string, not [null]. *)
Lemma purpose_not_as_claimed :
  (purpose (parseLoanRequestFallback
              (VStr (lit "I need $5,000 for 12 months to buy 3 trucks")))
   = VStr (lit "I need  for s to buy 3 trucks")
   /\ purpose_as_claimed (lit "I need $5,000 for 12 months to buy 3 trucks")
      = VStr (lit "I need  for  months to buy  trucks"))
  /\ (purpose (parseLoanRequestFallback (VStr (lit "$500"))) = VStr []
      /\ purpose_as_claimed (lit "$500") = VNull).
Proof. vm_compute. repeat split. Qed.

(** C7, amended: for a non-empty text the purpose is the text without the
    first match of each of the seven patterns, cut in the order of the
    array (the lead-in phrases "I need a loan for", "I want to borrow",
    "loan for", "borrow", then the amount, the duration and the income),
    trimmed, without a leading "to " and then a leading "for "; when that
    is empty, it is the trimmed capture of the first secondary pattern
    that captures something in the original text; and when neither does,
    it is the empty string. *)
Theorem fallback_purpose (text : str) :
  text <> [] ->
  purpose (parseLoanRequestFallback (VStr text)) = VStr (purpose_of text).
Proof.
  intros H. unfold parseLoanRequestFallback.
  apply truthy_str in H. rewrite H.
  cbn [is_string negb orb]. cbv zeta. cbn [purpose as_str].
  unfold js_or at 1. rewrite H.
  rewrite purpose_body_ok. reflexivity.
Qed.

Lemma fallback_purpose_witness :
  purpose (parseLoanRequestFallback (VStr (lit "loan for $500.25")))
  = VStr (lit "$500.25").
Proof.
  apply (fallback_purpose (lit "loan for $500.25")). discriminate.
Defined.

(** *** The round trip

    The extractor on the texts of the round trip, for all numerals. *)

Section Equations.

Variables (icase : bool) (whole : nat) (R : Type).
Implicit Types (k : cont R) (c : captures) (s : str).

(** The equations of the matcher, one per construct. *)
Lemma run_eps s c k : run icase whole Eps s c k = k s c.
Proof. reflexivity. Qed.

Lemma run_chr a x s c k :
  run icase whole (Chr a) (x :: s) c k
  = if same_char icase a x then k s c else None.
Proof. reflexivity. Qed.

Lemma run_class p x s c k :
  run icase whole (Class p) (x :: s) c k = if p x then k s c else None.
Proof. reflexivity. Qed.

Lemma run_seq r1 r2 s c k :
  run icase whole (Seq r1 r2) s c k
  = run icase whole r1 s c (fun s1 c1 => run icase whole r2 s1 c1 k).
Proof. reflexivity. Qed.

Lemma run_alt r1 r2 s c k :
  run icase whole (Alt r1 r2) s c k
  = match run icase whole r1 s c k with
    | Some x => Some x
    | None => run icase whole r2 s c k
    end.
Proof. reflexivity. Qed.

Lemma run_group i r s c k :
  run icase whole (Group i r) s c k
  = run icase whole r s c
      (fun s1 c1 => k s1 ((i, firstn (length s - length s1) s) :: c1)).
Proof. reflexivity. Qed.

(** Greedy: a run of the class is taken whole when the continuation
    accepts what follows ... *)
Lemma star_class_greedy (p : ascii -> bool) k x rest c :
  stops p rest -> k rest c = Some x ->
  forall ds, Forall (fun a => p a = true) ds ->
  run icase whole (Star (Class p)) (ds ++ rest) c k = Some x.
Proof.
  intros Hstop Hk ds Hds. induction Hds as [|d ds Hd Hds IH].
  - simpl app. rewrite run_star.
    destruct rest as [|a rest]; simpl in *.
    + assumption.
    + rewrite Hstop. assumption.
  - rewrite run_star. rewrite <- app_comm_cons. rewrite run_class. rewrite Hd.
    replace (length (ds ++ rest) <? length (d :: ds ++ rest)) with true
      by (symmetry; apply Nat.ltb_lt; simpl; lia).
    rewrite IH. reflexivity.
Qed.

(** ... and the match fails when the continuation rejects every split. *)
Lemma star_class_fail (p : ascii -> bool) k rest c :
  stops p rest ->
  forall ds, Forall (fun a => p a = true) ds ->
  (forall i, i <= length ds -> k (skipn i ds ++ rest) c = None) ->
  run icase whole (Star (Class p)) (ds ++ rest) c k = None.
Proof.
  intros Hstop ds Hds. induction Hds as [|d ds Hd Hds IH]; intros Hk.
  - simpl app. rewrite run_star. specialize (Hk 0 (le_n _)). simpl in Hk.
    destruct rest as [|a rest]; simpl in *.
    + assumption.
    + rewrite Hstop. assumption.
  - rewrite run_star. rewrite <- app_comm_cons. rewrite run_class. rewrite Hd.
    replace (length (ds ++ rest) <? length (d :: ds ++ rest)) with true
      by (symmetry; apply Nat.ltb_lt; simpl; lia).
    rewrite IH.
    + apply (Hk 0). lia.
    + intros i Hi. apply (Hk (S i)). simpl. lia.
Qed.

End Equations.

Section Search.

Variable p : pattern.
Variable whole : nat.

(** The search moves on where an attempt fails ... *)
Lemma search_skip pos a s :
  attempt p whole (a :: s) = None ->
  search p whole pos (a :: s) = search p whole (S pos) s.
Proof.
  intros H. rewrite search_eq. unfold attempt in H. rewrite H. reflexivity.
Qed.

Lemma search_skip_run pos ds s :
  (forall i, i < length ds -> attempt p whole (skipn i ds ++ s) = None) ->
  search p whole pos (ds ++ s) = search p whole (pos + length ds) s.
Proof.
  revert pos. induction ds as [|d ds IH]; intros pos H.
  - simpl. rewrite Nat.add_0_r. reflexivity.
  - change ((d :: ds) ++ s) with (d :: (ds ++ s)). rewrite search_skip.
    + rewrite IH.
      * f_equal. simpl. lia.
      * intros i Hi. apply (H (S i)). simpl. lia.
    + apply (H 0). simpl. lia.
Qed.

(** ... and stops at the first one that succeeds. *)
Lemma search_hit pos u s c1 :
  attempt p whole (u ++ s) = Some (s, c1) ->
  search p whole pos (u ++ s) = Some (Match pos u c1).
Proof.
  intros H. rewrite search_eq. unfold attempt in H. rewrite H.
  rewrite firstn_consumed. reflexivity.
Qed.

Lemma search_hit_at pos t u s c1 :
  t = u ++ s -> attempt p whole t = Some (s, c1) ->
  search p whole pos t = Some (Match pos u c1).
Proof. intros ->. apply search_hit. Qed.

Lemma search_end pos :
  attempt p whole [] = None -> search p whole pos [] = None.
Proof.
  intros H. rewrite search_eq. unfold attempt in H. rewrite H. reflexivity.
Qed.

End Search.

Lemma digit_cases (d : ascii) :
  is_digit d = true ->
  In d (lit "0123456789").
Proof.
  destruct d as [[] [] [] [] [] [] [] []]; intros H; try discriminate H;
    simpl; tauto.
Qed.

(** The ten cases of a digit. *)
Ltac digit_case d H :=
  apply digit_cases in H; simpl in H;
  repeat (destruct H as [H|H]; [subst d|]); [..|contradiction].

Lemma skipn_run_cases (ds tail : str) (i : nat) :
  digits ds ->
  (exists d r, skipn i ds ++ tail = d :: r /\ is_digit d = true)
  \/ skipn i ds ++ tail = tail.
Proof.
  intros H. revert i. induction H as [|d ds Hd Hds IH]; intros i.
  - right. destruct i; reflexivity.
  - destruct i as [|i]; simpl.
    + left. eauto.
    + apply IH.
Qed.

Lemma skipn_run_head (ds tail : str) (i : nat) :
  digits ds -> i < length ds ->
  exists d r, skipn i ds ++ tail = d :: r /\ is_digit d = true.
Proof.
  intros H. revert i. induction H as [|d ds Hd Hds IH]; intros i Hi.
  - simpl in Hi. lia.
  - destruct i as [|i]; simpl.
    + eauto.
    + apply IH. simpl in Hi. lia.
Qed.

(** A pattern that no digit can start is not found inside a numeral. *)
Lemma search_skip_numeral (p : pattern) (whole pos : nat) (ds s : str) :
  digits ds ->
  (forall d r, is_digit d = true -> attempt p whole (d :: r) = None) ->
  search p whole pos (ds ++ s) = search p whole (pos + length ds) s.
Proof.
  intros Hds H. apply search_skip_run. intros i Hi.
  destruct (skipn_run_head ds s i Hds Hi) as (d & r & -> & Hd). auto.
Qed.

(** Stepping through a match: tests on known characters are evaluated,
    the equations of the matcher are applied, and what an iteration of
    [*] leaves is shorter than what it got. *)
Ltac eval_test :=
  match goal with
  | |- context [if ?t then _ else _] =>
      let b := eval vm_compute in t in
      lazymatch b with
      | true => change t with true
      | false => change t with false
      end
  end.

Ltac shorter :=
  match goal with
  | |- context [length ?a <? length ?b] =>
      replace (length a <? length b) with true
        by (symmetry; apply Nat.ltb_lt; simpl; rewrite ?length_app; simpl; lia)
  end.

Ltac step :=
  first [ rewrite run_seq | rewrite run_alt | rewrite run_eps
        | rewrite run_group | rewrite run_chr | rewrite run_class
        | eval_test | shorter ];
  cbv iota beta.

Section Plus.

Variables (icase : bool) (whole : nat) (R : Type).

(** [\d+] on a numeral: all of it, or nothing when every split fails. *)
Lemma plus_class_greedy (p : ascii -> bool) (k : cont R) x rest c ds :
  ds <> [] -> Forall (fun a => p a = true) ds -> stops p rest ->
  k rest c = Some x ->
  run icase whole (Plus (Class p)) (ds ++ rest) c k = Some x.
Proof.
  intros Hne Hds Hstop Hk. destruct Hds as [|d ds Hd Hds]; [congruence|].
  unfold Plus. rewrite run_seq, <- app_comm_cons, run_class, Hd.
  apply star_class_greedy; assumption.
Qed.

Lemma plus_class_fail (p : ascii -> bool) (k : cont R) rest c ds :
  Forall (fun a => p a = true) ds -> stops p rest ->
  (forall i, 0 < i <= length ds -> k (skipn i ds ++ rest) c = None) ->
  run icase whole (Plus (Class p)) (ds ++ rest) c k = None.
Proof.
  intros Hds Hstop Hk. unfold Plus. destruct Hds as [|d ds Hd Hds].
  - rewrite run_seq. simpl app.
    destruct rest as [|a rest]; [reflexivity|].
    rewrite run_class. simpl in Hstop. rewrite Hstop. reflexivity.
  - rewrite run_seq, <- app_comm_cons, run_class, Hd.
    apply star_class_fail; try assumption.
    intros i Hi. apply (Hk (S i)). simpl. lia.
Qed.

End Plus.

(** One more iteration of [*]. *)
Ltac star := rewrite run_star; repeat step.

(** The syntax of the patterns, spelled out. *)
Ltac expose :=
  unfold attempt;
  unfold amountPattern, durationPattern, incomePattern;
  unfold source, ignoreCase, income_lead, money;
  unfold Opt, digit, space, W;
  cbn [Rep Word OneOf lit list_ascii_of_string app].

(** The amount pattern at a dollar sign and a numeral. *)
Lemma amount_hit (whole : nat) (dx rest : str) :
  numeral dx ->
  attempt amountPattern whole ("$"%char :: dx ++ " "%char :: rest)
  = Some (" "%char :: rest, [(1, dx)]).
Proof.
  intros [Hne Hdx].
  expose.
  remember (Plus (Class is_digit)) as num eqn:E.
  repeat step. subst num.
  erewrite plus_class_greedy;
    [reflexivity | assumption | assumption | reflexivity |].
  repeat step. star. rewrite firstn_consumed. reflexivity.
Qed.

(** The duration pattern needs its unit word: a numeral followed by
    " f" is no duration. *)
Lemma after_number_fail (whole : nat) (R : Type) (u : str) (c : captures)
      (k : cont R) :
  (exists d r, u = d :: r /\ is_digit d = true)
  \/ (exists r, u = lit " f" ++ r) ->
  run true whole (Seq (Star space) (Alt (W "month") (W "year"))) u c k = None.
Proof.
  expose.
  intros [(d & r & -> & Hd) | (r & ->)].
  - digit_case d Hd; repeat step; star; reflexivity.
  - cbn [app]. repeat step. star. star. reflexivity.
Qed.

Lemma duration_miss (whole : nat) (ds rest : str) :
  digits ds ->
  forall i, i < length ds ->
  attempt durationPattern whole (skipn i ds ++ lit " f" ++ rest) = None.
Proof.
  intros Hds i Hi.
  assert (Hd : digits (skipn i ds)).
  { unfold digits in *. rewrite Forall_forall in *. intros a Ha.
    apply Hds. rewrite <- (firstn_skipn i ds). apply in_or_app. right; assumption. }
  unfold attempt, durationPattern, source, ignoreCase, digit.
  remember (Plus (Class is_digit)) as num eqn:E.
  remember (Seq (Star space) (Alt (W "month") (W "year"))) as unit eqn:Eu.
  repeat step. subst num.
  apply plus_class_fail; [assumption | reflexivity |].
  intros j Hj. subst unit. apply after_number_fail.
  destruct (skipn_run_cases (skipn i ds) (lit " f" ++ rest) j Hd)
    as [(d & r & -> & Hdd) | ->]; [left; eauto | right; eauto].
Qed.

Lemma duration_hit (whole : nat) (dy rest : str) :
  numeral dy ->
  attempt durationPattern whole (dy ++ lit " month" ++ rest)
  = Some (rest, [(1, dy)]).
Proof.
  intros [Hne Hdy].
  expose.
  remember (Plus (Class is_digit)) as num eqn:E.
  repeat step. subst num.
  erewrite plus_class_greedy;
    [reflexivity | assumption | assumption | reflexivity |].
  repeat step. rewrite firstn_consumed. star. star. reflexivity.
Qed.


Lemma income_hit (whole : nat) (dz : str) :
  numeral dz ->
  attempt incomePattern whole (lit "income of $" ++ dz)
  = Some ([], [(1, dz)]).
Proof.
  intros [Hne Hdz]. rewrite <- (app_nil_r dz) at 1.
  expose.
  remember (Plus (Class is_digit)) as num eqn:E.
  repeat step. star. star. star. star. subst num.
  erewrite plus_class_greedy;
    [reflexivity | assumption | assumption | reflexivity |].
  repeat step. star. rewrite firstn_consumed. reflexivity.
Qed.

Ltac no_digit :=
  intros whole d r Hd; digit_case d Hd; unfold attempt, nth, removePhrases;
  expose; repeat step; reflexivity.

Lemma phrase1_no_digit : no_digit_start (nth 1 removePhrases amountPattern).
Proof. no_digit. Qed.
Lemma phrase2_no_digit : no_digit_start (nth 2 removePhrases amountPattern).
Proof. no_digit. Qed.
Lemma phrase3_no_digit : no_digit_start (nth 3 removePhrases amountPattern).
Proof. no_digit. Qed.
Lemma phrase6_no_digit : no_digit_start (nth 6 removePhrases amountPattern).
Proof. no_digit. Qed.
Lemma income_no_digit : no_digit_start incomePattern.
Proof. no_digit. Qed.

Lemma amount5_hit (whole : nat) (dx rest : str) :
  numeral dx ->
  attempt (nth 4 removePhrases amountPattern) whole
    ("$"%char :: dx ++ " "%char :: rest)
  = Some (" "%char :: rest, []).
Proof.
  intros [Hne Hdx]. unfold nth, removePhrases.
  expose.
  remember (Plus (Class is_digit)) as num eqn:E.
  repeat step. subst num.
  erewrite plus_class_greedy;
    [reflexivity | assumption | assumption | reflexivity |].
  repeat step. star. reflexivity.
Qed.

Lemma income7_hit (whole : nat) (dz : str) :
  numeral dz ->
  attempt (nth 6 removePhrases amountPattern) whole (lit "income of $" ++ dz)
  = Some ([], []).
Proof.
  intros [Hne Hdz]. rewrite <- (app_nil_r dz) at 1.
  unfold nth, removePhrases. expose.
  remember (Plus (Class is_digit)) as num eqn:E.
  repeat step. star. star. star. star. subst num.
  erewrite plus_class_greedy;
    [reflexivity | assumption | assumption | reflexivity |].
  repeat step. star. reflexivity.
Qed.

Lemma remove_first_at (p : pattern) (before u rest : str) (c : captures)
      (i : nat) :
  exec p (before ++ u ++ rest) = Some (Match i u c) ->
  i = length before ->
  remove_first p (before ++ u ++ rest) = before ++ rest.
Proof.
  intros H ->. unfold remove_first. rewrite H. simpl.
  rewrite firstn_app, Nat.sub_diag, firstn_all. simpl. rewrite app_nil_r.
  rewrite app_assoc, <- length_app.
  rewrite skipn_app, Nat.sub_diag, skipn_all. reflexivity.
Qed.


(** *** Words *)

Lemma run_word (icase : bool) (whole : nat) (R : Type) (w : str) :
  forall (s : str) (c : captures) (k : cont R),
    run icase whole (Word w) s c k
    = if starts icase w s then k (skipn (length w) s) c else None.
Proof.
  induction w as [|a w IH]; intros s c k; [reflexivity|].
  cbn [Word]. rewrite run_seq.
  destruct s as [|x s]; [reflexivity|].
  rewrite run_chr. cbn [starts].
  destruct (same_char icase a x); [|reflexivity].
  rewrite IH. reflexivity.
Qed.

Lemma starts_app (icase : bool) (w : str) :
  forall s x, length w <= length s ->
              starts icase w (s ++ x) = starts icase w s.
Proof.
  induction w as [|a w IH]; intros s x H; [reflexivity|].
  destruct s as [|y s]; [simpl in H; lia|].
  simpl. rewrite IH; [reflexivity | simpl in H; lia].
Qed.

Lemma clear_of_at (ws : list str) (w : str) (P dz : str) (i : nat) :
  clear_of ws P = true -> In w ws -> length w <= 26 -> i < length P ->
  starts true w (skipn i P ++ purpose_tail ++ dz) = false.
Proof.
  intros H Hw Hlen. revert i. induction P as [|a P IH]; intros i Hi.
  - simpl in Hi. lia.
  - simpl in H. apply andb_true_iff in H as [Hall Hrest].
    destruct i as [|i].
    + rewrite forallb_forall in Hall. specialize (Hall w Hw).
      apply negb_true_iff in Hall.
      cbn [skipn]. rewrite app_assoc, starts_app; [exact Hall|].
      rewrite length_app. unfold purpose_tail. simpl. lia.
    + cbn [skipn]. apply IH; [assumption | simpl in Hi; lia].
Qed.

Lemma plain_at (P rest : str) (i : nat) :
  Forall (fun a => plain_char a = true) P -> i < length P ->
  exists a r, skipn i P ++ rest = a :: r /\ plain_char a = true.
Proof.
  intros H. revert i. induction H as [|a P Ha HP IH]; intros i Hi.
  - simpl in Hi. lia.
  - destruct i as [|i]; simpl.
    + eauto.
    + apply IH. simpl in Hi. lia.
Qed.

Lemma plain_char_spec (a : ascii) :
  plain_char a = true -> is_digit a = false /\ Ascii.eqb "$" a = false.
Proof.
  unfold plain_char. rewrite negb_true_iff, orb_false_iff.
  intros [H1 H2]. split; [assumption|]. rewrite Ascii.eqb_sym. assumption.
Qed.

Lemma same_char_dollar (icase : bool) (a : ascii) :
  same_char icase "$" a = Ascii.eqb "$" a.
Proof.
  destruct icase; [|reflexivity].
  destruct a as [[] [] [] [] [] [] [] []]; reflexivity.
Qed.

Ltac no_plain :=
  intros whole a r Ha; apply plain_char_spec in Ha as [Hd Hs];
  unfold attempt, nth, removePhrases; expose;
  remember (Plus (Class is_digit)) as num eqn:E;
  repeat step; rewrite ?same_char_dollar, ?Hs; cbv iota; repeat step;
  subst num; unfold Plus; repeat step; rewrite ?Hd; reflexivity.

Lemma amount_no_plain : no_plain_start amountPattern.
Proof. no_plain. Qed.
Lemma phrase4_no_plain : no_plain_start (nth 4 removePhrases amountPattern).
Proof. no_plain. Qed.
Lemma duration_no_plain : no_plain_start durationPattern.
Proof. no_plain. Qed.

Lemma word_miss (w : string) (whole : nat) (s : str) :
  starts true (lit w) s = false ->
  attempt (Pattern (W w) true) whole s = None.
Proof.
  intros H. unfold attempt, source, ignoreCase, W. rewrite run_word, H.
  reflexivity.
Qed.

Lemma income_miss (tail : regex) (whole : nat) (s : str) :
  (forall w, In w reserved -> starts true w s = false) ->
  attempt (Pattern (income_lead tail) true) whole s = None.
Proof.
  intros H. unfold attempt, source, ignoreCase, income_lead, W.
  cbn [OneOf]. rewrite run_seq, !run_alt, run_seq, !run_word.
  rewrite !H by (unfold reserved; simpl; tauto).
  reflexivity.
Qed.

Section Purpose.

Variables (P dz : str).
Hypothesis HP : plain P.

Lemma reserved_short (w : str) : In w reserved -> length w <= 26.
Proof.
  unfold reserved. simpl.
  intros [<-|[<-|[<-|[<-|[<-|[<-|[<-|[<-|[]]]]]]]]]; simpl; lia.
Qed.

Lemma reserved_miss (i : nat) (w : str) :
  i < length P -> In w reserved ->
  starts true w (skipn i P ++ purpose_tail ++ dz) = false.
Proof.
  intros Hi Hw. destruct HP as [_ Hc].
  apply (clear_of_at reserved w P dz i Hc Hw (reserved_short w Hw) Hi).
Qed.

Lemma skip_purpose_plain (p : pattern) (whole pos : nat) :
  no_plain_start p ->
  search p whole pos (P ++ purpose_tail ++ dz)
  = search p whole (pos + length P) (purpose_tail ++ dz).
Proof.
  intros Hp. apply search_skip_run. intros i Hi.
  destruct HP as [Hplain _].
  destruct (plain_at P (purpose_tail ++ dz) i Hplain Hi) as (a & r & -> & Ha).
  apply Hp. assumption.
Qed.

Lemma skip_purpose_word (w : string) (whole pos : nat) :
  In (lit w) reserved ->
  search (Pattern (W w) true) whole pos (P ++ purpose_tail ++ dz)
  = search (Pattern (W w) true) whole (pos + length P) (purpose_tail ++ dz).
Proof.
  intros Hw. apply search_skip_run. intros i Hi.
  apply word_miss. apply reserved_miss; assumption.
Qed.

Lemma skip_purpose_income (tail : regex) (whole pos : nat) :
  search (Pattern (income_lead tail) true) whole pos (P ++ purpose_tail ++ dz)
  = search (Pattern (income_lead tail) true) whole (pos + length P)
      (purpose_tail ++ dz).
Proof.
  apply search_skip_run. intros i Hi.
  apply income_miss. intros w Hw. apply reserved_miss; assumption.
Qed.

End Purpose.

Ltac decide_none :=
  first [ vm_compute; reflexivity
        | unfold nth, removePhrases; expose;
          repeat (step || rewrite run_star); reflexivity ].

Ltac skip_chars := repeat (rewrite search_skip by decide_none).

Ltac spell := cbn [lit list_ascii_of_string app].

Section OnTheText.

Variables (dx dy P dz : str).
Hypotheses (Hx : numeral dx) (Hy : numeral dy) (Hz : numeral dz).
Hypothesis HP : plain P.

Lemma round_trip_amount :
  exec amountPattern (round_trip_text dx dy P dz)
  = Some (Match 18 ("$"%char :: dx) [(1, dx)]).
Proof.
  unfold exec. generalize (length (round_trip_text dx dy P dz)).
  intros whole. unfold round_trip_text. spell.
  skip_chars.
  apply (search_hit amountPattern whole 18 ("$"%char :: dx)).
  apply amount_hit. assumption.
Qed.

Lemma round_trip_duration :
  exists i,
    exec durationPattern (round_trip_text dx dy P dz)
    = Some (Match i (dy ++ lit " month") [(1, dy)]).
Proof.
  unfold exec. generalize (length (round_trip_text dx dy P dz)).
  intros whole. unfold round_trip_text. spell.
  skip_chars.
  rewrite search_skip_run
    by (intros i Hi; apply (duration_miss whole dx _ (proj2 Hx) i Hi)).
  skip_chars.
  eexists.
  eapply (search_hit_at durationPattern whole _ _ (dy ++ lit " month")).
  - rewrite <- app_assoc. reflexivity.
  - apply (duration_hit whole dy _ Hy).
Qed.

Lemma round_trip_income :
  exists i,
    exec incomePattern (round_trip_text dx dy P dz)
    = Some (Match i (lit "income of $" ++ dz) [(1, dz)]).
Proof.
  unfold exec. generalize (length (round_trip_text dx dy P dz)).
  intros whole. unfold round_trip_text. spell.
  skip_chars.
  rewrite (search_skip_numeral incomePattern whole _ dx _ (proj2 Hx)
             (income_no_digit whole)).
  skip_chars.
  rewrite (search_skip_numeral incomePattern whole _ dy _ (proj2 Hy)
             (income_no_digit whole)).
  skip_chars.
  unfold incomePattern.
  rewrite (skip_purpose_income P dz HP).
  unfold purpose_tail. spell.
  skip_chars.
  eexists.
  eapply (search_hit_at _ whole _ _ (lit "income of $" ++ dz) []).
  - rewrite app_nil_r. reflexivity.
  - apply (income_hit whole dz Hz).
Qed.

Lemma cut_phrase0 :
  remove_first (phrase 0) (round_trip_text dx dy P dz) = text1 dx dy P dz.
Proof.
  apply (remove_first_at (phrase 0) [] (lit "I need a loan for")
           (text1 dx dy P dz) [] 0);
    [|reflexivity].
  unfold exec.
  generalize (length ([] ++ lit "I need a loan for" ++ text1 dx dy P dz)).
  intros whole.
  apply (search_hit (phrase 0) whole 0 (lit "I need a loan for")).
  unfold text1. spell.
  unfold attempt, phrase, nth, removePhrases. expose. repeat step. reflexivity.
Qed.

Ltac no_word w Hno :=
  apply remove_first_none;
  unfold exec; generalize (length (text1 dx dy P dz)); intros whole;
  unfold text1; rewrite <- (app_nil_r dz); spell;
  skip_chars;
  rewrite (search_skip_numeral _ whole _ dx _ (proj2 Hx) (Hno whole));
  skip_chars;
  rewrite (search_skip_numeral _ whole _ dy _ (proj2 Hy) (Hno whole));
  skip_chars;
  rewrite (skip_purpose_word P (dz ++ []) HP w whole)
    by (unfold reserved; simpl; tauto);
  unfold purpose_tail; spell;
  skip_chars;
  rewrite (search_skip_numeral _ whole _ dz _ (proj2 Hz) (Hno whole));
  apply search_end; reflexivity.

Lemma cut_phrase1 :
  remove_first (phrase 1) (text1 dx dy P dz) = text1 dx dy P dz.
Proof.
  change (phrase 1) with (Pattern (W "i want to borrow") true).
  no_word "i want to borrow"%string phrase1_no_digit.
Qed.

Lemma cut_phrase2 :
  remove_first (phrase 2) (text1 dx dy P dz) = text1 dx dy P dz.
Proof.
  change (phrase 2) with (Pattern (W "loan for") true).
  no_word "loan for"%string phrase2_no_digit.
Qed.

Lemma cut_phrase3 :
  remove_first (phrase 3) (text1 dx dy P dz) = text1 dx dy P dz.
Proof.
  change (phrase 3) with (Pattern (W "borrow") true).
  no_word "borrow"%string phrase3_no_digit.
Qed.

Lemma cut_phrase4 :
  remove_first (phrase 4) (text1 dx dy P dz) = text2 dy P dz.
Proof.
  apply (remove_first_at (phrase 4) (lit " ") ("$"%char :: dx)
           (lit " for " ++ dy ++ lit " months to " ++ P ++ purpose_tail ++ dz)
           [] 1);
    [|reflexivity].
  unfold exec.
  generalize (length (lit " " ++ ("$"%char :: dx) ++ lit " for " ++ dy
                      ++ lit " months to " ++ P ++ purpose_tail ++ dz)).
  intros whole. spell. unfold phrase.
  skip_chars.
  apply (search_hit _ whole 1 ("$"%char :: dx)).
  apply amount5_hit. assumption.
Qed.

Lemma cut_phrase5 :
  remove_first (phrase 5) (text2 dy P dz) = text3 P dz.
Proof.
  assert (E : text2 dy P dz
              = lit "  for " ++ (dy ++ lit " month")
                ++ lit "s to " ++ P ++ purpose_tail ++ dz).
  { unfold text2. rewrite <- app_assoc. reflexivity. }
  rewrite E.
  apply (remove_first_at (phrase 5) (lit "  for ") (dy ++ lit " month")
           (lit "s to " ++ P ++ purpose_tail ++ dz) [(1, dy)] 6);
    [|reflexivity].
  rewrite <- E.
  unfold exec. generalize (length (text2 dy P dz)).
  intros whole. unfold text2. spell. unfold phrase.
  change (nth 5 removePhrases amountPattern) with durationPattern.
  skip_chars.
  eapply (search_hit_at durationPattern whole 6 _ (dy ++ lit " month")).
  - rewrite <- app_assoc. reflexivity.
  - apply (duration_hit whole dy _ Hy).
Qed.

Lemma cut_phrase6 :
  remove_first (phrase 6) (text3 P dz) = text4 P.
Proof.
  assert (E : text3 P dz = text4 P ++ (lit "income of $" ++ dz) ++ []).
  { unfold text3, text4, purpose_tail. rewrite app_nil_r.
    rewrite <- !app_assoc. reflexivity. }
  rewrite E.
  erewrite (remove_first_at (phrase 6) (text4 P) (lit "income of $" ++ dz)
              [] []);
    [apply app_nil_r | | ].
  - rewrite <- E.
    unfold exec. generalize (length (text3 P dz)). intros whole.
    unfold text3, text4. spell. unfold phrase.
    change (nth 6 removePhrases amountPattern)
      with (Pattern (income_lead money) true).
    skip_chars.
    rewrite (skip_purpose_income P dz HP).
    unfold purpose_tail. spell.
    skip_chars.
    eapply (search_hit_at _ whole _ _ (lit "income of $" ++ dz) []).
    + rewrite app_nil_r. reflexivity.
    + apply (income7_hit whole dz Hz).
  - unfold text4. simpl. rewrite length_app. simpl. lia.
Qed.

End OnTheText.

(** *** Trimming and the anchored patterns *)

Lemma drop_spaces_app (sp s : str) :
  Forall (fun a => is_space a = true) sp ->
  drop_spaces (sp ++ s) = drop_spaces s.
Proof. induction 1 as [|a sp Ha _ IH]; simpl; [|rewrite Ha]; auto. Qed.

Lemma drop_spaces_id (a : ascii) (s : str) :
  is_space a = false -> drop_spaces (a :: s) = a :: s.
Proof. intros H. simpl. rewrite H. reflexivity. Qed.

Lemma trim_between (sp1 sp2 : str) (a z : ascii) (mid : str) :
  Forall (fun a => is_space a = true) sp1 ->
  Forall (fun a => is_space a = true) sp2 ->
  is_space a = false -> is_space z = false ->
  trim (sp1 ++ (a :: mid ++ [z]) ++ sp2) = a :: mid ++ [z].
Proof.
  intros H1 H2 Ha Hz. unfold trim.
  rewrite (drop_spaces_app sp1 _ H1).
  rewrite <- app_comm_cons, (drop_spaces_id a _ Ha).
  rewrite app_comm_cons, rev_app_distr.
  rewrite drop_spaces_app
    by (apply Forall_rev; assumption).
  rewrite app_comm_cons, rev_app_distr. simpl rev at 1. cbn [app].
  rewrite Hz. simpl. rewrite rev_app_distr, rev_involutive. reflexivity.
Qed.

Lemma search_anchored_late (r : regex) (ic : bool) (whole : nat) (s : str) :
  forall pos, length s < whole ->
              search (Pattern (Seq Bol r) ic) whole pos s = None.
Proof.
  induction s as [|a s IH]; intros pos H; rewrite search_eq;
    cbn [source ignoreCase run];
    (replace (length _ =? whole) with false
      by (symmetry; apply Nat.eqb_neq; lia)).
  - reflexivity.
  - apply IH. simpl in H. lia.
Qed.

Lemma remove_anchored_miss (r : regex) (ic : bool) (text : str) :
  run ic (length text) r text [] (fun s1 c1 => Some (s1, c1)) = None ->
  remove_first (Pattern (Seq Bol r) ic) text = text.
Proof.
  intros H. apply remove_first_none. unfold exec. rewrite search_eq.
  cbn [source ignoreCase run]. rewrite Nat.eqb_refl, H.
  destruct text as [|a s]; [reflexivity|].
  apply search_anchored_late. simpl. lia.
Qed.

Lemma remove_anchored_hit (r : regex) (ic : bool) (u rest : str)
      (c : captures) :
  run ic (length (u ++ rest)) r (u ++ rest) [] (fun s1 c1 => Some (s1, c1))
  = Some (rest, c) ->
  remove_first (Pattern (Seq Bol r) ic) (u ++ rest) = rest.
Proof.
  intros H.
  apply (remove_first_at (Pattern (Seq Bol r) ic) [] u rest c 0);
    [|reflexivity].
  unfold exec. cbn [app].
  apply (search_hit (Pattern (Seq Bol r) ic) (length (u ++ rest)) 0 u rest c).
  unfold attempt.
  cbn [source ignoreCase run]. rewrite Nat.eqb_refl. exact H.
Qed.

Lemma round_trip_stripped (dx dy P dz : str) :
  numeral dx -> numeral dy -> numeral dz -> plain P ->
  stripped (round_trip_text dx dy P dz)
  = lit "s to " ++ P ++ lit " with expected".
Proof.
  intros Hx Hy Hz HP. unfold stripped, cut.
  change removePhrases
    with [phrase 0; phrase 1; phrase 2; phrase 3; phrase 4; phrase 5; phrase 6].
  cbn [fold_left].
  rewrite cut_phrase0.
  rewrite (cut_phrase1 dx dy P dz Hx Hy Hz HP).
  rewrite (cut_phrase2 dx dy P dz Hx Hy Hz HP).
  rewrite (cut_phrase3 dx dy P dz Hx Hy Hz HP).
  rewrite (cut_phrase4 dx dy P dz Hx), (cut_phrase5 dy P dz Hy),
    (cut_phrase6 P dz Hz HP).
  assert (E : text4 P
              = lit "  " ++ ("f"%char :: (lit "or s to " ++ P
                                         ++ lit " with expecte") ++ ["d"%char])
                ++ lit " ").
  { unfold text4. spell. rewrite <- !app_assoc. reflexivity. }
  rewrite E, trim_between;
    try reflexivity; try (repeat constructor).
  unfold leadingTo, leadingFor.
  rewrite (remove_anchored_miss (Seq (W "to") (Plus space)) true).
  - spell. rewrite <- !app_assoc. spell.
    apply (remove_anchored_hit _ true (lit "for ")
             (lit "s to " ++ P ++ lit " with expected") []).
    generalize (length (lit "for " ++ lit "s to " ++ P ++ lit " with expected")).
    intros whole. expose. unfold Plus. repeat step. star. reflexivity.
  - generalize (length ("f"%char :: (lit "or s to " ++ P ++ lit " with expecte")
                        ++ ["d"%char])).
    intros whole. expose. unfold Plus. repeat step. reflexivity.
Qed.

Lemma take_while_digits (ds : str) : digits ds -> take_while is_digit ds = ds.
Proof. induction 1 as [|d ds Hd _ IH]; simpl; [|rewrite Hd, IH]; reflexivity. Qed.

Lemma drop_while_digits (ds : str) : digits ds -> drop_while is_digit ds = [].
Proof. induction 1 as [|d ds Hd _ IH]; simpl; [|rewrite Hd]; auto. Qed.

Lemma strip_commas_digits (ds : str) : digits ds -> strip_commas ds = ds.
Proof.
  induction 1 as [|d ds Hd _ IH]; simpl; [reflexivity|].
  fold (strip_commas ds). rewrite IH.
  replace (Ascii.eqb d ",") with false; [reflexivity|].
  digit_case d Hd; reflexivity.
Qed.

Lemma parseFloat_numeral (ds : str) :
  numeral ds ->
  parseFloat (strip_commas ds) = number_value (digits_val 0 ds) 1.
Proof.
  intros [Hne Hds]. rewrite (strip_commas_digits ds Hds). unfold parseFloat.
  rewrite (take_while_digits ds Hds), (drop_while_digits ds Hds).
  destruct ds; [congruence | reflexivity].
Qed.

Lemma parseInt_numeral (ds : str) :
  numeral ds -> parseInt ds = number_value (digits_val 0 ds) 1.
Proof.
  intros [Hne Hds]. unfold parseInt. rewrite (take_while_digits ds Hds).
  destruct ds; [congruence | reflexivity].
Qed.

Lemma round_trip_fields (dx dy P dz : str) :
  numeral dx -> numeral dy -> numeral dz -> plain P ->
  parseLoanRequestFallback (VStr (round_trip_text dx dy P dz))
  = mkLoanData (number_value (digits_val 0 dx) 1)
      (number_value (digits_val 0 dy) 1)
      (VStr (lit "s to " ++ P ++ lit " with expected")) (VNum 0)
  /\ group_of (exec incomePattern (round_trip_text dx dy P dz)) 1 = VStr dz.
Proof.
  intros Hx Hy Hz HP. split.
  - unfold parseLoanRequestFallback.
    change (negb (truthy (VStr (round_trip_text dx dy P dz)))
            || negb (is_string (VStr (round_trip_text dx dy P dz)))) with false.
    cbv zeta. cbn [as_str].
    rewrite (round_trip_amount dx dy P dz Hx).
    destruct (round_trip_duration dx dy P dz Hx Hy) as [i ->].
    rewrite income_second_group_undefined.
    unfold js_or at 2.
    change (truthy (VStr (round_trip_text dx dy P dz))) with true. cbv iota.
    rewrite purpose_body_ok. unfold purpose_of.
    rewrite (round_trip_stripped dx dy P dz Hx Hy Hz HP).
    cbn [group_of is_match groups capture Nat.eqb as_str try_catch lit
         list_ascii_of_string app].
    rewrite (parseFloat_numeral dx Hx), (parseInt_numeral dy Hy).
    destruct Hx as [Hx _], Hy as [Hy _].
    apply truthy_str in Hx, Hy. rewrite Hx, Hy.
    unfold js_or. cbn [truthy andb]. rewrite andb_false_r. reflexivity.
  - destruct (round_trip_income dx dy P dz Hx Hy Hz HP) as [i ->]. reflexivity.
Qed.

(** Decimal rendering. *)
Lemma digits_of_value (fuel : nat) :
  forall n acc,
    (0 <= n < 2 ^ Z.of_nat fuel)%Z ->
    digits_val 0 (digits_of fuel n acc) = digits_val n acc
    /\ (digits acc -> digits (digits_of fuel n acc)).
Proof.
  induction fuel as [|fuel IH]; intros n acc Hn.
  - simpl in *. assert (n = 0%Z) by lia. subst. auto.
  - cbn [digits_of].
    assert (Hd : (0 <= n mod 10 < 10)%Z) by (apply Z.mod_pos_bound; lia).
    assert (Hdig : is_digit (ascii_of_nat (48 + Z.to_nat (n mod 10))) = true).
    { assert (Hc : exists k, Z.to_nat (n mod 10) = k /\ k < 10)
        by (exists (Z.to_nat (n mod 10)); split; [reflexivity | lia]).
      destruct Hc as (k & -> & Hk).
      do 10 (destruct k as [|k]; [reflexivity|]). lia. }
    assert (Hval : digit_val (ascii_of_nat (48 + Z.to_nat (n mod 10))) = (n mod 10)%Z).
    { unfold digit_val, code. rewrite nat_ascii_embedding by lia.
      rewrite Nat.add_comm, Nat.add_sub. lia. }
    destruct (n / 10 =? 0)%Z eqn:E.
    + apply Z.eqb_eq in E. split.
      * cbn [digits_val]. rewrite Hval. f_equal.
        rewrite (Z.div_mod n 10) at 2 by lia. lia.
      * intros Hacc. constructor; assumption.
    + assert (Hq : (0 <= n / 10 < 2 ^ Z.of_nat fuel)%Z).
      { split; [apply Z.div_pos; lia|].
        apply Z.div_lt_upper_bound; [lia|].
        rewrite Nat2Z.inj_succ, Z.pow_succ_r in Hn by lia. lia. }
      destruct (IH (n / 10)%Z
                  (ascii_of_nat (48 + Z.to_nat (n mod 10)) :: acc) Hq)
        as [Hv Hds].
      split.
      * rewrite Hv. cbn [digits_val]. rewrite Hval. f_equal.
        rewrite (Z.div_mod n 10) at 3 by lia. lia.
      * intros Hacc. apply Hds. constructor; assumption.
Qed.

Lemma digits_of_nonempty (fuel : nat) :
  forall n acc, acc <> [] -> digits_of fuel n acc <> [].
Proof.
  induction fuel as [|fuel IH]; intros n acc H; [exact H|].
  cbn [digits_of]. destruct (n / 10 =? 0)%Z; [discriminate|].
  apply IH. discriminate.
Qed.

Lemma show_Z_numeral (n : Z) :
  (0 <= n)%Z -> numeral (show_Z n) /\ digits_val 0 (show_Z n) = n.
Proof.
  intros Hn. unfold show_Z.
  assert (Hb : (0 <= n < 2 ^ Z.of_nat (S (Z.to_nat (Z.log2 n))))%Z).
  { split; [assumption|].
    rewrite Nat2Z.inj_succ, Z2Nat.id by apply Z.log2_nonneg.
    destruct (Z.eq_dec n 0) as [->|Hne]; [reflexivity|].
    apply Z.log2_spec. lia. }
  destruct (digits_of_value _ n [] Hb) as [Hv Hd].
  split; [split|].
  - cbn [digits_of]. destruct (n / 10 =? 0)%Z; [discriminate|].
    apply digits_of_nonempty. discriminate.
  - apply Hd. constructor.
  - rewrite Hv. reflexivity.
Qed.

(** X6: the round trip on numbers.  For all X > 0, Y > 0, Z >= 0 and every
    plain purpose, the extractor reads the amount off the numeral of X and
    the duration off the numeral of Y on the round-trip text: each is the
    binary64 nearest to the number, which is the number itself below
    [2^53]; it returns the purpose inside "s to ... with expected", and
    reports no income although the first capture of the income pattern is
    the numeral of Z. *)
Lemma round_trip_numbers (X Y Z : Z) (P : str) :
  (0 < X)%Z -> (0 < Y)%Z -> (0 <= Z)%Z -> plain P ->
  parseLoanRequestFallback (VStr (round_trip_request X Y Z P))
  = mkLoanData (number_value X 1) (number_value Y 1)
      (VStr (lit "s to " ++ P ++ lit " with expected")) (VNum 0)
  /\ group_of (exec incomePattern (round_trip_request X Y Z P)) 1
     = VStr (show_Z Z)
  /\ ((X < 2 ^ 53)%Z -> number_value X 1 = VNum (inject_Z X))
  /\ ((Y < 2 ^ 53)%Z -> number_value Y 1 = VNum (inject_Z Y)).
Proof.
  intros HX HY HZ HP.
  destruct (show_Z_numeral X) as [Hx Ex]; [lia|].
  destruct (show_Z_numeral Y) as [Hy Ey]; [lia|].
  destruct (show_Z_numeral Z) as [Hz _]; [lia|].
  assert (Hfields := round_trip_fields (show_Z X) (show_Z Y) P (show_Z Z)
                       Hx Hy Hz HP).
  rewrite Ex, Ey in Hfields. destruct Hfields as [H1 H2].
  split; [exact H1 | split; [exact H2 | split]];
    intros Hlt; apply number_value_exact; lia.
Qed.

Lemma round_trip_numbers_witness :
  parseLoanRequestFallback
    (VStr (round_trip_request 500000 36 200000 (lit "start a bakery")))
  = mkLoanData (VNum 500000) (VNum 36)
      (VStr (lit "s to start a bakery with expected")) (VNum 0)
  /\ parseLoanRequestFallback
       (VStr (round_trip_request 9007199254740993 36 0 (lit "start a bakery")))
     = mkLoanData (VNum 9007199254740992) (VNum 36)
         (VStr (lit "s to start a bakery with expected")) (VNum 0).
Proof.
  split.
  - refine (eq_trans
              (proj1 (round_trip_numbers 500000 36 200000
                        (lit "start a bakery") _ _ _ _)) _); try lia.
    + split; [repeat constructor | reflexivity].
    + vm_compute. reflexivity.
  - refine (eq_trans
              (proj1 (round_trip_numbers 9007199254740993 36 0
                        (lit "start a bakery") _ _ _ _)) _); try lia.
    + split; [repeat constructor | reflexivity].
    + vm_compute. reflexivity.
Defined.

(** *** What the extractor reads, on every text *)

Import ExtractorSpec.

(** *** Completeness of the matcher *)

(** A text of the language of an unanchored pattern is matched, whatever
    follows, when the continuation accepts what follows. *)
Lemma run_complete (icase : bool) (whole : nat) (R : Type) (r : regex)
      (u : str) :
  Language.matches icase r u ->
  unanchored r = true ->
  forall (s' : str) (c : captures) (k : cont R),
    (forall c', k s' c' <> None) ->
    run icase whole r (u ++ s') c k <> None.
Proof.
  induction 1 as [ |a x Hx|p x Hx| |r1 r2 u v H1 IH1 H2 IH2
                 |r1 r2 u H1 IH1|r1 r2 u H2 IH2|r
                 |r u v H1 IH1 H2 IH2|i r u H1 IH1];
    intros Hu s' c k Hk.
  - apply Hk.
  - simpl. rewrite Hx. apply Hk.
  - simpl. rewrite Hx. apply Hk.
  - discriminate.
  - apply andb_true_iff in Hu as [Hu1 Hu2].
    rewrite run_seq, <- app_assoc. apply IH1; [assumption|].
    intros c'. apply IH2; assumption.
  - apply andb_true_iff in Hu as [Hu1 Hu2]. rewrite run_alt.
    specialize (IH1 Hu1 s' c k Hk).
    destruct (run icase whole r1 (u ++ s') c k); congruence.
  - apply andb_true_iff in Hu as [Hu1 Hu2]. rewrite run_alt.
    destruct (run icase whole r1 (u ++ s') c k); [discriminate|].
    apply IH2; assumption.
  - rewrite run_star. simpl app.
    match goal with
    | |- match ?m with _ => _ end <> _ => destruct m
    end; [discriminate | apply Hk].
  - destruct u as [|a u]; [apply IH2; assumption|].
    rewrite run_star.
    match goal with
    | |- match ?m with _ => _ end <> _ => destruct m eqn:E
    end; [discriminate|].
    exfalso. rewrite <- app_assoc in E. revert E.
    apply IH1; [exact Hu|].
    intros c'.
    replace (length (v ++ s') <? length ((a :: u) ++ v ++ s')) with true
      by (symmetry; apply Nat.ltb_lt; simpl; rewrite !length_app; lia).
    apply IH2; assumption.
  - rewrite run_group. apply IH1; [exact Hu|].
    intros c'. apply Hk.
Qed.

Lemma search_finds (p : pattern) (whole : nat) (s : str) :
  attempt p whole s <> None ->
  forall before pos, search p whole pos (before ++ s) <> None.
Proof.
  intros H before. unfold attempt in H.
  induction before as [|a before IH]; intros pos; simpl app;
    rewrite search_eq.
  - destruct (run (ignoreCase p) whole (source p) s []
                (fun s1 c1 => Some (s1, c1))) as [[s1 c1]|];
      [discriminate | congruence].
  - destruct (run (ignoreCase p) whole (source p) (a :: before ++ s) []
                (fun s1 c1 => Some (s1, c1))) as [[s1 c1]|];
      [discriminate | apply IH].
Qed.

Lemma search_misses (p : pattern) (whole : nat) (s : str) :
  (forall i, i <= length s -> attempt p whole (skipn i s) = None) ->
  forall pos, search p whole pos s = None.
Proof.
  induction s as [|a s IH]; intros H pos; rewrite search_eq.
  - specialize (H 0 (le_n _)). unfold attempt in H. simpl in H.
    rewrite H. reflexivity.
  - pose proof (H 0 (Nat.le_0_l _)) as H0. unfold attempt in H0.
    simpl skipn in H0. rewrite H0.
    apply IH. intros i Hi. apply (H (S i)). simpl. lia.
Qed.

(** What a search finds is what the attempt at its position captured. *)
Lemma search_captures (p : pattern) (whole : nat) (s : str) :
  forall pos m,
    search p whole pos s = Some m ->
    exists s0 s1, attempt p whole s0 = Some (s1, groups m).
Proof.
  induction s as [|a s IH]; intros pos m H; rewrite search_eq in H.
  - fold (attempt p whole []) in H.
    destruct (attempt p whole []) as [[s1 c1]|] eqn:E; [|discriminate].
    inversion H; subst. exists [], s1. exact E.
  - fold (attempt p whole (a :: s)) in H.
    destruct (attempt p whole (a :: s)) as [[s1 c1]|] eqn:E.
    + inversion H; subst. exists (a :: s), s1. exact E.
    + apply IH in H. exact H.
Qed.

(** *** The amount *)

Lemma money_needs_digit (icase : bool) (whole : nat) (R : Type) (s : str)
      (c : captures) (k : cont R) :
  stops is_digit s -> run icase whole money s c k = None.
Proof.
  intros H. unfold money, Plus, digit. rewrite !run_seq.
  destruct s as [|a s]; [reflexivity|].
  rewrite run_class. simpl in H. rewrite H. reflexivity.
Qed.

Lemma no_digit_stops (s : str) : no_digit s -> stops is_digit s.
Proof. intros H. destruct H; simpl; auto. Qed.

Lemma no_digit_skipn (i : nat) (s : str) : no_digit s -> no_digit (skipn i s).
Proof.
  unfold no_digit. rewrite !Forall_forall. intros H a Ha. apply H.
  rewrite <- (firstn_skipn i s). apply in_or_app. right; assumption.
Qed.

Lemma amount_needs_digit (whole : nat) (s : str) :
  no_digit s -> attempt amountPattern whole s = None.
Proof.
  intros H. unfold attempt, amountPattern, source, ignoreCase, Opt.
  rewrite run_seq, run_alt, run_eps, !run_group.
  rewrite (money_needs_digit _ _ _ s) by (apply no_digit_stops; assumption).
  destruct s as [|a s]; [reflexivity|].
  rewrite run_chr. destruct (same_char false "$" a); [|reflexivity].
  rewrite run_group, money_needs_digit; [reflexivity|].
  apply no_digit_stops. inversion H; assumption.
Qed.

Lemma amount_absent (text : str) :
  no_digit text -> exec amountPattern text = None.
Proof.
  intros H. unfold exec. apply search_misses. intros i _.
  apply amount_needs_digit, no_digit_skipn, H.
Qed.

Lemma money_matches_digit (icase : bool) (d : ascii) :
  is_digit d = true -> Language.matches icase money [d].
Proof.
  intros H. unfold money, Plus, Opt, digit.
  change [d] with (([d] ++ []) ++ [] ++ []).
  constructor; constructor;
    try (constructor; assumption); try apply Language.matches_star_nil.
  apply Language.matches_alt_r. constructor.
Qed.

Lemma amount_present (text : str) :
  Exists (fun a => is_digit a = true) text -> exec amountPattern text <> None.
Proof.
  intros H. apply Exists_exists in H as (d & Hin & Hd).
  apply in_split in Hin as (before & rest & ->).
  unfold exec. apply search_finds. unfold attempt.
  change (d :: rest) with (([] ++ [d]) ++ rest).
  apply run_complete; [|reflexivity|discriminate].
  unfold amountPattern, source, Opt.
  constructor; [apply Language.matches_alt_r; constructor|].
  constructor. apply money_matches_digit. assumption.
Qed.

(** The first capture of a match of the amount pattern is a text of
    [\d+(?:,\d{3})*(?:\.\d{2})?]. *)
Lemma amount_captures (whole : nat) (s0 s1 : str) (c1 : captures) :
  attempt amountPattern whole s0 = Some (s1, c1) ->
  exists cap, capture 1 c1 = Some cap /\ Language.matches false money cap.
Proof.
  unfold attempt, amountPattern, source, ignoreCase. rewrite run_seq.
  intros H.
  apply run_sound in H as (u & s' & c' & _ & _ & H & _).
  rewrite run_group in H.
  apply run_sound in H as (cap & s2 & c2 & -> & Hm & H & _).
  rewrite firstn_consumed in H. inversion H; subst.
  exists cap. split; [reflexivity | assumption].
Qed.

Lemma money_head (icase : bool) (cap : str) :
  Language.matches icase money cap ->
  exists d w, cap = d :: w /\ is_digit d = true.
Proof.
  unfold money, Plus, digit. intros H.
  inversion H as [ | | | |r1 r2 u v H1 H2| | | | | ]; subst.
  inversion H1 as [ | | | |r1' r2' u' v' H3 H4| | | | | ]; subst.
  inversion H3; subst. simpl.
  do 2 eexists. split; [reflexivity | assumption].
Qed.

Lemma digits_val_nonneg (s : str) :
  forall acc, (0 <= acc)%Z -> (0 <= digits_val acc s)%Z.
Proof.
  induction s as [|a s IH]; intros acc H; cbn [digits_val]; [assumption|].
  apply IH. unfold digit_val. lia.
Qed.

Lemma parseFloat_number (d : ascii) (w : str) :
  is_digit d = true ->
  parseFloat (d :: w) = VInfinity
  \/ exists q, parseFloat (d :: w) = VNum q /\ (0 <= q)%Q.
Proof.
  intros Hd. unfold parseFloat. cbn [take_while]. rewrite Hd.
  destruct (drop_while is_digit (d :: w))
    as [|[[] [] [] [] [] [] [] []] r]; apply number_value_shape.
Qed.

Lemma strip_commas_head (d : ascii) (w : str) :
  is_digit d = true -> strip_commas (d :: w) = d :: strip_commas w.
Proof.
  intros H. unfold strip_commas. simpl.
  replace (Ascii.eqb d ",") with false; [reflexivity|].
  digit_case d H; reflexivity.
Qed.

(** The amount the extractor returns, from what the amount pattern
    finds. *)
Lemma fallback_amount_eq (text : str) :
  text <> [] ->
  amount (parseLoanRequestFallback (VStr text))
  = if is_match (exec amountPattern text)
       && truthy (group_of (exec amountPattern text) 1)
    then parseFloat
           (strip_commas (as_str (group_of (exec amountPattern text) 1)))
    else VNull.
Proof.
  intros H. unfold parseLoanRequestFallback.
  apply truthy_str in H. rewrite H. reflexivity.
Qed.

Lemma amount_from_digit (text : str) :
  Exists (fun a => is_digit a = true) text ->
  amount (parseLoanRequestFallback (VStr text)) = VInfinity
  \/ exists q,
       amount (parseLoanRequestFallback (VStr text)) = VNum q /\ (0 <= q)%Q.
Proof.
  intros H.
  assert (Hne : text <> []) by (intros ->; inversion H).
  rewrite (fallback_amount_eq text Hne).
  pose proof (amount_present text H) as Hm.
  destruct (exec amountPattern text) as [m|] eqn:E; [|congruence].
  unfold exec in E.
  apply search_captures in E as (s0 & s1 & E).
  apply amount_captures in E as (cap & Hc & Hcap).
  apply money_head in Hcap as (d & w & -> & Hd).
  cbn [is_match group_of]. rewrite Hc. cbn [truthy str_eqb negb andb as_str].
  rewrite (strip_commas_head d w Hd).
  apply parseFloat_number. assumption.
Qed.

Lemma digits_or_not (s : str) :
  no_digit s \/ Exists (fun a => is_digit a = true) s.
Proof.
  induction s as [|a s [IH|IH]].
  - left; constructor.
  - destruct (is_digit a) eqn:E.
    + right. constructor. assumption.
    + left. constructor; assumption.
  - right. apply Exists_cons_tl. assumption.
Qed.

(** X1: for every text, the [amount] the fallback extractor returns is
    [null] exactly when the text contains no digit. *)
Theorem fallback_amount_null_iff (text : str) :
  amount (parseLoanRequestFallback (VStr text)) = VNull <-> no_digit text.
Proof.
  split.
  - intros H. destruct (digits_or_not text) as [Hn|Hd]; [assumption|].
    apply amount_from_digit in Hd as [Hq|(q & Hq & _)]; congruence.
  - intros H. destruct text as [|a s]; [reflexivity|].
    rewrite fallback_amount_eq by discriminate.
    rewrite (amount_absent _ H). reflexivity.
Qed.

Lemma digit_not_dollar (d : ascii) :
  is_digit d = true -> same_char false "$" d = false.
Proof. intros H. digit_case d H; reflexivity. Qed.

Lemma ends_number_stops (rest : str) : ends_number rest -> stops is_digit rest.
Proof. destruct rest; simpl; tauto. Qed.

(** What follows the last group of a numeral that ends there: no further
    group, no decimals. *)
Lemma money_tail_skipped (whole : nat) (R : Type) (rest : str)
      (c : captures) (k : cont R) :
  ends_number rest ->
  run false whole
    (Seq (Star (Seq (Chr ",") (Rep 3 digit)))
       (Opt (Seq (Chr ".") (Rep 2 digit)))) rest c k
  = k rest c.
Proof.
  intros H. unfold Opt. rewrite run_seq, run_star, run_seq.
  destruct rest as [|a rest].
  - simpl. reflexivity.
  - destruct H as (_ & Hc & Hd).
    rewrite run_chr.
    replace (same_char false "," a) with false
      by (symmetry; apply Ascii.eqb_neq; congruence).
    rewrite run_alt, run_seq, run_chr.
    replace (same_char false "." a) with false
      by (symmetry; apply Ascii.eqb_neq; congruence).
    reflexivity.
Qed.

(** The groups of thousands are taken one after the other. *)
Lemma money_groups_taken (whole : nat) (R : Type) (gs : list str)
      (rest : str) (k : cont R) (x : R) :
  Forall thousand gs -> ends_number rest ->
  forall c,
    k rest c = Some x ->
    run false whole
      (Seq (Star (Seq (Chr ",") (Rep 3 digit)))
         (Opt (Seq (Chr ".") (Rep 2 digit))))
      (with_commas gs ++ rest) c k
    = Some x.
Proof.
  intros Hgs Hrest. induction Hgs as [|g gs [Hlen Hg] _ IH]; intros c Hk.
  - simpl app. rewrite money_tail_skipped by assumption. exact Hk.
  - destruct g as [|a1 [|a2 [|a3 [|? ?]]]]; try discriminate Hlen.
    inversion Hg as [|? ? H1 Hg1]; subst.
    inversion Hg1 as [|? ? H2 Hg2]; subst.
    inversion Hg2 as [|? ? H3 _]; subst.
    specialize (IH c Hk).
    rewrite run_seq in IH |- *. rewrite run_star.
    cbn [with_commas app Rep] in IH |- *. unfold digit in IH |- *.
    repeat (repeat step; rewrite ?H1, ?H2, ?H3; cbv iota).
    rewrite IH. reflexivity.
Qed.

Lemma with_commas_stops (gs : list str) (rest : str) :
  ends_number rest -> stops is_digit (with_commas gs ++ rest).
Proof.
  intros H. destruct gs; [apply ends_number_stops; assumption | reflexivity].
Qed.

Lemma money_at_numeral (whole : nat) (R : Type) (ds : str) (gs : list str)
      (rest : str) (c : captures) (k : cont R) (x : R) :
  numeral ds -> Forall thousand gs -> ends_number rest ->
  k rest c = Some x ->
  run false whole money (ds ++ with_commas gs ++ rest) c k = Some x.
Proof.
  intros [Hne Hds] Hgs Hrest Hk. unfold money, digit. rewrite run_seq.
  apply plus_class_greedy;
    [assumption | assumption | apply with_commas_stops; assumption|].
  apply money_groups_taken; assumption.
Qed.

Lemma amount_at_numeral (whole : nat) (ds : str) (gs : list str)
      (rest : str) :
  numeral ds -> Forall thousand gs -> ends_number rest ->
  attempt amountPattern whole ((ds ++ with_commas gs) ++ rest)
  = Some (rest, [(1, ds ++ with_commas gs)]).
Proof.
  intros Hn Hgs Hrest. pose proof Hn as [Hne Hds].
  unfold attempt, amountPattern, source, ignoreCase, Opt.
  rewrite run_seq, run_alt.
  destruct ds as [|d ds']; [congruence|].
  rewrite <- !app_comm_cons, run_chr.
  rewrite digit_not_dollar by (inversion Hds; assumption).
  rewrite run_eps, run_group, !app_comm_cons, <- app_assoc.
  apply money_at_numeral; try assumption.
  rewrite app_assoc, firstn_consumed. reflexivity.
Qed.

Lemma amount_at_dollar (whole : nat) (ds : str) (gs : list str)
      (rest : str) :
  numeral ds -> Forall thousand gs -> ends_number rest ->
  attempt amountPattern whole ("$"%char :: (ds ++ with_commas gs) ++ rest)
  = Some (rest, [(1, ds ++ with_commas gs)]).
Proof.
  intros Hn Hgs Hrest.
  unfold attempt, amountPattern, source, ignoreCase, Opt.
  rewrite run_seq, run_alt, run_chr.
  change (same_char false "$" "$") with true. cbv iota.
  rewrite run_group, <- app_assoc.
  rewrite (money_at_numeral whole _ ds gs rest [] _
             (rest, [(1, ds ++ with_commas gs)]));
    [reflexivity | assumption | assumption | assumption|].
  rewrite app_assoc, firstn_consumed. reflexivity.
Qed.

Lemma amount_found (whole : nat) (ds : str) (gs : list str) (rest : str) :
  numeral ds -> Forall thousand gs -> ends_number rest ->
  forall pre pos,
    no_digit pre ->
    exists i u,
      search amountPattern whole pos (pre ++ (ds ++ with_commas gs) ++ rest)
      = Some (Match i u [(1, ds ++ with_commas gs)]).
Proof.
  intros Hn Hgs Hrest pre.
  induction pre as [|a pre IH]; intros pos Hpre.
  - simpl app. exists pos, (ds ++ with_commas gs).
    apply search_hit, amount_at_numeral; assumption.
  - inversion Hpre as [|a' pre' Ha Hpre']; subst.
    destruct (attempt amountPattern whole
                ((a :: pre) ++ (ds ++ with_commas gs) ++ rest))
      as [[s1 c1]|] eqn:E.
    + (* only a dollar sign right before the numeral starts a match *)
      destruct pre as [|b pre]; simpl app in E |- *.
      * destruct (Ascii.eqb "$" a) eqn:Ea.
        -- apply Ascii.eqb_eq in Ea. subst a.
           exists pos, ("$"%char :: ds ++ with_commas gs).
           apply (search_hit amountPattern whole pos
                    ("$"%char :: ds ++ with_commas gs) rest).
           apply amount_at_dollar; assumption.
        -- exfalso. revert E.
           rewrite (amount_no_plain whole a _); [discriminate|].
           unfold plain_char. rewrite Ha, Ascii.eqb_sym, Ea. reflexivity.
      * exfalso. revert E.
        unfold attempt, amountPattern, source, ignoreCase, Opt.
        rewrite run_seq, run_alt, run_eps, !run_group.
        rewrite (money_needs_digit _ _ _ (a :: _)) by exact Ha.
        rewrite run_chr. destruct (same_char false "$" a); [|discriminate].
        rewrite run_group, money_needs_digit; [discriminate|].
        inversion Hpre'; assumption.
    + simpl app in *.
      rewrite (search_skip amountPattern whole pos a _ E).
      apply IH. assumption.
Qed.

Lemma with_commas_stripped (gs : list str) :
  Forall thousand gs -> strip_commas (with_commas gs) = concat gs.
Proof.
  induction 1 as [|g gs [_ Hg] _ IH]; [reflexivity|].
  unfold strip_commas in *. cbn [with_commas concat filter].
  change (negb (Ascii.eqb "," ",")) with false. cbv iota.
  rewrite filter_app, IH. f_equal.
  apply (strip_commas_digits g Hg).
Qed.

Lemma concat_digits (gs : list str) : Forall thousand gs -> digits (concat gs).
Proof.
  induction 1 as [|g gs [_ Hg] _ IH]; [constructor|].
  simpl. apply Forall_app. split; assumption.
Qed.

Lemma parseFloat_digits (ds : str) :
  numeral ds -> parseFloat ds = number_value (digits_val 0 ds) 1.
Proof.
  intros H. rewrite <- (strip_commas_digits ds (proj2 H)) at 1.
  apply parseFloat_numeral. assumption.
Qed.

(** X2: the amount is read off the first numeral of the text, whatever
    that numeral counts, with its groups of thousands.  When no digit
    precedes a run of digits, and the run and the groups of three digits
    after it, each behind a comma, are followed by the end of the text or
    by a character other than a digit, a comma and a full stop, the amount
    is the binary64 nearest to the number that the run and the groups
    denote together: that number itself when it is below [2^53]. *)
Theorem fallback_amount_first_numeral (pre ds : str) (gs : list str)
        (rest : str) :
  no_digit pre -> numeral ds -> Forall thousand gs -> ends_number rest ->
  amount (parseLoanRequestFallback
            (VStr (pre ++ (ds ++ with_commas gs) ++ rest)))
  = number_value (digits_val 0 (ds ++ concat gs)) 1
  /\ ((digits_val 0 (ds ++ concat gs) < 2 ^ 53)%Z ->
      amount (parseLoanRequestFallback
                (VStr (pre ++ (ds ++ with_commas gs) ++ rest)))
      = VNum (number (ds ++ concat gs))).
Proof.
  intros Hpre Hn Hgs Hrest.
  assert (Hne : pre ++ (ds ++ with_commas gs) ++ rest <> []).
  { destruct Hn as [Hne _]. destruct pre; [|discriminate].
    destruct ds; [congruence | discriminate]. }
  assert (Hamount :
            amount (parseLoanRequestFallback
                      (VStr (pre ++ (ds ++ with_commas gs) ++ rest)))
            = number_value (digits_val 0 (ds ++ concat gs)) 1).
  { rewrite (fallback_amount_eq _ Hne). unfold exec.
    destruct (amount_found (length (pre ++ (ds ++ with_commas gs) ++ rest))
                ds gs rest Hn Hgs Hrest pre 0 Hpre) as (i & u & ->).
    cbn [is_match group_of groups capture Nat.eqb as_str].
    destruct Hn as [Hd Hds].
    replace (truthy (VStr (ds ++ with_commas gs))) with true
      by (destruct ds; [congruence | reflexivity]).
    cbn [andb]. unfold strip_commas. rewrite filter_app.
    fold (strip_commas ds). fold (strip_commas (with_commas gs)).
    rewrite (strip_commas_digits ds Hds), (with_commas_stripped gs Hgs).
    apply parseFloat_digits. split.
    - destruct ds; [congruence | discriminate].
    - apply Forall_app. split; [assumption | apply concat_digits; assumption]. }
  split; [exact Hamount|].
  intros Hlt. rewrite Hamount. apply number_value_exact.
  split; [apply digits_val_nonneg; lia | exact Hlt].
Qed.

Lemma fallback_amount_first_numeral_witness :
  amount (parseLoanRequestFallback
            (VStr (lit "for 12 months I need $5,000")))
  = VNum 12
  /\ amount (parseLoanRequestFallback
               (VStr (lit "I need $250,000 for 24 months")))
     = VNum 250000
  /\ amount (parseLoanRequestFallback
               (VStr (lit "I need $99999999999999999999 now")))
     = VNum 100000000000000000000.
Proof.
  split; [|split].
  - apply (fallback_amount_first_numeral (lit "for ") (lit "12") []
             (lit " months I need $5,000")).
    + repeat constructor.
    + split; [discriminate | repeat constructor].
    + constructor.
    + simpl. repeat split; discriminate.
    + reflexivity.
  - apply (fallback_amount_first_numeral (lit "I need $") (lit "250")
             [lit "000"] (lit " for 24 months")).
    + repeat constructor.
    + split; [discriminate | repeat constructor].
    + repeat constructor.
    + simpl. repeat split; discriminate.
    + reflexivity.
  - refine (eq_trans
              (proj1 (fallback_amount_first_numeral (lit "I need $")
                        (lit "99999999999999999999") [] (lit " now")
                        _ _ _ _)) _).
    + repeat constructor.
    + split; [discriminate | repeat constructor].
    + constructor.
    + simpl. repeat split; discriminate.
    + vm_compute. reflexivity.
Defined.

(** *** The duration *)

Lemma space_not_digit (a : ascii) : is_space a = true -> is_digit a = false.
Proof.
  destruct a as [[] [] [] [] [] [] [] []]; intros H; try discriminate H;
    reflexivity.
Qed.

Lemma letter_m (x : ascii) :
  same_char true "m" x = true -> is_digit x = false /\ is_space x = false.
Proof.
  destruct x as [[] [] [] [] [] [] [] []]; intros H; try discriminate H;
    split; reflexivity.
Qed.

Lemma letter_y (x : ascii) :
  same_char true "y" x = true -> is_digit x = false /\ is_space x = false.
Proof.
  destruct x as [[] [] [] [] [] [] [] []]; intros H; try discriminate H;
    split; reflexivity.
Qed.

Lemma unit_word_head (tail : str) :
  unit_word tail -> stops is_digit tail /\ stops is_space tail.
Proof.
  intros [H|H]; destruct tail as [|x tail]; try discriminate H;
    simpl in H; apply andb_true_iff in H as [H _];
    [apply letter_m in H | apply letter_y in H]; simpl; exact H.
Qed.

Lemma duration_needs_digit (whole : nat) (s : str) :
  stops is_digit s -> attempt durationPattern whole s = None.
Proof.
  intros H. unfold attempt, durationPattern, source, ignoreCase, Plus, digit.
  rewrite !run_seq, run_group, run_seq.
  destruct s as [|a s]; [reflexivity|].
  rewrite run_class. simpl in H. rewrite H. reflexivity.
Qed.

Lemma duration_at (whole : nat) (ds sp tail : str) :
  numeral ds -> blank sp -> unit_word tail ->
  exists s1,
    attempt durationPattern whole (ds ++ sp ++ tail) = Some (s1, [(1, ds)]).
Proof.
  intros [Hne Hds] Hsp Hu.
  destruct (unit_word_head tail Hu) as [Hd Hs].
  assert (Hstop : stops is_digit (sp ++ tail)).
  { destruct Hsp as [|a sp Ha _]; [exact Hd|].
    simpl. apply space_not_digit. assumption. }
  unfold attempt, durationPattern, source, ignoreCase, digit, space, W.
  rewrite run_seq, run_group.
  assert (Hk : exists s1,
             run true whole
               (Seq (Star (Class is_space))
                  (Alt (Word (lit "month")) (Word (lit "year"))))
               (sp ++ tail) [(1, ds)] (fun s1 c1 => Some (s1, c1))
             = Some (s1, [(1, ds)])).
  { rewrite run_seq.
    destruct Hu as [Hu|Hu].
    - eexists. apply star_class_greedy; [assumption | | assumption].
      rewrite run_alt, run_word, Hu. reflexivity.
    - destruct (starts true (lit "month") tail) eqn:Em.
      + eexists. apply star_class_greedy; [assumption | | assumption].
        rewrite run_alt, run_word, Em. reflexivity.
      + eexists. apply star_class_greedy; [assumption | | assumption].
        rewrite run_alt, !run_word, Em, Hu. reflexivity. }
  destruct Hk as [s1 Hk]. exists s1.
  apply plus_class_greedy; try assumption.
  rewrite firstn_consumed. exact Hk.
Qed.

Lemma search_found (p : pattern) (whole pos : nat) (s s1 : str)
      (c1 : captures) :
  attempt p whole s = Some (s1, c1) ->
  exists u, search p whole pos s = Some (Match pos u c1).
Proof.
  intros H. rewrite search_eq. unfold attempt in H. rewrite H. eauto.
Qed.

Lemma duration_found (whole : nat) (ds sp tail : str) :
  numeral ds -> blank sp -> unit_word tail ->
  forall pre pos,
    no_digit pre ->
    exists i u,
      search durationPattern whole pos (pre ++ ds ++ sp ++ tail)
      = Some (Match i u [(1, ds)]).
Proof.
  intros Hn Hsp Hu pre pos Hpre.
  rewrite search_skip_run.
  - destruct (duration_at whole ds sp tail Hn Hsp Hu) as [s1 H].
    destruct (search_found durationPattern whole (pos + length pre) _ _ _ H)
      as [u ->].
    eauto.
  - intros i Hi. apply duration_needs_digit.
    assert (H : exists a r, skipn i pre ++ ds ++ sp ++ tail = a :: r
                            /\ is_digit a = false).
    { clear - Hpre Hi. revert i Hi.
      induction Hpre as [|a pre Ha _ IH]; intros i Hi; [simpl in Hi; lia|].
      destruct i as [|i]; simpl; [eauto|]. apply IH. simpl in Hi. lia. }
    destruct H as (a & r & -> & Ha). exact Ha.
Qed.

Lemma fallback_duration_eq (text : str) :
  text <> [] ->
  duration (parseLoanRequestFallback (VStr text))
  = if is_match (exec durationPattern text)
       && truthy (group_of (exec durationPattern text) 1)
    then parseInt (as_str (group_of (exec durationPattern text) 1))
    else VNull.
Proof.
  intros H. unfold parseLoanRequestFallback.
  apply truthy_str in H. rewrite H. reflexivity.
Qed.

(** X3: the unit of the duration is not read.  A run of digits that no
    digit precedes, followed by optional white space and then "month" or
    "year" in any case, gives the duration, for years as for months: the
    binary64 nearest to the number the run denotes, which is that number
    itself when it is below [2^53]. *)
Theorem fallback_duration_ignores_unit (pre ds sp tail : str) :
  no_digit pre -> numeral ds -> blank sp -> unit_word tail ->
  duration (parseLoanRequestFallback (VStr (pre ++ ds ++ sp ++ tail)))
  = number_value (digits_val 0 ds) 1
  /\ ((digits_val 0 ds < 2 ^ 53)%Z ->
      duration (parseLoanRequestFallback (VStr (pre ++ ds ++ sp ++ tail)))
      = VNum (number ds)).
Proof.
  intros Hpre Hn Hsp Hu.
  assert (Hne : pre ++ ds ++ sp ++ tail <> []).
  { destruct Hn as [Hne _]. destruct pre; [|discriminate].
    destruct ds; [congruence | discriminate]. }
  assert (Hduration :
            duration (parseLoanRequestFallback
                        (VStr (pre ++ ds ++ sp ++ tail)))
            = number_value (digits_val 0 ds) 1).
  { rewrite (fallback_duration_eq _ Hne). unfold exec.
    destruct (duration_found (length (pre ++ ds ++ sp ++ tail)) ds sp tail
                Hn Hsp Hu pre 0 Hpre) as (i & u & ->).
    cbn [is_match group_of groups capture Nat.eqb as_str].
    destruct Hn as [Hd Hds]. apply truthy_str in Hd. rewrite Hd. cbn [andb].
    apply parseInt_numeral. split; [apply truthy_str|]; assumption. }
  split; [exact Hduration|].
  intros Hlt. rewrite Hduration. apply number_value_exact.
  split; [apply digits_val_nonneg; lia | exact Hlt].
Qed.

Lemma fallback_duration_ignores_unit_witness :
  duration (parseLoanRequestFallback (VStr (lit "a loan over 2 years")))
  = VNum 2
  /\ duration (parseLoanRequestFallback (VStr (lit "a loan over 2 months")))
     = VNum 2.
Proof.
  split.
  - apply (fallback_duration_ignores_unit (lit "a loan over ") (lit "2")
             (lit " ") (lit "years")).
    + repeat constructor.
    + split; [discriminate | repeat constructor].
    + repeat constructor.
    + right. reflexivity.
    + reflexivity.
  - apply (fallback_duration_ignores_unit (lit "a loan over ") (lit "2")
             (lit " ") (lit "months")).
    + repeat constructor.
    + split; [discriminate | repeat constructor].
    + repeat constructor.
    + left. reflexivity.
    + reflexivity.
Defined.

(** *** The shape of the result *)

Lemma star_class_matches (icase : bool) (p : ascii -> bool) (u : str) :
  Language.matches icase (Star (Class p)) u ->
  Forall (fun a => p a = true) u.
Proof.
  intros H. remember (Star (Class p)) as r eqn:E.
  induction H as [ | | | | | | |r
                 |r u v H1 IH1 H2 IH2| ]; try discriminate E.
  - constructor.
  - inversion E; subst. apply Forall_app. split; [|apply IH2; reflexivity].
    inversion H1; subst. repeat constructor. assumption.
Qed.

Lemma plus_digit_matches (icase : bool) (u : str) :
  Language.matches icase (Plus digit) u -> numeral u.
Proof.
  unfold Plus, digit. intros H.
  inversion H as [ | | | |r1 r2 u1 u2 H1 H2| | | | | ]; subst.
  inversion H1; subst. apply star_class_matches in H2.
  split; [discriminate|]. constructor; assumption.
Qed.

Lemma duration_captures (whole : nat) (s0 s1 : str) (c1 : captures) :
  attempt durationPattern whole s0 = Some (s1, c1) ->
  exists cap, capture 1 c1 = Some cap /\ numeral cap.
Proof.
  unfold attempt, durationPattern, source, ignoreCase.
  rewrite run_seq, run_group. intros H.
  apply run_sound in H as (cap & s2 & c2 & -> & Hm & H & _).
  rewrite firstn_consumed in H.
  apply run_sound in H as (u & s3 & c3 & _ & _ & H & Hc).
  inversion H; subst.
  exists cap. split; [|apply (plus_digit_matches true); assumption].
  rewrite Hc; [simpl; reflexivity|].
  unfold W. simpl. tauto.
Qed.

Lemma fallback_not_a_string (v : value) :
  is_string v = false -> parseLoanRequestFallback v = no_data.
Proof.
  intros H. unfold parseLoanRequestFallback. rewrite H, orb_true_r.
  reflexivity.
Qed.

(** X4: for every input, the result of the fallback extractor has an
    [amount] that is [null], [Infinity] or a non-negative number, a
    [duration] that is [null], [Infinity] or a non-negative integer, a
    [purpose] that is [null] or a string, and [expected_income] 0.
    [Infinity] is what a numeral beyond the range of binary64 is read as
    (some 309 digits). *)
Theorem fallback_result_shape (v : value) :
  let d := parseLoanRequestFallback v in
  (amount d = VNull \/ amount d = VInfinity
   \/ exists q, amount d = VNum q /\ (0 <= q)%Q)
  /\ (duration d = VNull \/ duration d = VInfinity
      \/ exists n, duration d = VNum (inject_Z n) /\ (0 <= n)%Z)
  /\ (purpose d = VNull \/ exists s, purpose d = VStr s)
  /\ expected_income d = VNum 0.
Proof.
  intros d. unfold d.
  split; [|split; [|split; [|apply fallback_income_zero]]].
  - destruct v as [| |b|q| | | |text|l|l];
      try (rewrite fallback_not_a_string by reflexivity; left; reflexivity).
    destruct (digits_or_not text) as [Hn|Hd].
    + left. destruct text as [|a s]; [reflexivity|].
      rewrite fallback_amount_eq by discriminate.
      rewrite (amount_absent _ Hn). reflexivity.
    + right. apply amount_from_digit. assumption.
  - destruct v as [| |b|q| | | |text|l|l];
      try (rewrite fallback_not_a_string by reflexivity; left; reflexivity).
    destruct text as [|a s]; [left; reflexivity|].
    rewrite fallback_duration_eq by discriminate.
    destruct (exec durationPattern (a :: s)) as [m|] eqn:E;
      [|left; reflexivity].
    unfold exec in E. apply search_captures in E as (s0 & s1 & E).
    apply duration_captures in E as (cap & Hc & Hcap).
    right.
    cbn [is_match group_of]. rewrite Hc. cbn [as_str].
    pose proof Hcap as [Hne _]. apply truthy_str in Hne. rewrite Hne.
    cbn [andb]. rewrite (parseInt_numeral cap Hcap).
    apply number_value_integer.
  - destruct v as [| |b|q| | | |text|l|l];
      try (rewrite fallback_not_a_string by reflexivity; left; reflexivity).
    destruct text as [|a s]; [left; reflexivity|].
    right. exists (purpose_of (a :: s)).
    unfold parseLoanRequestFallback.
    cbn [truthy str_eqb negb is_string orb]. cbv zeta. cbn [purpose as_str].
    unfold js_or at 1. cbn [truthy str_eqb negb].
    rewrite purpose_body_ok. reflexivity.
Qed.

(** *** The duration behind other numbers *)

(** The end of a text that ends on no character of a class. *)
Lemma stops_rev_suffix (p : ascii -> bool) (x r : str) :
  stops p (rev (x ++ r)) -> stops p (rev r).
Proof.
  rewrite rev_app_distr. destruct (rev r) as [|h t]; [intros _; exact I|].
  simpl. auto.
Qed.

Lemma take_drop_while (p : ascii -> bool) (s : str) :
  s = take_while p s ++ drop_while p s
  /\ Forall (fun a => p a = true) (take_while p s)
  /\ stops p (drop_while p s).
Proof.
  induction s as [|a s (IH1 & IH2 & IH3)]; simpl; [auto|].
  destruct (p a) eqn:E; simpl.
  - repeat split; [f_equal; exact IH1 | constructor; assumption | exact IH3].
  - repeat split; [constructor | exact E].
Qed.

Lemma unitless_suffix (x y : str) :
  unitless (x ++ y) = true -> unitless y = true.
Proof.
  induction x as [|a x IH]; [auto|].
  simpl app. cbn [unitless]. intros H.
  apply andb_true_iff in H as [_ H]. auto.
Qed.

Lemma unitless_head (a : ascii) (s : str) :
  unitless (a :: s) = true ->
  starts true (lit "month") (a :: s) = false
  /\ starts true (lit "year") (a :: s) = false.
Proof.
  cbn [unitless]. intros H.
  apply andb_true_iff in H as [H _]. apply andb_true_iff in H as [H1 H2].
  apply negb_true_iff in H1, H2. auto.
Qed.

(** A word of letters that does not start a text does not start it either
    when a digit is put behind the text. *)
Lemma starts_before_digit (w : str) (d : ascii) (r : str) :
  (forall a, In a w -> same_char true a d = false) ->
  forall s, starts true w s = false -> starts true w (s ++ d :: r) = false.
Proof.
  intros Hw. induction w as [|a w IH]; intros s H; [discriminate|].
  destruct s as [|y s]; cbn [app starts] in H |- *.
  - rewrite Hw by (left; reflexivity). reflexivity.
  - destruct (same_char true a y); [|reflexivity].
    cbn [andb] in H |- *. apply IH; [|assumption].
    intros b Hb. apply Hw. right; assumption.
Qed.

Lemma letters_not_digit (d : ascii) :
  is_digit d = true ->
  forall a, In a (lit "monthyear") -> same_char true a d = false.
Proof.
  intros H a Ha. simpl in Ha.
  digit_case d H;
    repeat (destruct Ha as [<-|Ha]; [reflexivity|]); contradiction.
Qed.

Lemma unit_fails (whole : nat) (R : Type) (s : str) (c : captures)
      (k : cont R) :
  starts true (lit "month") s = false ->
  starts true (lit "year") s = false ->
  run true whole (Alt (W "month") (W "year")) s c k = None.
Proof.
  intros H1 H2. unfold W. rewrite run_alt, !run_word, H1, H2. reflexivity.
Qed.

Lemma blank_not_unit (b : ascii) (s : str) :
  is_space b = true ->
  starts true (lit "month") (b :: s) = false
  /\ starts true (lit "year") (b :: s) = false.
Proof.
  intros H. cbn [lit list_ascii_of_string starts].
  destruct (same_char true "m" b) eqn:E1.
  { apply letter_m in E1 as [_ E1]. congruence. }
  destruct (same_char true "y" b) eqn:E2.
  { apply letter_y in E2 as [_ E2]. congruence. }
  split; reflexivity.
Qed.

Lemma digit_not_unit (d : ascii) (s : str) :
  is_digit d = true ->
  starts true (lit "month") (d :: s) = false
  /\ starts true (lit "year") (d :: s) = false.
Proof.
  intros H. cbn [lit list_ascii_of_string starts].
  destruct (same_char true "m" d) eqn:E1.
  { apply letter_m in E1 as [E1 _]. congruence. }
  destruct (same_char true "y" d) eqn:E2.
  { apply letter_y in E2 as [E2 _]. congruence. }
  split; reflexivity.
Qed.

Lemma digit_not_space (d : ascii) : is_digit d = true -> is_space d = false.
Proof.
  intros H. destruct (is_space d) eqn:E; [|reflexivity].
  apply space_not_digit in E. congruence.
Qed.

(** Behind a numeral, no unit: white space and then text that holds no
    unit word, up to a digit. *)
Lemma no_unit_behind (whole : nat) (R : Type) (u : str) (d : ascii)
      (r : str) (c : captures) (k : cont R) :
  unitless u = true -> is_digit d = true ->
  run true whole (Seq (Star space) (Alt (W "month") (W "year")))
    (u ++ d :: r) c k = None.
Proof.
  intros Hu Hd. rewrite run_seq. unfold space.
  destruct (take_drop_while is_space u) as (E & Hb & Hq).
  remember (take_while is_space u) as B eqn:EB.
  remember (drop_while is_space u) as Q eqn:EQ. clear EB EQ.
  rewrite E, <- app_assoc.
  apply star_class_fail.
  - destruct Q as [|x Q]; [apply digit_not_space; assumption | exact Hq].
  - exact Hb.
  - intros j Hj.
    destruct (Nat.eq_dec j (length B)) as [->|Hne].
    + rewrite skipn_all. simpl app.
      destruct Q as [|x Q].
      * apply unit_fails; apply (digit_not_unit d r Hd).
      * rewrite E in Hu. apply unitless_suffix in Hu.
        apply unitless_head in Hu as [H1 H2].
        apply unit_fails;
          (apply starts_before_digit; [|assumption]);
          intros a Ha; apply (letters_not_digit d Hd);
          simpl in Ha |- *; tauto.
    + assert (Hb' : exists b t, skipn j B ++ Q ++ d :: r = b :: t
                                /\ is_space b = true).
      { clear - Hb Hj Hne. revert j Hj Hne.
        induction Hb as [|b B Hb0 _ IH]; intros j Hj Hne;
          [simpl in *; lia|].
        destruct j as [|j]; simpl; [eauto|].
        apply IH; simpl in *; lia. }
      destruct Hb' as (b & t & -> & Hb0).
      apply unit_fails; apply (blank_not_unit b t Hb0).
Qed.

Lemma all_digits_end (P : str) :
  P <> [] -> digits P -> stops is_digit (rev P) -> False.
Proof.
  intros Hne Hd Hs.
  assert (Hr : digits (rev P)) by (apply Forall_rev; assumption).
  destruct (rev P) as [|a t] eqn:E.
  - apply (f_equal (@rev ascii)) in E. rewrite rev_involutive in E.
    simpl in E. congruence.
  - inversion Hr; subst. simpl in Hs. congruence.
Qed.

(** No duration starts inside a text that holds no unit word and does not
    end on a digit, whatever numeral follows it. *)
Lemma duration_not_before (whole : nat) (pre : str) (d : ascii) (r : str) :
  unitless pre = true -> stops is_digit (rev pre) -> is_digit d = true ->
  forall i, i < length pre ->
            attempt durationPattern whole (skipn i pre ++ d :: r) = None.
Proof.
  intros Hu He Hd i Hi.
  assert (HuP : unitless (skipn i pre) = true).
  { apply (unitless_suffix (firstn i pre)). rewrite firstn_skipn. exact Hu. }
  assert (HeP : stops is_digit (rev (skipn i pre))).
  { apply (stops_rev_suffix is_digit (firstn i pre)).
    rewrite firstn_skipn. exact He. }
  assert (HP : skipn i pre <> []).
  { intros E. apply (f_equal (@length ascii)) in E.
    rewrite length_skipn in E. simpl in E. lia. }
  remember (skipn i pre) as P eqn:EP. clear EP Hu He Hi i pre.
  destruct (take_drop_while is_digit P) as (E & HD & HQ).
  remember (take_while is_digit P) as D eqn:ED.
  remember (drop_while is_digit P) as Q eqn:EQ. clear ED EQ.
  destruct Q as [|x Q].
  { exfalso. rewrite app_nil_r in E. subst D.
    apply (all_digits_end P HP HD HeP). }
  unfold attempt, durationPattern, source, ignoreCase, digit.
  rewrite run_seq, run_group, E, <- app_assoc.
  apply plus_class_fail; [exact HD | exact HQ|].
  intros j Hj.
  destruct (Nat.eq_dec j (length D)) as [->|Hne].
  - rewrite skipn_all. simpl app. rewrite app_comm_cons.
    apply no_unit_behind; [|exact Hd].
    rewrite E in HuP. apply (unitless_suffix D). exact HuP.
  - apply after_number_fail. left.
    apply skipn_run_head; [exact HD | lia].
Qed.

Lemma duration_found_behind (whole : nat) (ds sp tail : str) :
  numeral ds -> blank sp -> unit_word tail ->
  forall pre pos,
    unitless pre = true -> stops is_digit (rev pre) ->
    exists i u,
      search durationPattern whole pos (pre ++ ds ++ sp ++ tail)
      = Some (Match i u [(1, ds)]).
Proof.
  intros Hn Hsp Hu pre pos Hpre He.
  rewrite search_skip_run.
  - destruct (duration_at whole ds sp tail Hn Hsp Hu) as [s1 H].
    destruct (search_found durationPattern whole (pos + length pre) _ _ _ H)
      as [u ->].
    eauto.
  - destruct Hn as [Hne Hds].
    destruct ds as [|d ds]; [congruence|]. inversion Hds; subst.
    rewrite <- app_comm_cons.
    apply duration_not_before; assumption.
Qed.

(** X20: the duration is the first numeral that a unit follows, not the
    first numeral.  When the text before a run of digits holds no "month"
    and no "year" and does not end on a digit (it may hold an amount), and
    the run is followed by optional white space and then "month" or "year"
    in any case, the duration is read off that run: the binary64 nearest
    to the number of the run, which is that number itself when it is below
    [2^53]. *)
Theorem fallback_duration_behind_amount (pre ds sp tail : str) :
  unitless pre = true -> stops is_digit (rev pre) ->
  numeral ds -> blank sp -> unit_word tail ->
  duration (parseLoanRequestFallback (VStr (pre ++ ds ++ sp ++ tail)))
  = number_value (digits_val 0 ds) 1
  /\ ((digits_val 0 ds < 2 ^ 53)%Z ->
      duration (parseLoanRequestFallback (VStr (pre ++ ds ++ sp ++ tail)))
      = VNum (number ds)).
Proof.
  intros Hpre He Hn Hsp Hu.
  assert (Hne : pre ++ ds ++ sp ++ tail <> []).
  { destruct Hn as [Hne _]. destruct pre; [|discriminate].
    destruct ds; [congruence | discriminate]. }
  assert (Hduration :
            duration (parseLoanRequestFallback
                        (VStr (pre ++ ds ++ sp ++ tail)))
            = number_value (digits_val 0 ds) 1).
  { rewrite (fallback_duration_eq _ Hne). unfold exec.
    destruct (duration_found_behind (length (pre ++ ds ++ sp ++ tail)) ds sp
                tail Hn Hsp Hu pre 0 Hpre He) as (i & u & ->).
    cbn [is_match group_of groups capture Nat.eqb as_str].
    destruct Hn as [Hd Hds]. apply truthy_str in Hd. rewrite Hd. cbn [andb].
    apply parseInt_numeral. split; [apply truthy_str|]; assumption. }
  split; [exact Hduration|].
  intros Hlt. rewrite Hduration. apply number_value_exact.
  split; [apply digits_val_nonneg; lia | exact Hlt].
Qed.

Lemma fallback_duration_behind_amount_witness :
  duration (parseLoanRequestFallback
              (VStr (lit "I need $5,000 for 18 Months to buy a van")))
  = VNum 18.
Proof.
  apply (fallback_duration_behind_amount (lit "I need $5,000 for ")
           (lit "18") (lit " ") (lit "Months to buy a van")).
  - reflexivity.
  - reflexivity.
  - split; [discriminate | repeat constructor].
  - repeat constructor.
  - left. reflexivity.
  - reflexivity.
Defined.

(** *** The purpose is trimmed *)

Lemma drop_spaces_length (s : str) : length (drop_spaces s) <= length s.
Proof.
  induction s as [|a s IH]; simpl; [lia|].
  destruct (is_space a); simpl; lia.
Qed.

Lemma drop_spaces_stops (s : str) : stops is_space (drop_spaces s).
Proof.
  induction s as [|a s IH]; simpl; [exact I|].
  destruct (is_space a) eqn:E; [exact IH | exact E].
Qed.

Lemma drop_spaces_fixed (s : str) : stops is_space s -> drop_spaces s = s.
Proof. destruct s as [|a s]; simpl; [reflexivity|]. intros ->. reflexivity. Qed.

Lemma drop_spaces_suffix (s : str) : exists sp, s = sp ++ drop_spaces s.
Proof.
  induction s as [|a s [sp IH]]; [exists []; reflexivity|].
  simpl. destruct (is_space a).
  - exists (a :: sp). simpl. f_equal. exact IH.
  - exists []. reflexivity.
Qed.

Lemma trim_clean (s : str) :
  stops is_space s -> stops is_space (rev s) -> trim s = s.
Proof.
  intros H1 H2. unfold trim.
  rewrite (drop_spaces_fixed s H1), (drop_spaces_fixed (rev s) H2).
  apply rev_involutive.
Qed.

Lemma trim_is_clean (s : str) :
  stops is_space (trim s) /\ stops is_space (rev (trim s)).
Proof.
  unfold trim. rewrite rev_involutive. split; [|apply drop_spaces_stops].
  destruct (drop_spaces_suffix (rev (drop_spaces s))) as [sp E].
  pose proof (drop_spaces_stops s) as Hs.
  apply (f_equal (@rev ascii)) in E.
  rewrite rev_involutive, rev_app_distr in E.
  destruct (rev (drop_spaces (rev (drop_spaces s)))) as [|h t];
    [exact I|].
  rewrite E in Hs. exact Hs.
Qed.

(** [text.replace(/^word\s+/i, '')]: the text itself, or what follows the
    word and all the white space after it. *)
Lemma leading_word_removed (w t : str) :
  let p := Pattern (Seq Bol (Seq (Word w) (Plus space))) true in
  remove_first p t = t
  \/ exists x r, t = x ++ r /\ remove_first p t = r /\ stops is_space r.
Proof.
  intros p. unfold p.
  destruct (starts true w t) eqn:Ew.
  - destruct (take_drop_while is_space (skipn (length w) t))
      as (E & Hsp & Hr).
    remember (take_while is_space (skipn (length w) t)) as sp eqn:Esp.
    remember (drop_while is_space (skipn (length w) t)) as r eqn:Er.
    clear Esp Er.
    assert (Et : t = (firstn (length w) t ++ sp) ++ r).
    { rewrite <- app_assoc, <- E. symmetry. apply firstn_skipn. }
    destruct sp as [|a sp].
    + left. apply remove_anchored_miss.
      rewrite run_seq, run_word, Ew, E. unfold space.
      apply plus_class_fail; [constructor | exact Hr|].
      simpl. intros i Hi. lia.
    + right. exists (firstn (length w) t ++ a :: sp), r.
      split; [exact Et|]. split; [|exact Hr].
      rewrite Et at 1.
      apply (remove_anchored_hit _ true _ r []).
      rewrite <- Et. rewrite run_seq, run_word, Ew, E. unfold space.
      apply plus_class_greedy; [discriminate | exact Hsp | exact Hr|].
      reflexivity.
  - left. apply remove_anchored_miss.
    rewrite run_seq, run_word, Ew. reflexivity.
Qed.

Lemma leading_word_clean (w t : str) :
  stops is_space t -> stops is_space (rev t) ->
  let t' := remove_first (Pattern (Seq Bol (Seq (Word w) (Plus space))) true)
              t in
  stops is_space t' /\ stops is_space (rev t').
Proof.
  intros H1 H2 t'. unfold t'.
  destruct (leading_word_removed w t) as [-> | (x & r & Et & -> & Hr)];
    [split; assumption|].
  split; [exact Hr|]. rewrite Et in H2.
  apply (stops_rev_suffix is_space x r H2).
Qed.

Lemma stripped_clean (text : str) :
  stops is_space (stripped text) /\ stops is_space (rev (stripped text)).
Proof.
  unfold stripped, leadingFor, leadingTo, W.
  destruct (trim_is_clean (cut text)) as [H1 H2].
  destruct (leading_word_clean (lit "to") _ H1 H2) as [H3 H4].
  apply (leading_word_clean (lit "for") _ H3 H4).
Qed.

Lemma secondary_trimmed (ps : list pattern) (text c : str) :
  secondary ps text = Some c -> trim c = c.
Proof.
  induction ps as [|p ps IH]; [discriminate|].
  cbn [secondary].
  destruct (first_capture p text) as [[|a x]|]; try exact IH.
  intros H. inversion H as [E].
  destruct (trim_is_clean (a :: x)) as [Hl Hr].
  apply trim_clean; assumption.
Qed.

Lemma purpose_of_trimmed (text : str) :
  trim (purpose_of text) = purpose_of text.
Proof.
  unfold purpose_of.
  destruct (stripped_clean text) as [H1 H2].
  destruct (stripped text) as [|a s].
  - destruct (secondary purposePatterns text) as [c|] eqn:E;
      [|reflexivity].
    apply (secondary_trimmed purposePatterns text c E).
  - apply trim_clean; assumption.
Qed.

Lemma fallback_purpose_eq (text : str) :
  text <> [] ->
  purpose (parseLoanRequestFallback (VStr text)) = VStr (purpose_of text).
Proof.
  intros H. unfold parseLoanRequestFallback.
  apply truthy_str in H. rewrite H.
  cbn [is_string negb orb]. cbv zeta. cbn [purpose as_str].
  unfold js_or at 1. rewrite H.
  rewrite purpose_body_ok. reflexivity.
Qed.

(** X5: a purpose the fallback extractor returns has no white space at its
    start or at its end: trimming it changes nothing. *)
Theorem fallback_purpose_trimmed (v : value) (s : str) :
  purpose (parseLoanRequestFallback v) = VStr s -> trim s = s.
Proof.
  destruct v as [| |b|q| | | |text|l|l];
    try (rewrite fallback_not_a_string by reflexivity; discriminate).
  destruct text as [|a t]; [discriminate|].
  rewrite fallback_purpose_eq by discriminate.
  intros H. inversion H. apply purpose_of_trimmed.
Qed.

Lemma fallback_purpose_trimmed_witness :
  trim (lit "buy a van") = lit "buy a van".
Proof.
  apply (fallback_purpose_trimmed
           (VStr (lit "  to   buy a van  "))).
  reflexivity.
Defined.

End ExtractorFacts.

(** ** The handlers of App and PreviousOffers *)

Section HandlerFacts.
Import Chatbot Api Effects AppState HandlerSpec.

Lemma handleLoanRequest_refused (loanData : LoanData)
      (r : reply ProcessResult) (a : app_state) :
  refused r ->
  exists e,
    handleLoanRequest loanData r a
    = (Ok tt,
       mkApp (offers a) (selectedOffer a) (Some loanData)
         (alerts a ++ [lit "Error: " ++ e]) (fetches a))
    /\ forall x,
         r = Response false (Json x) ->
         e = or_text (detail x) failed_to_process.
Proof.
  intros H. destruct H as [ | [|] | [| |x]];
    eexists; (split; [reflexivity|]); intros y Hy; inversion Hy; subst;
    reflexivity.
Qed.

Lemma handleLoanRequest_fulfilled (loanData : LoanData)
      (r : reply ProcessResult) (a : app_state) :
  fst (handleLoanRequest loanData r a) = Ok tt.
Proof.
  destruct r as [|[|] [| |x]]; reflexivity.
Qed.

(** X12: when the back end gives no answer to a loan request (the request
    fails, the body is not JSON whatever the status, or the status is not a
    success), [handleLoanRequest] does not reject: it shows one alert,
    "Error: " and the message of the error, leaves the selected offer and
    the offers as they were and starts no fetch, while the request stays
    recorded as the current one.  For a status that is not a success with
    a JSON object as body, the message is the [detail] of the object, or
    "Failed to process loan request" without one. *)
Theorem loan_request_refused (loanData : LoanData) (r : reply ProcessResult)
        (a : app_state) :
  refused r ->
  fulfilled (handleLoanRequest loanData r) a = true
  /\ exists e,
       after (handleLoanRequest loanData r) a
       = mkApp (offers a) (selectedOffer a) (Some loanData)
           (alerts a ++ [lit "Error: " ++ e]) (fetches a)
       /\ forall x,
            r = Response false (Json x) ->
            e = or_text (detail x) failed_to_process.
Proof.
  intros H. unfold fulfilled, after.
  destruct (handleLoanRequest_refused loanData r a H) as (e & -> & He).
  split; [reflexivity|]. exists e. split; [reflexivity | exact He].
Qed.

Lemma loan_request_refused_witness :
  let d := mkLoanData (VNum 5000) (VNum 12) (VStr (lit "a van")) (VNum 0) in
  let a := mkApp [] None None [] 0 in
  let r :=
    Response false (Json (mkProcessResult None (Some (lit "no bank")))) in
  after (handleLoanRequest d r) a
  = mkApp [] None (Some d) [lit "Error: no bank"] 0.
Proof.
  intros d a r.
  destruct (loan_request_refused d r a (refused_status _))
    as (_ & e & -> & He).
  rewrite (He _ eq_refl). reflexivity.
Defined.

Lemma last_index {A : Type} (l : list A) :
  nth_error l (length l - 1) = hd_error (rev l) \/ l = [].
Proof.
  destruct l as [|x l] using rev_ind; [right; reflexivity|left].
  rewrite length_app, rev_app_distr. simpl.
  rewrite Nat.add_sub, nth_error_app2, Nat.sub_diag by lia. reflexivity.
Qed.

Lemma fetchOffers_app (r : reply OffersData) (a : app_state) :
  after (fetchOffers r) a
  = match latest_entry r with
    | Some latestRequest =>
        mkApp (or_empty (Api.offers latestRequest)) (selectedOffer a)
          (currentRequest a) (alerts a) (fetches a)
    | None => a
    end.
Proof.
  unfold after.
  destruct r as [|[|] [| |[[l|]]]]; try reflexivity.
  unfold fetchOffers, catch, mbind, latest_entry.
  cbn [loan_requests or_empty ret].
  destruct (last_index l) as [E| ->]; [|reflexivity].
  destruct l as [|x l]; [reflexivity|].
  rewrite E. change (0 <? length (x :: l)) with true. cbv iota.
  destruct (hd_error (rev (x :: l))) as [latest|] eqn:El; [reflexivity|].
  exfalso.
  assert (H : rev (x :: l) = [])
    by (destruct (rev (x :: l)); [reflexivity | discriminate]).
  apply (f_equal (@length _)) in H. rewrite length_rev in H. discriminate.
Qed.

Lemma fetchOffers_app_fulfilled (r : reply OffersData) (a : app_state) :
  fulfilled (fetchOffers r) a = true.
Proof.
  unfold fulfilled.
  destruct r as [|[|] [| |[[l|]]]]; try reflexivity.
  unfold fetchOffers, catch, mbind. cbn [loan_requests ret].
  destruct (0 <? length l); [|reflexivity].
  destruct (nth_error l (length l - 1)); reflexivity.
Qed.

(** X13: [fetchOffers] never rejects.  When the reply is a success whose
    JSON object lists at least one request, the offers become those of the
    last entry of [loan_requests] (none when the entry has no [offers]);
    in every other case the state is left as it was, and no other field
    ever changes. *)
Theorem fetchOffers_latest (r : reply OffersData) (a : app_state) :
  fulfilled (fetchOffers r) a = true
  /\ after (fetchOffers r) a
     = match latest_entry r with
       | Some latestRequest =>
           mkApp (or_empty (Api.offers latestRequest)) (selectedOffer a)
             (currentRequest a) (alerts a) (fetches a)
       | None => a
       end.
Proof.
  split; [apply fetchOffers_app_fulfilled | apply fetchOffers_app].
Qed.

(** X23: when the back end answers a loan request with a success and a
    JSON body, [handleLoanRequest] records the request as the current one
    and the answer as the selected offer ([null] for the body [null]),
    shows no alert and starts one [fetchOffers], without touching the
    offers; once that fetch is answered the offers are those of the last
    entry listed, and when the fetch brings nothing they stay the ones of
    the list before, beside the new selected offer. *)
Theorem loan_request_accepted (loanData : LoanData) (b : body ProcessResult)
        (r : reply OffersData) (a : app_state) :
  b <> NotJson ->
  let result := match b with
                | Json x => Some x
                | _ => None
                end in
  let a1 := after (handleLoanRequest loanData (Response true b)) a in
  let a2 := after (fetchOffers r) a1 in
  a1 = mkApp (offers a) result (Some loanData) (alerts a) (S (fetches a))
  /\ a2 = mkApp match latest_entry r with
                | Some latestRequest => or_empty (Api.offers latestRequest)
                | None => offers a
                end result (Some loanData) (alerts a) (S (fetches a)).
Proof.
  intros Hb result a1 a2.
  assert (H1 : a1 = mkApp (offers a) result (Some loanData) (alerts a)
                     (S (fetches a))).
  { unfold a1, result. destruct b as [| |x]; [congruence| |]; reflexivity. }
  split; [exact H1|].
  unfold a2. rewrite fetchOffers_app, H1.
  destruct (latest_entry r); reflexivity.
Qed.

Lemma loan_request_accepted_witness :
  let d := mkLoanData (VNum 5000) (VNum 12) (VStr (lit "a van")) (VNum 0) in
  let x := mkProcessResult (Some (lit "B")) None in
  let a := mkApp [] None None [] 0 in
  after (handleLoanRequest d (Response true (Json x))) a
  = mkApp [] (Some x) (Some d) [] 1.
Proof.
  intros d x a.
  apply (loan_request_accepted d (Json x) FetchRejected a).
  discriminate.
Defined.

(** X14: [showNotification] starts a timer it never cancels.  A
    notification shown [d] milliseconds after another one, [d] below 5000,
    is on screen for [5000 - d] milliseconds only: the timer of the first
    one clears it. *)
Theorem notification_cut_short (b : banner) (m1 t1 m2 t2 : str) (d e : nat) :
  timers b = [] -> d < 5000 ->
  let shown :=
    showNotification m2 t2 (elapse d (showNotification m1 t1 b)) in
  (e < 5000 - d -> notification (elapse e shown) = Some (m2, t2))
  /\ (5000 - d <= e -> notification (elapse e shown) = None).
Proof.
  intros Hb Hd shown. unfold shown, showNotification, elapse.
  cbn [timers notification]. rewrite Hb. cbn [app filter existsb map].
  replace (5000 <=? d) with false by (symmetry; apply Nat.leb_gt; lia).
  cbn [negb map app existsb orb].
  split; intros He.
  - replace (5000 - d <=? e) with false by (symmetry; apply Nat.leb_gt; lia).
    replace (5000 <=? e) with false by (symmetry; apply Nat.leb_gt; lia).
    reflexivity.
  - replace (5000 - d <=? e) with true by (symmetry; apply Nat.leb_le; lia).
    reflexivity.
Qed.

Lemma notification_cut_short_witness :
  notification
    (elapse 2000
       (showNotification (lit "second") (lit "success")
          (elapse 3000
             (showNotification (lit "first") (lit "error")
                (mkBanner None [])))))
  = None.
Proof.
  apply (proj2 (notification_cut_short (mkBanner None []) (lit "first")
                  (lit "error") (lit "second") (lit "success") 3000 2000
                  eq_refl ltac:(lia))).
  lia.
Defined.

End HandlerFacts.

Section PreviousOffersFacts.
Import Chatbot Api Effects HandlerSpec.
Import PreviousOffers.

Lemma card_ok (n : nat) (request : LoanRequestEntry) (i : nat) :
  displayable request -> card n request i = Ok (n - i, request).
Proof.
  intros (Ha & _ & _ & Ho). unfold card. rewrite Ha.
  destruct (Api.offers request); [reflexivity | congruence].
Qed.

Lemma card_sound (n : nat) (request : LoanRequestEntry) (i : nat)
      (c : nat * LoanRequestEntry) :
  card n request i = Ok c ->
  c = (n - i, request)
  /\ localizable (amount (Api.request request)) = true
  /\ Api.offers request <> None.
Proof.
  unfold card.
  destruct (localizable (amount (Api.request request))); [|discriminate].
  destruct (Api.offers request); [|discriminate].
  simpl. intros [= <-]. repeat split. discriminate.
Qed.

(** The cards of a list, when every card can be built: the entries in their
    order, numbered from the length of the list down to 1. *)
Lemma cards_numbers (n : nat) (l : list LoanRequestEntry) :
  forall i c,
    n = i + length l ->
    map_indexM (card n) i l = Ok c ->
    map fst c = rev (seq 1 (length l)) /\ map snd c = l.
Proof.
  induction l as [|x l IH]; intros i c Hn H.
  - inversion H. split; reflexivity.
  - cbn [map_indexM] in H.
    destruct (card n x i) as [y|e] eqn:Ey; [|discriminate].
    destruct (map_indexM (card n) (S i) l) as [r|e] eqn:Er; [|discriminate].
    simpl in H. inversion H; subst c; clear H.
    apply card_sound in Ey as (-> & _).
    simpl length in *.
    destruct (IH (S i) r) as [H1 H2]; [lia | exact Er |].
    split.
    + cbn [map fst]. rewrite H1.
      rewrite seq_S. rewrite rev_app_distr. simpl. f_equal. lia.
    + cbn [map snd]. rewrite H2. reflexivity.
Qed.

Lemma cards_built (n : nat) (l : list LoanRequestEntry) :
  Forall displayable l ->
  forall i, exists c, map_indexM (card n) i l = Ok c.
Proof.
  induction 1 as [|x l Hx _ IH]; intros i; [eexists; reflexivity|].
  cbn [map_indexM]. rewrite (card_ok n x i Hx).
  destruct (IH (S i)) as [c ->]. eexists. reflexivity.
Qed.

Lemma children_accepted_all (l : list LoanRequestEntry) :
  Forall displayable l -> forallb children_accepted l = true.
Proof.
  intros H. apply forallb_forall. rewrite Forall_forall in H.
  intros x Hx. destruct (H x Hx) as (_ & Hd & Hp & _).
  unfold children_accepted. rewrite Hd, Hp. reflexivity.
Qed.

Lemma render_loaded (l : list LoanRequestEntry) :
  l <> [] -> Forall displayable l ->
  exists c,
    render (mkPanel l false) = Ok (Timeline c)
    /\ map fst c = rev (seq 1 (length l))
    /\ map snd c = l.
Proof.
  intros Hl Hd. unfold render. cbn [loading allOffers].
  destruct l as [|x l]; [congruence|].
  change (length (x :: l) =? 0) with false. cbv iota.
  destruct (cards_built (length (x :: l)) (x :: l) Hd 0) as [c Hc].
  rewrite Hc. cbn [bind]. rewrite (children_accepted_all _ Hd).
  exists c. split; [reflexivity|].
  apply (cards_numbers (length (x :: l)) (x :: l) 0 c eq_refl Hc).
Qed.

(** What is shown when the render returns. *)
Lemma render_shown (l : list LoanRequestEntry) (v : view) :
  l <> [] ->
  render (mkPanel l false) = Ok v ->
  map fst (cards v) = rev (seq 1 (length l)) /\ map snd (cards v) = l.
Proof.
  intros Hl. unfold render. cbn [loading allOffers].
  destruct l as [|x l]; [congruence|].
  change (length (x :: l) =? 0) with false. cbv iota.
  destruct (map_indexM (card (length (x :: l))) 0 (x :: l)) as [c|e] eqn:Hc;
    [|discriminate].
  cbn [bind]. destruct (forallb children_accepted (x :: l)); [|discriminate].
  intros [= <-]. cbn [cards].
  apply (cards_numbers (length (x :: l)) (x :: l) 0 c eq_refl Hc).
Qed.

Lemma cards_throw (n : nat) (l : list LoanRequestEntry) :
  Exists (fun request =>
            localizable (amount (Api.request request)) = false
            \/ Api.offers request = None) l ->
  forall i, exists e, map_indexM (card n) i l = Throw e.
Proof.
  induction 1 as [x l Hx|x l _ IH]; intros i; cbn [map_indexM].
  - unfold card. destruct Hx as [Hx|Hx].
    + rewrite Hx. eexists. reflexivity.
    + rewrite Hx.
      destruct (localizable (amount (Api.request x))); eexists; reflexivity.
  - destruct (card n x i) as [y|e]; [|eexists; reflexivity].
    destruct (IH (S i)) as [e ->]. eexists. reflexivity.
Qed.

Lemma render_throws (l : list LoanRequestEntry) :
  Exists (fun request => ~ displayable request) l ->
  exists e, render (mkPanel l false) = Throw e.
Proof.
  intros H. unfold render. cbn [loading allOffers].
  destruct l as [|x l]; [inversion H|].
  change (length (x :: l) =? 0) with false. cbv iota.
  destruct (map_indexM (card (length (x :: l))) 0 (x :: l)) as [c|e] eqn:Hc;
    [|eexists; reflexivity].
  cbn [bind].
  destruct (forallb children_accepted (x :: l)) eqn:Hch;
    [|eexists; reflexivity].
  exfalso. rewrite Exists_exists in H. destruct H as (y & Hy & Hn).
  apply Hn. rewrite forallb_forall in Hch. specialize (Hch y Hy).
  unfold children_accepted in Hch. apply andb_true_iff in Hch as [Hd Hp].
  assert (Hall : forall i c,
             map_indexM (card (length (x :: l))) i (x :: l) = Ok c ->
             Forall (fun request =>
                       localizable (amount (Api.request request)) = true
                       /\ Api.offers request <> None) (x :: l)).
  { generalize (length (x :: l)). generalize (x :: l).
    induction l0 as [|z l0 IH]; intros n i c0 H0; [constructor|].
    cbn [map_indexM] in H0.
    destruct (card n z i) as [y0|e] eqn:Ey; [|discriminate].
    destruct (map_indexM (card n) (S i) l0) as [r|e] eqn:Er; [|discriminate].
    apply card_sound in Ey as (_ & Ha & Ho).
    constructor; [split; assumption | exact (IH n (S i) r Er)]. }
  specialize (Hall 0 c Hc). rewrite Forall_forall in Hall.
  destruct (Hall y Hy) as [Ha Ho]. repeat split; assumption.
Qed.

Lemma fetchOffers_panel (r : reply OffersData) (p : panel) :
  after (fetchOffers r) p
  = mkPanel match listed r with
            | Some l => l
            | None => allOffers p
            end false.
Proof.
  destruct r as [|[|] [| |[[l|]]]]; reflexivity.
Qed.

(** X15: once the reply of [/offers] is in, the panel no longer shows the
    loading line.  A success with a JSON object replaces the list by its
    [loan_requests] (by the empty list when there is none), any other reply
    keeps the list.  An empty list shows the "no previous offers" line.
    Any other list shows a card per request, in the order of the list,
    numbered from the length of the list down to 1, when every entry can
    be displayed; one entry that cannot (no [offers], an amount that is
    [null] or has no usable [toLocaleString], an object as duration or
    purpose) makes the render throw, and no card is shown at all. *)
Theorem previous_offers_loaded (r : reply OffersData) (p : panel) :
  let shown := render (after (fetchOffers r) p) in
  let l := match listed r with
           | Some l => l
           | None => allOffers p
           end in
  fulfilled (fetchOffers r) p = true
  /\ shown <> Ok Loading
  /\ (l = [] -> shown = Ok NoOffers)
  /\ (l <> [] -> Forall displayable l ->
      exists c,
        shown = Ok (Timeline c)
        /\ map snd c = l
        /\ map fst c = rev (seq 1 (length l)))
  /\ (Exists (fun request => ~ displayable request) l ->
      exists e, shown = Throw e).
Proof.
  intros shown l.
  assert (Hf : fulfilled (fetchOffers r) p = true).
  { destruct r as [|[|] [| |[[l0|]]]]; reflexivity. }
  unfold shown. rewrite fetchOffers_panel. fold l.
  split; [exact Hf|]. split; [|split; [|split]].
  - unfold render. cbn [loading allOffers].
    destruct (length l =? 0); [discriminate|].
    destruct (map_indexM (card (length l)) 0 l); [|discriminate].
    cbn [bind]. destruct (forallb children_accepted l); discriminate.
  - intros ->. reflexivity.
  - intros Hl Hd.
    destruct (render_loaded l Hl Hd) as (c & Hc & H1 & H2).
    exists c. repeat split; assumption.
  - apply render_throws.
Qed.

Lemma previous_offers_loaded_witness :
  let d := mkLoanData (VNum 5000) (VNum 12) (VStr (lit "a van")) (VNum 0) in
  let first := mkEntry (lit "2025-01-01") d (Some []) in
  let second := mkEntry (lit "2025-01-02") d (Some []) in
  let bare := mkEntry (lit "2025-01-03") d None in
  (exists c,
      render (after (fetchOffers
                       (Response true
                          (Json (mkOffersData (Some [first; second])))))
                initial)
      = Ok (Timeline c)
      /\ map snd c = [first; second]
      /\ map fst c = [2; 1])
  /\ (exists e,
         render (after (fetchOffers
                          (Response true
                             (Json (mkOffersData (Some [first; bare])))))
                   initial)
         = Throw e).
Proof.
  intros d first second bare. split.
  - apply (previous_offers_loaded
             (Response true (Json (mkOffersData (Some [first; second]))))
             initial).
    + discriminate.
    + repeat constructor; discriminate.
  - apply (previous_offers_loaded
             (Response true (Json (mkOffersData (Some [first; bare]))))
             initial).
    apply Exists_cons_tl, Exists_cons_hd.
    intros (_ & _ & _ & H). apply H. reflexivity.
Defined.

End PreviousOffersFacts.

Section LatestFacts.
Import Chatbot Api Effects HandlerSpec.

Lemma hd_error_rev_map {A B : Type} (f : A -> B) (l : list A) :
  hd_error (rev (map f l)) = option_map f (hd_error (rev l)).
Proof.
  rewrite <- map_rev. destruct (rev l); reflexivity.
Qed.

Lemma last_card (l : list LoanRequestEntry) (c : list (nat * LoanRequestEntry))
      (latestRequest : LoanRequestEntry) :
  hd_error (rev l) = Some latestRequest ->
  map fst c = rev (seq 1 (length l)) -> map snd c = l ->
  hd_error (rev c) = Some (1, latestRequest).
Proof.
  intros H H1 H2.
  assert (E1 : hd_error (rev (map fst c)) = Some 1).
  { rewrite H1, rev_involutive.
    destruct l; [discriminate | reflexivity]. }
  assert (E2 : hd_error (rev (map snd c)) = Some latestRequest).
  { rewrite H2. exact H. }
  rewrite hd_error_rev_map in E1. rewrite hd_error_rev_map in E2.
  destruct (hd_error (rev c)) as [[n x]|]; [|discriminate].
  simpl in E1, E2. congruence.
Qed.

(** X16: the two readers of [/offers] take the list in opposite orders,
    and they differ on an entry without offers.  On one reply, [App] shows
    the offers of the last entry of [loan_requests] as the latest, none
    when that entry has no [offers]; [PreviousOffers], whenever it renders,
    gives that entry its last card, numbered 1; it renders when every
    entry of the list can be displayed, and throws when the latest entry
    has no [offers]. *)
Theorem latest_request_is_number_one (r : reply OffersData)
        (latestRequest : LoanRequestEntry) (a : AppState.app_state)
        (p : PreviousOffers.panel) :
  latest_entry r = Some latestRequest ->
  let shown := PreviousOffers.render (after (PreviousOffers.fetchOffers r) p) in
  AppState.offers (after (AppState.fetchOffers r) a)
  = or_empty (Api.offers latestRequest)
  /\ (forall v, shown = Ok v ->
                hd_error (rev (cards v)) = Some (1, latestRequest))
  /\ ((forall l, listed r = Some l -> Forall displayable l) ->
      exists v, shown = Ok v)
  /\ (Api.offers latestRequest = None -> exists e, shown = Throw e).
Proof.
  intros H shown. split; [|split; [|split]].
  - rewrite fetchOffers_app, H. reflexivity.
  - intros v Hv. unfold shown in Hv. rewrite fetchOffers_panel in Hv.
    destruct r as [|[|] [| |data]]; try discriminate.
    cbn [latest_entry listed] in *.
    set (l := or_empty (loan_requests data)) in *.
    assert (Hl : l <> []) by (intros E; rewrite E in H; discriminate).
    destruct (render_shown l v Hl Hv) as [H1 H2].
    exact (last_card l (cards v) latestRequest H H1 H2).
  - intros Hd. unfold shown. rewrite fetchOffers_panel.
    destruct r as [|[|] [| |data]]; try discriminate.
    cbn [latest_entry listed] in *.
    set (l := or_empty (loan_requests data)) in *.
    assert (Hl : l <> []) by (intros E; rewrite E in H; discriminate).
    destruct (render_loaded l Hl (Hd l eq_refl)) as (c & Hc & _).
    exists (PreviousOffers.Timeline c). exact Hc.
  - intros Ho. unfold shown. rewrite fetchOffers_panel.
    destruct r as [|[|] [| |data]]; try discriminate.
    cbn [latest_entry listed] in *.
    set (l := or_empty (loan_requests data)) in *.
    apply render_throws. apply Exists_exists. exists latestRequest. split.
    + apply in_rev. destruct (rev l); [discriminate|].
      inversion H; subst. left. reflexivity.
    + intros (_ & _ & _ & Hn). contradiction.
Qed.

Lemma latest_request_is_number_one_witness :
  let d := mkLoanData (VNum 5000) (VNum 12) (VStr (lit "a van")) (VNum 0) in
  let first := mkEntry (lit "2025-01-01") d (Some []) in
  let second :=
    mkEntry (lit "2025-01-02") d
      (Some [mkBankOffer (lit "A") (lit "Bank A") None]) in
  let r := Response true (Json (mkOffersData (Some [first; second]))) in
  AppState.offers (after (AppState.fetchOffers r) (AppState.mkApp [] None None [] 0))
  = [mkBankOffer (lit "A") (lit "Bank A") None]
  /\ exists v,
       PreviousOffers.render
         (after (PreviousOffers.fetchOffers r) PreviousOffers.initial) = Ok v
       /\ hd_error (rev (cards v)) = Some (1, second).
Proof.
  intros d first second r.
  destruct (latest_request_is_number_one r second
              (AppState.mkApp [] None None [] 0) PreviousOffers.initial
              eq_refl) as (Happ & Hlast & Hshown & _).
  split; [exact Happ|].
  destruct Hshown as [v Hv].
  - intros l [= <-]. repeat constructor; discriminate.
  - exists v. split; [exact Hv | exact (Hlast v Hv)].
Defined.

End LatestFacts.

(** ** The chat and its parent *)

Section HeldBackFacts.
Import Chatbot InterpreterSpec ExtractorSpec.

Lemma fallback_on_failure (JSON_parse : str -> option value) (text : str)
      (reply : llm_reply) :
  failed JSON_parse reply ->
  parseLoanRequestWithOllama JSON_parse text reply
  = Ok (parseLoanRequestFallback (VStr text)).
Proof.
  intros H.
  destruct H as [ | status body | status | status data H | status data H];
    try reflexivity;
    unfold answer in H; unfold parseLoanRequestWithOllama; simpl;
    (destruct (get data "message") as [message|e]; [|reflexivity]); simpl;
    (destruct (get_opt message "content") as [content|e]; [|reflexivity]);
    simpl;
    (destruct (js_or content (VStr [])) as [| |b|q| | | |s|l|l];
     try reflexivity; try discriminate);
    simpl; unfold parse_json; rewrite H; reflexivity.
Qed.

Lemma no_digit_drop_spaces (s : str) : no_digit s -> no_digit (drop_spaces s).
Proof.
  induction 1 as [|a s Ha Hs IH]; simpl; [constructor|].
  destruct (is_space a); [exact IH | constructor; assumption].
Qed.

Lemma no_digit_trim (s : str) : no_digit s -> no_digit (trim s).
Proof.
  intros H. unfold trim, no_digit.
  apply Forall_rev, no_digit_drop_spaces, Forall_rev, no_digit_drop_spaces.
  exact H.
Qed.

(** X7: when the language-model path fails and the input holds no digit,
    nothing is submitted: the extractor finds no amount, and the bot asks
    for clarification. *)
Theorem digitless_request_held_back
        (JSON_parse : str -> option value)
        (processing : LoanData -> result str)
        (onLoanRequest : LoanData -> result unit)
        (st : chat) (reply : llm_reply) :
  failed JSON_parse reply ->
  no_digit (inputValue st) ->
  trim (inputValue st) <> [] ->
  handleSubmit JSON_parse processing onLoanRequest st reply
  = mkChat
      (messages st
       ++ [mkMessage user (trim (inputValue st)); mkMessage bot clarification])
      [] false (submitted st).
Proof.
  intros Hf Hd Hin. unfold handleSubmit.
  pose proof Hin as Ht. apply truthy_str in Ht. rewrite Ht. cbn [negb].
  rewrite (fallback_on_failure JSON_parse _ reply Hf).
  unfold incomplete.
  rewrite (fallback_amount_eq _ Hin),
    (amount_absent _ (no_digit_trim _ Hd)).
  cbn [is_match andb truthy negb orb].
  unfold setIsTyping, say, setInputValue; simpl.
  rewrite <- app_assoc. reflexivity.
Qed.

Lemma digitless_request_held_back_witness :
  let st := mkChat [] (lit "a loan to buy a van") false [] in
  handleSubmit parse_empty_object (fun _ => Ok []) (fun _ => Ok tt) st
    Chatbot.FetchRejected
  = mkChat [mkMessage user (lit "a loan to buy a van");
            mkMessage bot clarification] [] false [].
Proof.
  intros st.
  apply (digitless_request_held_back parse_empty_object (fun _ => Ok [])
           (fun _ => Ok tt) st Chatbot.FetchRejected).
  - apply failed_transport.
  - repeat constructor.
  - discriminate.
Defined.

End HeldBackFacts.

Section SubmitFacts.
Import Chatbot InterpreterSpec Api HandlerSpec.

Lemma drop_spaces_all (s : str) :
  Forall (fun a => is_space a = true) s -> drop_spaces s = [].
Proof. induction 1 as [|a s Ha _ IH]; simpl; [|rewrite Ha]; auto. Qed.

Lemma trim_blank (s : str) :
  Forall (fun a => is_space a = true) s -> trim s = [].
Proof. intros H. unfold trim. rewrite (drop_spaces_all s H). reflexivity. Qed.

(** X9: an input of white space only is ignored: nothing is said, nothing
    is submitted, the state is left as it was. *)
Theorem blank_input_is_ignored (JSON_parse : str -> option value)
        (processing : LoanData -> result str)
        (onLoanRequest : LoanData -> result unit)
        (st : chat) (reply : llm_reply) :
  Forall (fun a => is_space a = true) (inputValue st) ->
  handleSubmit JSON_parse processing onLoanRequest st reply = st.
Proof.
  intros H. unfold handleSubmit. rewrite (trim_blank _ H). reflexivity.
Qed.

Lemma blank_input_is_ignored_witness :
  let st := mkChat [] (lit "   ") false [] in
  handleSubmit parse_empty_object (fun _ => Ok []) (fun _ => Ok tt) st
    Chatbot.FetchRejected
  = st.
Proof.
  intros st.
  apply (blank_input_is_ignored parse_empty_object (fun _ => Ok [])
           (fun _ => Ok tt) st).
  repeat constructor.
Defined.

(** X10: on a submission of an input that is not blank, [onLoanRequest]
    is called exactly when the interpreted request passes the gate: once,
    with that request, also when the text of the "Processing" message
    cannot be built; otherwise it is not called.  And when that text can be
    built for a request that passes the gate, the submission keeps the
    messages that were there, adds the trimmed input as a message of the
    user and then one or two messages of the bot, clears the input and
    ends with [isTyping] off. *)
Theorem submission_bookkeeping (JSON_parse : str -> option value)
        (processing : LoanData -> result str)
        (onLoanRequest : LoanData -> result unit)
        (st : chat) (reply : llm_reply) :
  trim (inputValue st) <> [] ->
  let st' := handleSubmit JSON_parse processing onLoanRequest st reply in
  let parsed :=
    parseLoanRequestWithOllama JSON_parse (trim (inputValue st)) reply in
  (forall d, parsed = Ok d -> isComplete d = true ->
             submitted st' = submitted st ++ [d])
  /\ ((forall d, parsed = Ok d -> isComplete d = false) ->
      submitted st' = submitted st)
  /\ ((forall d, parsed = Ok d -> isComplete d = true ->
                 exists text, processing d = Ok text) ->
      exists replies,
        messages st'
        = messages st ++ mkMessage user (trim (inputValue st)) :: replies
        /\ Forall (fun m => mtype m = bot) replies
        /\ 1 <= length replies <= 2
        /\ inputValue st' = []
        /\ isTyping st' = false).
Proof.
  intros Hin st' parsed. unfold st', parsed, handleSubmit.
  apply truthy_str in Hin. rewrite Hin. cbn [negb].
  destruct (parseLoanRequestWithOllama JSON_parse (trim (inputValue st)) reply)
    as [d|e] eqn:Hd.
  - unfold isComplete. destruct (incomplete d) eqn:Hg.
    + split; [|split].
      * intros d' [= <-] H. rewrite Hg in H. discriminate.
      * reflexivity.
      * intros _. eexists [_]. cbn. rewrite <- app_assoc.
        repeat split; auto.
    + destruct (processing d) as [text|e] eqn:Hp.
      * destruct (onLoanRequest d) as [[]|e];
          (split; [intros d' [= <-] _; reflexivity|]);
          (split; [intros H; specialize (H d eq_refl); rewrite Hg in H;
                   discriminate|]);
          intros _; eexists [_; _]; cbn; rewrite <- !app_assoc;
          repeat split; auto.
      * split; [intros d' [= <-] _; reflexivity|].
        split; [intros H; specialize (H d eq_refl); rewrite Hg in H;
                discriminate|].
        intros H. destruct (H d eq_refl) as [text Ht];
          [rewrite Hg; reflexivity | congruence].
  - split; [discriminate|]. split; [reflexivity|].
    intros _. eexists [_]. cbn. rewrite <- app_assoc.
    repeat split; auto.
Qed.

Lemma submission_bookkeeping_witness :
  let st := mkChat [] (lit " hello ") false [] in
  let st2 := mkChat [] (lit "I need $5 for 3 months to buy a van") false [] in
  (exists replies,
      messages (handleSubmit parse_empty_object (fun _ => Ok [])
                  (fun _ => Ok tt) st Chatbot.FetchRejected)
      = mkMessage user (lit "hello") :: replies)
  /\ submitted (handleSubmit parse_empty_object
                  (fun _ => Throw (lit "TypeError")) (fun _ => Ok tt) st2
                  Chatbot.FetchRejected)
     = [parseLoanRequestFallback
          (VStr (lit "I need $5 for 3 months to buy a van"))].
Proof.
  intros st st2. split.
  - destruct (submission_bookkeeping parse_empty_object (fun _ => Ok [])
                (fun _ => Ok tt) st Chatbot.FetchRejected)
      as (_ & _ & H).
    + discriminate.
    + destruct H as (replies & H & _).
      * intros d _ _. exists []. reflexivity.
      * exists replies. exact H.
  - destruct (submission_bookkeeping parse_empty_object
                (fun _ => Throw (lit "TypeError")) (fun _ => Ok tt) st2
                Chatbot.FetchRejected)
      as (H & _).
    + discriminate.
    + apply (H (parseLoanRequestFallback
                  (VStr (lit "I need $5 for 3 months to buy a van")))).
      * reflexivity.
      * vm_compute. reflexivity.
Defined.

(** X11: [App.handleLoanRequest] catches its own errors, so the chat never
    sees them.  For a complete request that the back end refuses, the chat
    still ends on "Your loan request has been processed! Check the offers
    above.", while [App] shows the alert of the error and keeps the
    selected offer it had. *)
Theorem refused_request_reported_as_processed
        (JSON_parse : str -> option value)
        (processing : LoanData -> result str)
        (st : chat) (reply : llm_reply) (d : LoanData) (text : str)
        (r : Api.reply ProcessResult) (a : AppState.app_state) :
  trim (inputValue st) <> [] ->
  parseLoanRequestWithOllama JSON_parse (trim (inputValue st)) reply = Ok d ->
  isComplete d = true ->
  processing d = Ok text ->
  refused r ->
  messages
    (handleSubmit JSON_parse processing
       (fun loanData => fst (AppState.handleLoanRequest loanData r a))
       st reply)
  = messages st
    ++ [mkMessage user (trim (inputValue st)); mkMessage bot text;
        mkMessage bot processed]
  /\ (exists e,
         AppState.alerts (Effects.after (AppState.handleLoanRequest d r) a)
         = AppState.alerts a ++ [lit "Error: " ++ e])
  /\ AppState.selectedOffer (Effects.after (AppState.handleLoanRequest d r) a)
     = AppState.selectedOffer a.
Proof.
  intros Hin Hd Hg Hp Hr. split.
  - unfold handleSubmit.
    apply truthy_str in Hin. rewrite Hin. cbn [negb].
    rewrite Hd. unfold isComplete in Hg. apply negb_true_iff in Hg.
    rewrite Hg, Hp, handleLoanRequest_fulfilled.
    cbn. rewrite <- !app_assoc. reflexivity.
  - unfold Effects.after.
    destruct (handleLoanRequest_refused d r a Hr) as (e & -> & _).
    split; [exists e|]; reflexivity.
Qed.

(** X8: when the answer of the language model parses to a JSON value other
    than [null], each of [amount], [duration] and [purpose] of the result
    is [null] or truthy, [expected_income] is [0] or truthy, and the gate of
    [handleSubmit] lets the result pass exactly when none of the three is
    [null]. *)
Theorem answer_fields_null_or_truthy (JSON_parse : str -> option value)
        (text : str) (status : nat)
        (data parsed : value) :
  answer JSON_parse data = Some parsed ->
  parsed <> VNull -> parsed <> VUndefined ->
  exists d,
    parseLoanRequestWithOllama JSON_parse text
      (Chatbot.Response true status (Some data)) = Ok d
    /\ (forall f, In f [amount d; duration d; purpose d] ->
                  f = VNull \/ truthy f = true)
    /\ (expected_income d = VNum 0 \/ truthy (expected_income d) = true)
    /\ isComplete d = required_present d.
Proof.
  intros H Hn Hu.
  unfold answer in H. unfold parseLoanRequestWithOllama. simpl.
  destruct (get data "message") as [message|e]; [|discriminate]. simpl.
  destruct (get_opt message "content") as [content|e]; [|discriminate].
  simpl.
  destruct (js_or content (VStr [])) as [| |b|q| | | |s|l|l]; try discriminate.
  simpl. unfold parse_json. rewrite H. simpl.
  assert (Hor : forall x, js_or x VNull = VNull
                          \/ truthy (js_or x VNull) = true).
  { intros x. unfold js_or. destruct (truthy x) eqn:E; auto. }
  assert (Hnull : forall x, truthy (js_or x VNull)
                            = negb (is_null (js_or x VNull))).
  { intros x. unfold js_or. destruct (truthy x) eqn:E; [|reflexivity].
    destruct x; simpl in *; congruence. }
  assert (Hget : forall k, exists x, get parsed k = Ok x).
  { intros k. destruct parsed; try congruence; eexists; reflexivity. }
  destruct (Hget "amount"%string) as [xa ->],
    (Hget "duration"%string) as [xd ->],
    (Hget "purpose"%string) as [xp ->],
    (Hget "expected_income"%string) as [xe ->].
  simpl. eexists. split; [reflexivity|].
  split; [|split].
  - cbn [amount duration purpose]. intros f [<-|[<-|[<-|[]]]]; apply Hor.
  - cbn [expected_income]. unfold js_or.
    destruct (truthy xe) eqn:E; auto.
  - unfold isComplete, incomplete, required_present.
    cbn [amount duration purpose]. rewrite !Hnull.
    destruct (is_null (js_or xa VNull)), (is_null (js_or xd VNull)),
      (is_null (js_or xp VNull)); reflexivity.
Qed.

Lemma refused_request_reported_as_processed_witness :
  let st :=
    mkChat [] (lit "I need $5000 for 12 months to buy a van") false [] in
  let a := AppState.mkApp [] None None [] 0 in
  messages
    (handleSubmit parse_empty_object (fun _ => Ok (lit "Processing"))
       (fun loanData =>
          fst (AppState.handleLoanRequest loanData Api.FetchRejected a))
       st Chatbot.FetchRejected)
  = [mkMessage user (lit "I need $5000 for 12 months to buy a van");
     mkMessage bot (lit "Processing"); mkMessage bot processed].
Proof.
  intros st a.
  apply (refused_request_reported_as_processed parse_empty_object
           (fun _ => Ok (lit "Processing")) st Chatbot.FetchRejected
           (parseLoanRequestFallback
              (VStr (lit "I need $5000 for 12 months to buy a van")))
           (lit "Processing") Api.FetchRejected a);
    [discriminate | reflexivity | reflexivity | reflexivity
    | apply refused_transport].
Defined.

Lemma answer_fields_null_or_truthy_witness :
  exists d,
    parseLoanRequestWithOllama parse_empty_object (lit "a loan")
      (Chatbot.Response true 200 (Some (chat_body "{}"))) = Ok d
    /\ isComplete d = required_present d.
Proof.
  destruct (answer_fields_null_or_truthy parse_empty_object (lit "a loan")
              200 (chat_body "{}") (VObj []))
    as (d & H & _ & _ & Hg); [reflexivity | discriminate | discriminate|].
  exists d. split; assumption.
Defined.

End SubmitFacts.

(** ** The grid, call after call *)

Section GridFacts.
Import OffersGrid NegotiationSpec.

Lemma assign_offer_frame (index : nat) (o : option Offer) :
  forall (l l' : list BankOffer),
    assign_offer index o l = Ok l' ->
    map bank_id l' = map bank_id l
    /\ map bank_name l' = map bank_name l
    /\ forall j, j <> index -> nth_error l' j = nth_error l j.
Proof.
  induction index as [|i IH]; intros [|od l] l' H; simpl in H;
    try discriminate.
  - inversion H; subst. repeat split.
    intros [|j] Hj; [congruence | reflexivity].
  - destruct (assign_offer i o l) as [r|e] eqn:E; [|discriminate].
    inversion H; subst. destruct (IH l r E) as (H1 & H2 & H3).
    simpl. rewrite H1, H2. repeat split.
    intros [|j] Hj; [reflexivity | apply H3; congruence].
Qed.

Lemma handleNegotiate_unsent (g : grid) (offerData : BankOffer) (index : nat)
      (r : reply) :
  offer offerData = None ->
  after (handleNegotiate offerData index r) g
  = mkGrid (offers g) None
      (notifications g ++ [(negotiation_error, lit "error")]) (requests g).
Proof.
  intros H. unfold after, handleNegotiate, begin, mbind, catch, lift,
    offer_of, setNegotiating, onNotification, ret.
  rewrite H. reflexivity.
Qed.

Lemma handleNegotiate_sent (g : grid) (offerData : BankOffer) (o : Offer)
      (index : nat) (r : reply) :
  offer offerData = Some o ->
  after (handleNegotiate offerData index r) g
  = after (resume index r)
      (mkGrid (offers g) (Some index) (notifications g)
         (requests g
          ++ [mkRequest (bank_id offerData) o (targetRate (interest_rate o))])).
Proof.
  intros H. unfold after, handleNegotiate, mbind at 1.
  rewrite (begin_sends g offerData o index H). reflexivity.
Qed.

Lemma resume_frame (g : grid) (index : nat) (r : reply) :
  let g' := after (resume index r) g in
  negotiating g' = None
  /\ (exists n, notifications g' = notifications g ++ [n])
  /\ requests g' = requests g
  /\ map bank_id (offers g') = map bank_id (offers g)
  /\ map bank_name (offers g') = map bank_name (offers g)
  /\ (forall j, j <> index -> nth_error (offers g') j = nth_error (offers g) j)
  /\ (offers g' <> offers g ->
      exists result, r = Response true (Json result) /\ agreed result = true).
Proof.
  unfold after, resume, mbind, catch, ret, raise, get_offers, lift,
    onOffersUpdate, onNotification, setNegotiating.
  destruct r as [|[|] [| |result]]; cbn;
    try (repeat split; eauto; congruence).
  destruct (agreed result) eqn:Ha; cbn;
    [|repeat split; eauto; congruence].
  destruct (assign_offer index (updated_offer result) (offers g)) as [l'|e]
    eqn:El; cbn.
  - destruct (assign_offer_frame index _ _ _ El) as (H1 & H2 & H3).
    repeat split; eauto.
  - repeat split; eauto; congruence.
Qed.

(** X17: whatever the reply, a call of [handleNegotiate] ends with the
    [negotiating] flag cleared and exactly one notification added; it sends
    one request when the entry has an offer record and none otherwise; it
    never adds, drops, reorders or renames an entry and never touches the
    entry of another index; and the offers change only on a success whose
    JSON body has [agreed] true. *)
Theorem negotiation_bookkeeping (g : grid) (offerData : BankOffer)
        (index : nat) (r : reply) :
  let g' := after (handleNegotiate offerData index r) g in
  negotiating g' = None
  /\ (exists n, notifications g' = notifications g ++ [n])
  /\ requests g'
     = requests g
       ++ match offer offerData with
          | Some o =>
              [mkRequest (bank_id offerData) o (targetRate (interest_rate o))]
          | None => []
          end
  /\ map bank_id (offers g') = map bank_id (offers g)
  /\ map bank_name (offers g') = map bank_name (offers g)
  /\ (forall j, j <> index -> nth_error (offers g') j = nth_error (offers g) j)
  /\ (offers g' <> offers g ->
      exists result, r = Response true (Json result) /\ agreed result = true).
Proof.
  intros g'. unfold g'.
  destruct (offer offerData) as [o|] eqn:Ho.
  - rewrite (handleNegotiate_sent g offerData o index r Ho).
    apply (resume_frame
             (mkGrid (offers g) (Some index) (notifications g)
                (requests g
                 ++ [mkRequest (bank_id offerData) o
                       (targetRate (interest_rate o))])) index r).
  - rewrite (handleNegotiate_unsent g offerData index r Ho). cbn.
    rewrite app_nil_r. repeat split; eauto. congruence.
Qed.

Lemma resume_agreed (g : grid) (index : nat) (result : NegotiationResult)
      (l' : list BankOffer) :
  agreed result = true ->
  assign_offer index (updated_offer result) (offers g) = Ok l' ->
  after (resume index (Response true (Json result))) g
  = mkGrid l' None
      (notifications g ++ [(successful (new_rate result), lit "success")])
      (requests g).
Proof.
  intros Ha Hl.
  unfold after, resume, mbind, catch, ret, get_offers, lift, onOffersUpdate,
    onNotification, setNegotiating.
  rewrite Ha. simpl. rewrite Hl. reflexivity.
Qed.

Lemma click_sends (g : grid) (waiting : list nat) (index : nat)
      (offerData : BankOffer) (o : Offer) :
  nth_error (offers g) index = Some offerData ->
  offer offerData = Some o ->
  ~ (amount_approved o == 0)%Q ->
  same_index (negotiating g) index = false ->
  step (mkWorld g waiting) (Click index)
  = Some (mkWorld
            (mkGrid (offers g) (Some index) (notifications g)
               (requests g
                ++ [mkRequest (bank_id offerData) o
                      (targetRate (interest_rate o))]))
            (waiting ++ [index])).
Proof.
  intros Hn Ho Ha Hs.
  assert (Ro : Qeq_bool (amount_approved o) 0 = false).
  { destruct (Qeq_bool (amount_approved o) 0) eqn:E; [|reflexivity].
    apply Qeq_bool_iff in E. contradiction. }
  unfold step, can_negotiate. cbn [ui in_flight]. rewrite Hn.
  unfold isRejected. rewrite Ho, Ro, Hs. cbn [negb andb].
  rewrite (begin_sends g offerData o index Ho). reflexivity.
Qed.

(** X18: a second negotiation on an entry starts from what the first one
    stored.  After an agreement with [updated_offer] u (with a non-zero
    approved amount), the next click on the same index sends u as
    [current_offer] and, as [target_rate], the binary64 difference of the
    rate of u and the literal 0.005: for the rate written 0.065 that is
    0.060000000000000005. *)
Theorem next_round_starts_from_update
        (l : list BankOffer) (ns : list (str * str))
        (rs : list NegotiationRequest) (index : nat) (offerData : BankOffer)
        (o u : Offer) (shown : option Q) (why : option str) :
  nth_error l index = Some offerData ->
  offer offerData = Some o ->
  ~ (amount_approved o == 0)%Q ->
  ~ (amount_approved u == 0)%Q ->
  exists w,
    steps (mkWorld (mkGrid l None ns rs) [])
      [Click index;
       Settle 0 (Response true (Json (mkResult true (Some u) shown why)));
       Click index] = Some w
    /\ requests (ui w)
       = rs ++ [mkRequest (bank_id offerData) o
                  (Binary64.to64 (interest_rate o - Binary64.to64 (5 # 1000)));
                mkRequest (bank_id offerData) u
                  (Binary64.to64 (interest_rate u - Binary64.to64 (5 # 1000)))]
    /\ in_flight w = [index].
Proof.
  intros Hn Ho Hao Hau.
  change (Binary64.to64 (interest_rate o - Binary64.to64 (5 # 1000)))
    with (targetRate (interest_rate o)).
  change (Binary64.to64 (interest_rate u - Binary64.to64 (5 # 1000)))
    with (targetRate (interest_rate u)).
  destruct (assign_offer_ok index (Some u) l offerData Hn)
    as (l' & Hl & Hi & _).
  cbn [steps].
  rewrite (click_sends (mkGrid l None ns rs) [] index offerData o Hn Ho Hao
             eq_refl).
  cbn [app offers notifications requests negotiating].
  change (step (mkWorld ?g [index]) (Settle 0 ?r))
    with (Some (mkWorld (after (resume index r) g) [])).
  cbv iota.
  rewrite (resume_agreed
             (mkGrid l (Some index) ns
                (rs ++ [mkRequest (bank_id offerData) o
                          (targetRate (interest_rate o))]))
             index (mkResult true (Some u) shown why) l' eq_refl Hl).
  cbn [notifications requests new_rate].
  rewrite (click_sends
             (mkGrid l' None (ns ++ [(successful shown, lit "success")])
                (rs ++ [mkRequest (bank_id offerData) o
                          (targetRate (interest_rate o))]))
             [] index
             (mkBankOffer (bank_id offerData) (bank_name offerData) (Some u))
             u Hi eq_refl Hau eq_refl).
  eexists. split; [reflexivity|].
  cbn [ui in_flight requests bank_id app]. rewrite <- app_assoc.
  split; reflexivity.
Qed.

Lemma next_round_starts_from_update_witness :
  let u := plain_offer (Binary64.to64 (65 # 1000)) in
  exists w,
    steps two_offers
      [Click 0;
       Settle 0 (Response true
                   (Json (mkResult true (Some u)
                            (Some (Binary64.to64 (65 # 1000))) None)));
       Click 0] = Some w
    /\ map target_rate (requests (ui w))
       = [1170935903116329 # 18014398509481984;
          8646911284551353 # 144115188075855872].
Proof.
  intros u.
  destruct (next_round_starts_from_update
              (offers (ui two_offers)) [] [] 0
              (mkBankOffer (lit "A") (lit "Bank A")
                 (Some (plain_offer (7 # 100))))
              (plain_offer (7 # 100)) u
              (Some (Binary64.to64 (65 # 1000))) None eq_refl eq_refl)
    as (w & Hw & Hr & _).
  - intros H; vm_compute in H; discriminate.
  - intros H; vm_compute in H; discriminate.
  - exists w. split; [exact Hw|]. rewrite Hr. vm_compute. reflexivity.
Defined.

End GridFacts.

Section GridTraceFacts.
Import OffersGrid NegotiationSpec GridSpec.

Lemma remove_nth_In {A : Type} (x : A) (l : list A) :
  forall k, In x (remove_nth k l) -> In x l.
Proof.
  induction l as [|y l IH]; intros [|k] H; simpl in *; auto.
  destruct H as [H|H]; eauto.
Qed.

Lemma same_names_same_length (l l' : list BankOffer) :
  map bank_id l' = map bank_id l -> length l' = length l.
Proof.
  intros H. apply (f_equal (@length str)) in H.
  rewrite !length_map in H. exact H.
Qed.

Lemma begin_unsent (g : grid) (offerData : BankOffer) (index : nat) :
  offer offerData = None ->
  begin offerData index g
  = (Ok None,
     mkGrid (offers g) None
       (notifications g ++ [(negotiation_error, lit "error")]) (requests g)).
Proof.
  intros H. unfold begin, mbind, catch, lift, offer_of, setNegotiating,
    onNotification, ret.
  rewrite H. reflexivity.
Qed.

Lemma step_keeps (w w' : world) (a : action) :
  well_formed w -> step w a = Some w' ->
  well_formed w'
  /\ map bank_id (offers (ui w')) = map bank_id (offers (ui w))
  /\ map bank_name (offers (ui w')) = map bank_name (offers (ui w)).
Proof.
  intros [Hflag Hvalid] H. destruct a as [index|k r]; simpl in H.
  - destruct (nth_error (offers (ui w)) index) as [offerData|] eqn:Hn;
      [|discriminate].
    destruct (can_negotiate (ui w) index); [|discriminate].
    destruct (offer offerData) as [o|] eqn:Ho.
    + rewrite (begin_sends (ui w) offerData o index Ho) in H.
      inversion H; subst; clear H. cbn [ui in_flight offers negotiating].
      repeat split.
      * intros i Hi. inversion Hi; subst. apply in_or_app. right. left.
        reflexivity.
      * apply Forall_app. split; [assumption|]. constructor; [|constructor].
        apply (proj1 (nth_error_Some (offers (ui w)) index)).
        rewrite Hn. discriminate.
    + rewrite (begin_unsent (ui w) offerData index Ho) in H.
      inversion H; subst; clear H. cbn [ui in_flight offers negotiating].
      repeat split; [discriminate | assumption].
  - destruct (nth_error (in_flight w) k) as [index|]; [|discriminate].
    inversion H; subst; clear H. cbn [ui in_flight].
    destruct (resume_frame (ui w) index r) as (Hf & _ & _ & Hid & Hname & _).
    repeat split; try assumption.
    + intros i Hi. cbn [ui] in Hi. rewrite Hf in Hi. discriminate.
    + cbn [ui in_flight]. rewrite (same_names_same_length _ _ Hid).
      rewrite Forall_forall in *. intros i Hi. apply Hvalid.
      apply (remove_nth_In i _ k Hi).
Qed.

Lemma steps_keep (actions : list action) :
  forall w w',
    well_formed w -> steps w actions = Some w' ->
    well_formed w'
    /\ map bank_id (offers (ui w')) = map bank_id (offers (ui w))
    /\ map bank_name (offers (ui w')) = map bank_name (offers (ui w)).
Proof.
  induction actions as [|a actions IH]; intros w w' Hw H; simpl in H.
  - inversion H; subst. repeat split; apply Hw.
  - destruct (step w a) as [w1|] eqn:E; [|discriminate].
    destruct (step_keeps w w1 a Hw E) as (Hw1 & Hid & Hname).
    destruct (IH w1 w' Hw1 H) as (Hw' & Hid' & Hname').
    repeat split; try apply Hw'; congruence.
Qed.

Lemma idle_well_formed (w : world) : idle w -> well_formed w.
Proof.
  intros [Hflag Hnone]. split.
  - intros index H. congruence.
  - rewrite Hnone. constructor.
Qed.

(** X21: from a grid with no call under way, whatever is clicked and
    whatever replies arrive, in whatever order, the grid stays well formed
    as long as the parent passes no other list: the index the
    [negotiating] flag holds has a call that waits for its reply, every
    waiting call still has its entry in the list, and the list keeps its
    banks, in their order. *)
Theorem grid_stays_well_formed (actions : list action) (w w' : world) :
  idle w -> steps w actions = Some w' ->
  well_formed w'
  /\ map bank_id (offers (ui w')) = map bank_id (offers (ui w))
  /\ map bank_name (offers (ui w')) = map bank_name (offers (ui w)).
Proof.
  intros Hw H. exact (steps_keep actions w w' (idle_well_formed w Hw) H).
Qed.

Lemma grid_stays_well_formed_witness :
  exists w,
    steps two_offers [Click 0; Click 1; Settle 0 FetchRejected] = Some w
    /\ well_formed w.
Proof.
  eexists. split; [reflexivity|].
  apply (grid_stays_well_formed [Click 0; Click 1; Settle 0 FetchRejected]
           two_offers).
  - split; reflexivity.
  - reflexivity.
Defined.

(** X22: in a grid reached by clicks and replies from one with no call
    under way, an agreement that arrives is always stored: the entry of
    the waiting call is there, it takes the [updated_offer] of the reply,
    the call leaves the waiting ones and the flag is cleared. *)
Theorem arriving_agreement_is_stored (w0 w : world) (actions : list action)
        (k index : nat) (result : NegotiationResult) :
  idle w0 -> steps w0 actions = Some w ->
  nth_error (in_flight w) k = Some index ->
  agreed result = true ->
  exists w' target,
    step w (Settle k (Response true (Json result))) = Some w'
    /\ nth_error (offers (ui w)) index = Some target
    /\ nth_error (offers (ui w')) index
       = Some (mkBankOffer (bank_id target) (bank_name target)
                 (updated_offer result))
    /\ negotiating (ui w') = None
    /\ in_flight w' = remove_nth k (in_flight w).
Proof.
  intros Hidle Hsteps Hk Ha.
  destruct (steps_keep actions w0 w (idle_well_formed w0 Hidle) Hsteps)
    as ([_ Hvalid] & _).
  assert (Hi : index < length (offers (ui w))).
  { rewrite Forall_forall in Hvalid. apply Hvalid.
    apply (nth_error_In _ _ Hk). }
  destruct (nth_error (offers (ui w)) index) as [target|] eqn:Hn;
    [|apply nth_error_None in Hn; lia].
  destruct (assign_offer_ok index (updated_offer result) (offers (ui w))
              target Hn) as (l' & Hl & Hl' & _).
  simpl. rewrite Hk.
  rewrite (resume_agreed (ui w) index result l' Ha Hl).
  eexists _, target. repeat split. exact Hl'.
Qed.

Lemma arriving_agreement_is_stored_witness :
  exists w w',
    steps two_offers [Click 0; Click 1] = Some w
    /\ step w (Settle 1 (Response true
                           (Json (mkResult true (Some (plain_offer (6 # 100)))
                                    (Some (6 # 100)) None)))) = Some w'
    /\ rate_at (ui w') 1 = Some (6 # 100).
Proof.
  eexists.
  destruct (arriving_agreement_is_stored two_offers
              (mkWorld
                 (mkGrid (offers (ui two_offers)) (Some 1) []
                    [mkRequest (lit "A") (plain_offer (7 # 100))
                       (targetRate (7 # 100));
                     mkRequest (lit "B") (plain_offer (8 # 100))
                       (targetRate (8 # 100))])
                 [0; 1])
              [Click 0; Click 1] 1 1
              (mkResult true (Some (plain_offer (6 # 100))) (Some (6 # 100))
                 None))
    as (w' & target & Hs & Ht & Hn & _).
  - split; reflexivity.
  - reflexivity.
  - reflexivity.
  - reflexivity.
  - exists w'. split; [reflexivity|]. split; [exact Hs|].
    unfold rate_at. rewrite Hn. reflexivity.
Defined.

End GridTraceFacts.

(** ** The best offers *)

Section BestOffersFacts.
Import App RankingSpec BestOffersSpec.

Lemma filterM_filter (l : list BankOffer) :
  Forall has_offer l -> filterM approved l = Ok (filter is_approved l).
Proof.
  induction 1 as [|od l [o Ho] _ IH]; [reflexivity|].
  simpl. unfold approved at 1, offer_of, is_approved at 1.
  rewrite Ho. simpl. rewrite IH. simpl.
  destruct (Qle_bool (amount_approved o) 0); reflexivity.
Qed.

Lemma precedes_trans (a b c : BankOffer) :
  precedes a b -> precedes b c -> precedes a c.
Proof.
  unfold precedes.
  destruct (offer a) as [oa|], (offer b) as [ob|], (offer c) as [oc|];
    try tauto.
  intros [H1|[H1 H1']] [H2|[H2 H2']].
  - left. lra.
  - left. lra.
  - left. lra.
  - right. split; lra.
Qed.

Lemma StronglySorted_app {A : Type} (R : A -> A -> Prop) (l1 l2 : list A) :
  StronglySorted R (l1 ++ l2) ->
  forall x y, In x l1 -> In y l2 -> R x y.
Proof.
  induction l1 as [|a l1 IH]; intros H x y Hx Hy; [contradiction|].
  simpl in H. apply StronglySorted_inv in H as [Hs Ha].
  destruct Hx as [<-|Hx].
  - rewrite Forall_forall in Ha. apply Ha. apply in_or_app. right; assumption.
  - apply IH; assumption.
Qed.

(** X19: on a list whose entries carry their offer record, the list shown
    holds min(3, number of entries with a positive approved amount)
    entries, and no entry left out is better: every approved entry is shown
    or comes, in the order of the ranking, after every entry shown. *)
Theorem rank_shows_the_best (offers : list BankOffer) (selected_bank : str) :
  Forall has_offer offers ->
  exists shown,
    rank offers selected_bank = Ok shown
    /\ length shown = Nat.min 3 (length (filter is_approved offers))
    /\ (forall offerData,
           In offerData offers -> is_approved offerData = true ->
           In offerData (map entry shown)
           \/ (forall r, In r shown -> precedes (entry r) offerData)).
Proof.
  intros Hwf. unfold rank. rewrite (filterM_filter offers Hwf). cbn [bind].
  assert (Hk : Forall has_offer (filter is_approved offers)).
  { rewrite Forall_forall in *. intros od Hod.
    apply filter_In in Hod as [Hod _]. auto. }
  destruct (sortM_sorted _ Hk) as (s & -> & Hperm & Hsorted). cbn [bind].
  eexists. split; [reflexivity|].
  assert (Hentries :
            map entry
              (map (fun od => mkRanked od (str_eqb (bank_id od) selected_bank))
                 (firstn 3 s)) = firstn 3 s).
  { rewrite map_map. cbn [entry]. apply map_id. }
  split.
  - rewrite length_map, length_firstn, (Permutation_length Hperm).
    reflexivity.
  - intros od Hin Hap. rewrite Hentries.
    assert (Hs : In od s).
    { apply (Permutation_in _ Hperm). apply filter_In. auto. }
    rewrite <- (firstn_skipn 3 s) in Hs. apply in_app_or in Hs as [Hs|Hs].
    + left; assumption.
    + right. intros r Hr.
      apply (in_map entry) in Hr. rewrite Hentries in Hr.
      apply (StronglySorted_app precedes (firstn 3 s) (skipn 3 s));
        try assumption.
      rewrite firstn_skipn. apply Sorted_StronglySorted; [|assumption].
      intros x y z. apply precedes_trans.
Qed.

Lemma rank_shows_the_best_witness :
  exists shown,
    rank [bank "A" 100 (8 # 100); bank "B" 0 (6 # 100); bank "C" 300 (9 # 100);
          bank "D" 200 (9 # 100); bank "E" 400 (9 # 100)] (lit "B")
    = Ok shown
    /\ length shown = 3.
Proof.
  destruct (rank_shows_the_best
              [bank "A" 100 (8 # 100); bank "B" 0 (6 # 100);
               bank "C" 300 (9 # 100); bank "D" 200 (9 # 100);
               bank "E" 400 (9 # 100)] (lit "B"))
    as (shown & H & Hlen & _).
  - repeat constructor; eexists; reflexivity.
  - exists shown. split; [exact H | exact Hlen].
Defined.

End BestOffersFacts.

(** ** The grid and the best offers *)

Section GridRankingFacts.
Import OffersGrid NegotiationSpec App RankingSpec.

(** X24: an agreement without [updated_offer] breaks the best offers.  The
    entry at the index is stored without an offer record, and the filter
    of the best-offers list, which reads [offerData.offer.amount_approved],
    throws on it. *)
Theorem agreement_without_offer_breaks_ranking
        (g : grid) (offerData target : BankOffer) (o : Offer) (index : nat)
        (shown : option Q) (why : option str) (selected_bank : str) :
  nth_error (offers g) index = Some target ->
  offer offerData = Some o ->
  let g' :=
    after (handleNegotiate offerData index
             (Response true (Json (mkResult true None shown why)))) g in
  nth_error (offers g') index
  = Some (mkBankOffer (bank_id target) (bank_name target) None)
  /\ exists e, rank (offers g') selected_bank = Throw e.
Proof.
  intros Ht Ho g'.
  destruct (assign_offer_ok index None (offers g) target Ht)
    as (l' & Hl & Hi & _).
  assert (Hg : offers g' = l').
  { unfold g'.
    rewrite (negotiate_agreed g offerData o index
               (mkResult true None shown why) l' Ho eq_refl Hl).
    reflexivity. }
  rewrite Hg. split; [exact Hi|].
  apply rank_needs_offers.
  exists (mkBankOffer (bank_id target) (bank_name target) None).
  split; [|reflexivity]. apply (nth_error_In _ _ Hi).
Qed.

Lemma agreement_without_offer_breaks_ranking_witness :
  let a :=
    mkBankOffer (lit "A") (lit "Bank A") (Some (plain_offer (7 # 100))) in
  let r :=
    Response true (Json (mkResult true None (Some (65 # 1000)) None)) in
  exists e,
    rank (offers (after (handleNegotiate a 0 r) (ui two_offers))) (lit "A")
    = Throw e.
Proof.
  intros a r.
  apply (agreement_without_offer_breaks_ranking (ui two_offers) a a
           (plain_offer (7 # 100)) 0 (Some (65 # 1000)) None (lit "A")
           eq_refl eq_refl).
Defined.

End GridRankingFacts.
